(** * media-toolkit: job lifecycle and file lifecycle of the backend

    A shallow embedding of the backend services of media-toolkit
    (imageProcessor.js, svgProcessor.js, imageMagickProcessor.js,
    videoProcessor.js, archiver.js and utils/fileCleanup.js), the
    properties of its specification that concern them (C1 to C10) and
    further properties of the same code (X1 to X22).

    The services are JavaScript [async] functions over the uploads
    directory.  They are embedded as state-passing functions over an
    explicit [World] (the directory, the transient faults of the file
    system, a clock and a trace of the calls made to the outside), in a
    state-and-exception monad [M].  The codecs (sharp, SVGO, ImageMagick,
    ffmpeg) are opaque: an [Env] record says what each invocation
    produces. *)

From Stdlib Require Import ZArith Ascii String List Floats.
From stdpp Require Import base option list gmap strings pretty.

Local Open Scope string_scope.
Local Open Scope list_scope.
Local Open Scope Z_scope.

(* ===================================================================== *)
(** * JavaScript and Node primitives used by the services *)
(* ===================================================================== *)

Module Js.

(** [String.prototype.toLowerCase], on the ASCII range. *)
Definition lowerChar (c : ascii) : ascii :=
  let n := nat_of_ascii c in
  if ((65 <=? n)%nat && (n <=? 90)%nat)%bool then ascii_of_nat (n + 32) else c.

Fixpoint toLowerCase (s : string) : string :=
  match s with
  | EmptyString => EmptyString
  | String c r => String (lowerChar c) (toLowerCase r)
  end.

(** The last non-empty segment of a POSIX path (trailing separators are
    ignored), as [path.basename] and [path.extname] find it. *)
Fixpoint lastSegment (s cur last : string) : string :=
  match s with
  | EmptyString => if String.eqb cur "" then last else cur
  | String c r =>
      if Ascii.eqb c "/"%char
      then lastSegment r "" (if String.eqb cur "" then last else cur)
      else lastSegment r (cur +:+ String c "") last
  end.

Definition component (p : string) : string := lastSegment p "" "".

(** Index of the right-most dot of [s], counting from [i]. *)
Fixpoint lastDot (s : string) (i : nat) (found : option nat) : option nat :=
  match s with
  | EmptyString => found
  | String c r => lastDot r (S i) (if Ascii.eqb c "."%char then Some i else found)
  end.

(** [path.extname]: from the last dot of the last segment to its end;
    empty when there is no dot, when the only dot leads the segment, and
    for the segment [..]. *)
Definition extname (p : string) : string :=
  let c := component p in
  match lastDot c 0 None with
  | None => ""
  | Some O => ""
  | Some i => if String.eqb c ".." then "" else substring i (String.length c - i) c
  end.

(** [path.basename(p, path.extname(p))]: the last segment without its
    extension. *)
Definition basenameNoExt (p : string) : string :=
  let c := component p in
  substring 0 (String.length c - String.length (extname p)) c.

(** Template rendering of an integer-valued number. *)
Definition numToString (z : Z) : string := pretty z.

(** [Array.prototype.includes] on strings. *)
Definition includes (l : list string) (x : string) : bool :=
  existsb (String.eqb x) l.

(** JavaScript truthiness of a value that is [null] or a number. *)
Definition truthy (v : option Z) : bool :=
  match v with
  | Some n => negb (n =? 0)
  | None => false
  end.

(** ** [parseInt(s)] without a radix: leading white space, a sign, an
    optional [0x] prefix, then the longest run of digits; [None] is NaN.
    (The integer is exact here where JavaScript rounds it to a double;
    comparisons with small constants are the same.) *)
Definition isSpace (c : ascii) : bool :=
  let n := nat_of_ascii c in
  (((9 <=? n)%nat && (n <=? 13)%nat) || (n =? 32)%nat)%bool.

Fixpoint skipSpaces (s : string) : string :=
  match s with
  | String c r => if isSpace c then skipSpaces r else s
  | EmptyString => s
  end.

Definition digitVal (radix : Z) (c : ascii) : option Z :=
  let n := Z.of_nat (nat_of_ascii c) in
  let v := if ((48 <=? n) && (n <=? 57))%bool then Some (n - 48)
           else if ((97 <=? n) && (n <=? 122))%bool then Some (n - 87)
           else if ((65 <=? n) && (n <=? 90))%bool then Some (n - 55)
           else None in
  match v with
  | Some d => if d <? radix then Some d else None
  | None => None
  end.

Fixpoint digitsFrom (radix : Z) (s : string) (acc : option Z) : option Z :=
  match s with
  | EmptyString => acc
  | String c r =>
      match digitVal radix c with
      | Some d => digitsFrom radix r (Some (default 0 acc * radix + d))
      | None => acc
      end
  end.

Definition parseInt (s : string) : option Z :=
  let s1 := skipSpaces s in
  let '(neg, s2) :=
    match s1 with
    | String "-"%char r => (true, r)
    | String "+"%char r => (false, r)
    | _ => (false, s1)
    end in
  let '(radix, s3) :=
    match s2 with
    | String "0"%char (String "x"%char r) => (16, r)
    | String "0"%char (String "X"%char r) => (16, r)
    | _ => (10, s2)
    end in
  match digitsFrom radix s3 None with
  | Some n => Some (if neg then - n else n)
  | None => None
  end.

(** [x >= k] for [x] a number or NaN: every comparison with NaN is
    false. *)
Definition geNum (x : option Z) (k : Z) : bool :=
  match x with
  | Some n => k <=? n
  | None => false
  end.

(** ** Numbers as IEEE doubles, for the size arithmetic *)

(** A byte count as a double (exact below 2^53). *)
Definition ofSize (z : Z) : float := PrimFloat.of_uint63 (Uint63.of_Z z).

(** The integer nearest to [q / 2^k], the larger one on a tie. *)
Definition roundShift (q : Z) (k : Z) : Z :=
  if 0 <=? k then q * 2 ^ k
  else (2 * q + 2 ^ (- k)) / (2 * 2 ^ (- k)).

(** [n / 100] written with two decimals, for [n >= 0]. *)
Definition twoDecimals (n : Z) : string :=
  let m := pretty n in
  let m := if (String.length m <=? 2)%nat
           then (if (String.length m <=? 1)%nat then "00" else "0") +:+ m
           else m in
  let k := String.length m in
  substring 0 (k - 2) m +:+ "." +:+ substring (k - 2) 2 m.

(** [Number.prototype.toFixed(2)], for magnitudes below 10^21 (beyond
    which JavaScript switches to exponent notation; percentages of file
    sizes stay far below). *)
Definition toFixed2 (x : float) : string :=
  match Prim2SF x with
  | S754_nan => "NaN"
  | S754_infinity s => if s then "-Infinity" else "Infinity"
  | S754_zero _ => "0.00"
  | S754_finite s m e =>
      (if s then "-" else "") +:+ twoDecimals (roundShift (Z.pos m * 100) e)
  end.

(** [((originalSize - processedSize) / originalSize * 100).toFixed(2)] *)
Definition percentSaved (originalSize processedSize : Z) : string :=
  toFixed2 (PrimFloat.mul
              (PrimFloat.div (PrimFloat.sub (ofSize originalSize) (ofSize processedSize))
                             (ofSize originalSize))
              (ofSize 100)).

(** The rendering of [resize / 100] in a template, for an integer
    [resize]: the shortest decimal, as [Number::toString] gives it. *)
Definition scaleToString (resize : Z) : string :=
  let a := Z.abs resize in
  let q := a / 100 in
  let r := a mod 100 in
  (if resize <? 0 then "-" else "") +:+ pretty q +:+
  (if r =? 0 then ""
   else if r mod 10 =? 0 then "." +:+ pretty (r / 10)
   else if r <? 10 then ".0" +:+ pretty r
   else "." +:+ pretty r).

End Js.

(* ===================================================================== *)
(** * The world the services run in *)
(* ===================================================================== *)

(** Error codes of the file-system calls ([err.code]). *)
Inductive ErrCode := EPERM | EBUSY | ENOENT | EACCES | EISDIR | EIO.

#[global] Instance ErrCode_eq_dec : EqDecision ErrCode.
Proof. solve_decision. Defined.

Definition codeName (c : ErrCode) : string :=
  match c with
  | EPERM => "EPERM" | EBUSY => "EBUSY" | ENOENT => "ENOENT"
  | EACCES => "EACCES" | EISDIR => "EISDIR" | EIO => "EIO"
  end.

Definition codeText (c : ErrCode) : string :=
  match c with
  | EPERM => "operation not permitted"
  | EBUSY => "resource busy or locked"
  | ENOENT => "no such file or directory"
  | EACCES => "permission denied"
  | EISDIR => "illegal operation on a directory"
  | EIO => "i/o error"
  end.

(** A thrown JavaScript error: [err.code] (absent on a plain [Error]) and
    [err.message]. *)
Record JsError := mkError { code : option ErrCode; message : string }.

Definition plainError (msg : string) : JsError := mkError None msg.

Definition fsError (c : ErrCode) (syscall path : string) : JsError :=
  mkError (Some c) (codeName c +:+ ": " +:+ codeText c +:+ ", " +:+ syscall +:+ " '" +:+ path +:+ "'").

(** What [fs.stat] reports of a directory entry. *)
Module Stats.
Record t := mk { size : Z; mtimeMs : Z; isDirectory : bool }.
End Stats.

(** A file as multer hands it over: the client's name for it and where
    the upload was stored. *)
Record UploadedFile := mkFile { originalname : string; path : string }.

(** Calls made to the outside, in the order they were made. *)
Inductive Event :=
| EvUnlink (path : string) (failure : option ErrCode)
| EvSleep (ms : Z)
| EvWrite (path : string) (bytes : Z)
| EvProbe (answer : bool)
| EvArchiveFile (path name : string)
| EvFinalize.

(** The uploads directory is flat and every path the services touch lies
    in it (multer stores the uploads there and every output is written to
    [path.dirname(file.path)]), so a path is represented by its file name.
    [faults] holds, per path, the errors the next [fs.unlink] calls on it
    will hit before the call goes through (a handle still open on
    Windows); [probes] is the number of [convert -version] probes made.
    [stale] holds names that a listing of the directory returns although
    no entry can be read under them (an entry removed by another process
    since the listing, a dangling link): [fs.stat] fails on them. *)
Record World := mkWorld {
  dirExists : bool;
  dir : gmap string Stats.t;
  faults : gmap string (list ErrCode);
  clock : Z;
  probes : nat;
  trace : list Event;
  stale : gset string
}.

Definition setDir (d : gmap string Stats.t) (w : World) : World :=
  mkWorld (dirExists w) d (faults w) (clock w) (probes w) (trace w) (stale w).
Definition setFaults (f : gmap string (list ErrCode)) (w : World) : World :=
  mkWorld (dirExists w) (dir w) f (clock w) (probes w) (trace w) (stale w).
Definition emit (e : Event) (w : World) : World :=
  mkWorld (dirExists w) (dir w) (faults w) (clock w) (probes w) (trace w ++ [e]) (stale w).
Definition advance (ms : Z) (w : World) : World :=
  mkWorld (dirExists w) (dir w) (faults w) (clock w + ms) (probes w) (trace w) (stale w).
Definition countProbe (w : World) : World :=
  mkWorld (dirExists w) (dir w) (faults w) (clock w) (S (probes w)) (trace w) (stale w).

(** The queue of faults pending on a path. *)
Definition pending (w : World) (path : string) : list ErrCode :=
  default [] (faults w !! path).

(** ** The monad of the services: state, and exceptions that keep the
    state reached when they were thrown. *)

Inductive Outcome (A : Type) :=
| Ok (a : A)
| Throw (e : JsError).
Arguments Ok {A} a.
Arguments Throw {A} e.

Definition M (A : Type) : Type := World -> Outcome A * World.

Definition ret {A} (a : A) : M A := fun w => (Ok a, w).
Definition throw {A} (e : JsError) : M A := fun w => (Throw e, w).
Definition bind {A B} (m : M A) (k : A -> M B) : M B :=
  fun w => match m w with
           | (Ok a, w') => k a w'
           | (Throw e, w') => (Throw e, w')
           end.
(** [try { m } catch (e) { h e }] *)
Definition tryCatch {A} (m : M A) (h : JsError -> M A) : M A :=
  fun w => match m w with
           | (Ok a, w') => (Ok a, w')
           | (Throw e, w') => h e w'
           end.

Declare Scope js_scope.
Delimit Scope js_scope with js.
Notation "'let!' x ':=' m 'in' k" := (bind m (fun x => k))
  (at level 10, x name, m at level 100, k at level 200) : js_scope.
Notation "m ';;;' k" := (bind m (fun _ => k))
  (at level 100, k at level 200, right associativity) : js_scope.
Local Open Scope js_scope.

Definition get : M World := fun w => (Ok w, w).
Definition modify (f : World -> World) : M unit := fun w => (Ok tt, f w).

(** [for (const x of l) { results.push(...body x) }] *)
Fixpoint forEach {A B} (body : A -> M (list B)) (l : list A) : M (list B) :=
  match l with
  | [] => ret []
  | x :: r => let! here := body x in let! rest := forEach body r in ret (here ++ rest)
  end.

(** ** File-system calls *)

(** [fs.access(path)] resolves exactly when the entry exists. *)
Definition exists_ (w : World) (path : string) : bool :=
  bool_decide (is_Some (dir w !! path)).

Definition access (path : string) : M unit :=
  fun w => if exists_ w path then (Ok tt, w) else (Throw (fsError ENOENT "access" path), w).

Definition stat (path : string) : M Stats.t :=
  fun w => match dir w !! path with
           | Some s => (Ok s, w)
           | None => (Throw (fsError ENOENT "stat" path), w)
           end.

(** [fs.unlink]: a pending fault of the path is consumed and raised;
    otherwise the entry is removed, or ENOENT is raised when there is
    none. *)
Definition unlink (path : string) : M unit :=
  fun w =>
    match pending w path with
    | c :: rest =>
        (Throw (fsError c "unlink" path),
         emit (EvUnlink path (Some c)) (setFaults (<[path := rest]> (faults w)) w))
    | [] =>
        match dir w !! path with
        | Some _ => (Ok tt, emit (EvUnlink path None) (setDir (delete path (dir w)) w))
        | None => (Throw (fsError ENOENT "unlink" path), emit (EvUnlink path (Some ENOENT)) w)
        end
    end.

(** [await new Promise(resolve => setTimeout(resolve, ms))] *)
Definition sleep (ms : Z) : M unit :=
  modify (fun w => emit (EvSleep ms) (advance ms w)).

(** A file of [bytes] bytes comes to exist at [path] (created or
    overwritten), stamped with the current time. *)
Definition writeFile (path : string) (bytes : Z) : M unit :=
  modify (fun w => emit (EvWrite path bytes)
                     (setDir (<[path := Stats.mk bytes (clock w) false]> (dir w)) w)).

(* ===================================================================== *)
(** * Filename allocator: getUniqueFilename *)
(* ===================================================================== *)

(** The names the allocator probes: [base.ext], then [base_1.ext],
    [base_2.ext], ... *)
Definition candidate (baseName format : string) (k : nat) : string :=
  match k with
  | O => baseName +:+ "." +:+ format
  | S _ => baseName +:+ "_" +:+ pretty k +:+ "." +:+ format
  end.

(** The [while (true)] loop of getUniqueFilename, with the number of
    iterations bounded by [fuel]: [filename] is the name under test and
    [counter] the suffix of the next one. *)
Fixpoint probeLoop (fuel : nat) (w : World) (baseName format filename : string)
    (counter : nat) : option string :=
  match fuel with
  | O => None
  | S fuel' =>
      if exists_ w filename
      then probeLoop fuel' w baseName format
             (baseName +:+ "_" +:+ pretty counter +:+ "." +:+ format) (S counter)
      else Some filename
  end.

Definition getUniqueFilenameFuel (fuel : nat) (w : World) (baseName format : string)
  : option string :=
  probeLoop fuel w baseName format (baseName +:+ "." +:+ format) 1.

(** One more iteration than the directory has entries always suffices
    ([getUniqueFilename_terminates] below), so the default is never
    taken. *)
Definition getUniqueFilenameIn (w : World) (baseName format : string) : string :=
  default (baseName +:+ "." +:+ format)
    (getUniqueFilenameFuel (S (size (dir w))) w baseName format).

Definition getUniqueFilename (baseName format : string) : M string :=
  fun w => (Ok (getUniqueFilenameIn w baseName format), w).


(* ===================================================================== *)
(** * Retryable deleter: safeUnlink *)
(* ===================================================================== *)

Definition isBusy (err : JsError) : bool :=
  match code err with
  | Some EPERM | Some EBUSY => true
  | _ => false
  end.

Definition isENOENT (err : JsError) : bool :=
  match code err with
  | Some ENOENT => true
  | _ => false
  end.

(** utils/fileCleanup.js.  One iteration of the [for] loop of safeUnlink:
    [Some b] is [return b], [None] falls through to the next iteration. *)
Definition safeUnlinkAttempt (filePath : string) (retries : nat) (delay : Z) (i : nat)
  : M (option bool) :=
  tryCatch
    (unlink filePath ;;; ret (Some true))
    (fun err =>
       if isBusy err then
         if (i <? retries - 1)%nat
         then sleep (delay * (Z.of_nat i + 1)) ;;; ret None
         else ret (Some false)
       else if isENOENT err then ret (Some true)
       else throw err).

(** [for (let i = 0; i < retries; i++) { ... } return false], with [n]
    the iterations left. *)
Fixpoint safeUnlinkFrom (n : nat) (filePath : string) (retries : nat) (delay : Z) (i : nat)
  : M bool :=
  match n with
  | O => ret false
  | S n' =>
      let! r := safeUnlinkAttempt filePath retries delay i in
      match r with
      | Some b => ret b
      | None => safeUnlinkFrom n' filePath retries delay (S i)
      end
  end.

Definition safeUnlink (filePath : string) (retries : nat) (delay : Z) : M bool :=
  safeUnlinkFrom retries filePath retries delay 0.

(** The copy of safeUnlink in the three processors returns nothing, does
    not treat ENOENT apart, and only logs when the last attempt fails. *)
Definition processorUnlinkAttempt (filePath : string) (retries : nat) (delay : Z) (i : nat)
  : M (option unit) :=
  tryCatch
    (unlink filePath ;;; ret (Some tt))
    (fun err =>
       if isBusy err then
         (if (i <? retries - 1)%nat
          then sleep (delay * (Z.of_nat i + 1))
          else ret tt) ;;; ret None
       else throw err).

Fixpoint processorUnlinkFrom (n : nat) (filePath : string) (retries : nat) (delay : Z)
    (i : nat) : M unit :=
  match n with
  | O => ret tt
  | S n' =>
      let! r := processorUnlinkAttempt filePath retries delay i in
      match r with
      | Some _ => ret tt
      | None => processorUnlinkFrom n' filePath retries delay (S i)
      end
  end.

Definition processorUnlink (filePath : string) : M unit :=
  processorUnlinkFrom 3 filePath 3 100 0.

(** ** Reading a trace *)

Definition busyCode (c : ErrCode) : bool :=
  match c with
  | EPERM | EBUSY => true
  | _ => false
  end.

(** The [fs.unlink] calls and the waits recorded in a trace. *)
Fixpoint unlinksIn (t : list Event) : list (string * option ErrCode) :=
  match t with
  | [] => []
  | EvUnlink p r :: t' => (p, r) :: unlinksIn t'
  | _ :: t' => unlinksIn t'
  end.

Fixpoint sleepsIn (t : list Event) : list Z :=
  match t with
  | [] => []
  | EvSleep ms :: t' => ms :: sleepsIn t'
  | _ :: t' => sleepsIn t'
  end.

(** What a run of failed attempts on [path], the first of them being
    iteration [i] of safeUnlink, leaves in the trace. *)
Fixpoint busyTrace (path : string) (retries : nat) (delay : Z) (i : nat) (cs : list ErrCode)
  : list Event :=
  match cs with
  | [] => []
  | c :: cs' =>
      EvUnlink path (Some c)
      :: (if (i <? retries - 1)%nat then [EvSleep (delay * (Z.of_nat i + 1))] else [])
      ++ busyTrace path retries delay (S i) cs'
  end.

(** The world after a failed [fs.unlink], after a wait, and after a run
    of failed attempts of safeUnlink starting at iteration [i]. *)
Definition failedUnlink (path : string) (c : ErrCode) (w : World) : World :=
  emit (EvUnlink path (Some c)) (setFaults (<[path := tail (pending w path)]> (faults w)) w).

Definition slept (ms : Z) (w : World) : World := emit (EvSleep ms) (advance ms w).

Fixpoint afterBusy (path : string) (retries : nat) (delay : Z) (i : nat) (cs : list ErrCode)
    (w : World) : World :=
  match cs with
  | [] => w
  | c :: cs' =>
      let w1 := failedUnlink path c w in
      afterBusy path retries delay (S i) cs'
        (if (i <? retries - 1)%nat then slept (delay * (Z.of_nat i + 1)) w1 else w1)
  end.

(** [unlinked q evs]: some event of [evs] is an [fs.unlink] of [q]. *)
Definition unlinkOf (q : string) (e : Event) : bool :=
  match e with
  | EvUnlink p _ => String.eqb p q
  | _ => false
  end.

Definition unlinked (q : string) (evs : list Event) : bool := existsb (unlinkOf q) evs.

(** [w'] is [w] after the calls [evs], none of which concerns [q]: the
    entry of [q] and the faults pending on it are as they were. *)
Definition Untouched (q : string) (w w' : World) (evs : list Event) : Prop :=
  trace w' = trace w ++ evs /\ unlinked q evs = false
  /\ dir w' !! q = dir w !! q /\ pending w' q = pending w q.

(* ===================================================================== *)
(** * Lifecycle scheduler: cleanupExpiredFiles and clearAllUploads *)
(* ===================================================================== *)

Definition FILE_EXPIRY_MS : Z := 10 * 60 * 1000.
Definition CLEANUP_INTERVAL_MS : Z := 60 * 1000.

Record CleanupReport := mkReport { cleaned : nat; errors : nat }.

(** The names a listing of the directory returns: those of its entries,
    and the stale names, under which there is nothing to read. *)
Definition vanished (w : World) : list string := elements (stale w ∖ dom (dir w)).

Definition listing (w : World) : list string := (map_to_list (dir w)).*1 ++ vanished w.

(** [fs.readdir(uploadsDir)] *)
Definition readdir : M (list string) :=
  fun w => if dirExists w
           then (Ok (listing w), w)
           else (Throw (fsError ENOENT "scandir" "uploads"), w).

(** The body of the [for (const file of files)] loop of
    cleanupExpiredFiles, on the counters [cleaned] and [errors]. *)
Definition cleanupFile (now : Z) (file : string) (acc : CleanupReport) : M CleanupReport :=
  tryCatch
    (let! stats := stat file in
     if Stats.isDirectory stats then ret acc
     else
       let fileAge := now - Stats.mtimeMs stats in
       if fileAge >? FILE_EXPIRY_MS then
         let! deleted := safeUnlink file 3 100 in
         if deleted
         then ret (mkReport (S (cleaned acc)) (errors acc))
         else ret (mkReport (cleaned acc) (S (errors acc)))
       else ret acc)
    (fun err => ret (mkReport (cleaned acc) (S (errors acc)))).

Fixpoint cleanupLoop (now : Z) (files : list string) (acc : CleanupReport) : M CleanupReport :=
  match files with
  | [] => ret acc
  | file :: rest => let! acc' := cleanupFile now file acc in cleanupLoop now rest acc'
  end.

Definition cleanupExpiredFiles : M CleanupReport :=
  tryCatch
    (fun w =>
       if dirExists w then
         (let! files := readdir in
          let! w0 := get in
          let now := clock w0 in
          cleanupLoop now files (mkReport 0 0)) w
       else (Ok (mkReport 0 0), w))
    (fun err => ret (mkReport 0 1)).

(** Whether one sweep at time [now] removes a regular file with the
    given [fs.stat] and pending faults: it is older than the expiry time
    and [fs.unlink] goes through within the three attempts of the
    deleter. *)
Definition expired (now : Z) (st : Stats.t) : bool :=
  FILE_EXPIRY_MS <? now - Stats.mtimeMs st.


(** clearAllUploads: the same sweep without the age test; its report
    is [{ cleared, errors }]. *)
Module Clear.
Record Report := mk { cleared : nat; errors : nat }.
End Clear.

Definition clearFile (file : string) (acc : Clear.Report) : M Clear.Report :=
  tryCatch
    (let! stats := stat file in
     if Stats.isDirectory stats then ret acc
     else
       let! deleted := safeUnlink file 3 100 in
       if deleted
       then ret (Clear.mk (S (Clear.cleared acc)) (Clear.errors acc))
       else ret (Clear.mk (Clear.cleared acc) (S (Clear.errors acc))))
    (fun err => ret (Clear.mk (Clear.cleared acc) (S (Clear.errors acc)))).

Fixpoint clearLoop (files : list string) (acc : Clear.Report) : M Clear.Report :=
  match files with
  | [] => ret acc
  | file :: rest => let! acc' := clearFile file acc in clearLoop rest acc'
  end.

Definition clearAllUploads : M Clear.Report :=
  tryCatch
    (fun w =>
       if dirExists w then (let! files := readdir in clearLoop files (Clear.mk 0 0)) w
       else (Ok (Clear.mk 0 0), w))
    (fun err => ret (Clear.mk 0 1)).

(* ===================================================================== *)
(** * Archive assembler: createArchive *)
(* ===================================================================== *)

Section Archiver.

(** utils/security.js is not among the sources: its two checks are
    parameters of the assembler. *)
Variable isPathTraversalSafe : string -> bool.
Variable isWithinDirectory : string -> string -> bool.
(** [getUploadsDir()] and [path.join]. *)
Variable UPLOAD_DIR : string.
Variable join : string -> string -> string.
(** [accessible p]: [fs.access] resolves on the full path [p].  The
    assembler is handed names chosen by the client, which need not denote
    entries of the uploads directory; and no file is created or deleted
    while it runs, its own archive apart. *)
Variable accessible : string -> bool.
(** [Math.floor(Math.random() * 1e9).toString(36)] *)
Variable random : string.

Definition archiveName (w : World) : string :=
  "archive-" +:+ pretty (clock w) +:+ "-" +:+ random +:+ ".zip".

Definition mkdirUploads : M unit :=
  modify (fun w => mkWorld true (dir w) (faults w) (clock w) (probes w) (trace w) (stale w)).

Definition accessPath (filePath : string) : M unit :=
  fun w => if accessible filePath then (Ok tt, w)
           else (Throw (fsError ENOENT "access" filePath), w).

(** [archive.file(filePath, { name })] *)
Definition archiveFile (filePath name : string) : M unit :=
  modify (emit (EvArchiveFile filePath name)).

(** The body of the [for (const filename of files)] loop, on the counter
    [addedFiles]. *)
Definition addToArchive (filename : string) (addedFiles : nat) : M nat :=
  if negb (isPathTraversalSafe filename) then ret addedFiles
  else
    let filePath := join UPLOAD_DIR filename in
    if negb (isWithinDirectory filePath UPLOAD_DIR) then ret addedFiles
    else
      tryCatch
        (accessPath filePath ;;;
         archiveFile filePath filename ;;;
         ret (S addedFiles))
        (fun err => ret addedFiles).

Fixpoint addAll (files : list string) (addedFiles : nat) : M nat :=
  match files with
  | [] => ret addedFiles
  | filename :: rest => let! n := addToArchive filename addedFiles in addAll rest n
  end.

(** The promise of createArchive: [Ok archivePath] when it resolves,
    [Throw] when it rejects.  The write stream creates the (still empty)
    archive file; the bytes the archiver then streams into it are not
    modelled. *)
Definition createArchive (files : list string) : M string :=
  let! w := get in
  let archivePath := join UPLOAD_DIR (archiveName w) in
  mkdirUploads ;;;
  writeFile (archiveName w) 0 ;;;
  let! addedFiles := addAll files 0 in
  if (addedFiles =? 0)%nat
  then throw (plainError "No valid files to archive")
  else modify (emit EvFinalize) ;;; ret archivePath.

(** The names that pass the three tests of the loop, and the archive
    entry each of them gives. *)
Definition archivable (filename : string) : bool :=
  (isPathTraversalSafe filename
   && isWithinDirectory (join UPLOAD_DIR filename) UPLOAD_DIR
   && accessible (join UPLOAD_DIR filename))%bool.

Definition archiveEntry (filename : string) : Event :=
  EvArchiveFile (join UPLOAD_DIR filename) filename.

End Archiver.

(* ===================================================================== *)
(** * The codecs, as the services drive them *)
(* ===================================================================== *)

(** A fluent-ffmpeg command is the list of builder calls made on it. *)
Inductive FfmpegCall :=
| OutputOptions (args : list string)
| NoAudio.

(** How an ffmpeg run ends: the ['end'] event with the output written, or
    the ['error'] event with whatever part of the output was written. *)
Inductive FfmpegRun :=
| Encoded (bytes : Z)
| Failed (msg : string) (partial : option Z).

(** A sharp pipeline: the source, the density it is read at, the resize
    step and the output encoder. *)
Inductive Fit := FitCover | FitInside.

Inductive ResizeStep :=
| NoResize
| ResizeTo (width height : option Z) (fit : Fit)
  (** [metadata()] is read and both dimensions are scaled by
      [resize / 100] and rounded *)
| ResizeScaled (percent : Z).

Inductive Encoder :=
| Webp (quality : Z)
| Png (compressionLevel quality : Z)
| Avif (quality : Z)
| Jpeg (quality : Z)
| FromExtension.

Record SharpJob := mkJob {
  source : string;
  density : option Z;
  resizing : ResizeStep;
  encoder : Encoder
}.

Record SvgoConfig := mkSvgo {
  floatPrecision : Z;
  overrideRemoveViewBox : bool;
  overrideCleanupIds : bool
}.

(** What the outside answers.  Each codec either fails with a message or
    produces an output of so many bytes; [probe k] is the answer of the
    [k]-th [convert -version] probe. *)
Record Env := mkEnv {
  sharp : SharpJob -> string -> string + Z;
  svgo : string -> SvgoConfig -> string + Z;
  convert : string -> string + Z;
  probe : nat -> bool;
  ffmpeg : string -> list FfmpegCall -> string -> FfmpegRun
}.

(** [await codec(...)] writing [dest]: the output comes to exist, or the
    codec's error is thrown. *)
Definition produce (answer : string + Z) (dest : string) : M unit :=
  match answer with
  | inr bytes => writeFile dest bytes
  | inl msg => throw (plainError msg)
  end.

(* ===================================================================== *)
(** * Video: processVideo *)
(* ===================================================================== *)

Module Video.

Record Options := mkOptions {
  format : string;
  resize : Z;
  bitrate : string;
  preset : string;
  audio : bool;
  resizeMode : string;
  width : option Z;
  height : option Z;
  crop : string
}.

(** The defaults of the destructuring of [options]. *)
Definition defaults : Options :=
  mkOptions "mp4" 100 "2M" "web" true "percent" None None "none".

Record Result := mkResult {
  name : string;
  originalSize : Z;
  filename : string;
  processedSize : Z;
  savings : string;
  status : string
}.

(** [presetMap[preset] || 'medium'] *)
Definition presetOf (preset : string) : string :=
  if String.eqb preset "web" then "medium"
  else if String.eqb preset "quality" then "slow"
  else if String.eqb preset "fast" then "veryfast"
  else "medium".

(** The CRF chosen from the bitrate hint. *)
Definition crfOfNum (bitrateNum : option Z) : Z :=
  if Js.geNum bitrateNum 5 then 18
  else if Js.geNum bitrateNum 3 then 20
  else if Js.geNum bitrateNum 2 then 23
  else if Js.geNum bitrateNum 1 then 28
  else 32.

Definition crfOf (bitrate : string) : Z := crfOfNum (Js.parseInt bitrate).

Definition isX264 (format : string) : bool :=
  (String.eqb format "mp4" || String.eqb format "mov" || String.eqb format "mkv")%bool.

Definition gifScale (o : Options) : string :=
  if (String.eqb (resizeMode o) "absolute" && Js.truthy (width o))%bool
  then Js.numToString (default 0 (width o)) +:+ ":-1"
  else if negb (resize o =? 100)
  then "iw*" +:+ Js.scaleToString (resize o) +:+ ":-1"
  else "480:-1".

Definition scaleFilter (o : Options) : string :=
  let w := Js.numToString (default 0 (width o)) in
  let h := Js.numToString (default 0 (height o)) in
  if (Js.truthy (width o) && Js.truthy (height o))%bool then
    if String.eqb (crop o) "cover"
    then "scale=" +:+ w +:+ ":" +:+ h +:+ ":force_original_aspect_ratio=increase,crop="
         +:+ w +:+ ":" +:+ h
    else "scale=" +:+ w +:+ ":" +:+ h +:+ ":force_original_aspect_ratio=decrease"
  else if Js.truthy (width o) then "scale=" +:+ w +:+ ":-2"
  else "scale=-2:" +:+ h.

(** The calls made on [ffmpeg(inputPath)] before [.output(...)]. *)
Definition buildCommand (o : Options) : list FfmpegCall :=
  (if String.eqb (format o) "gif" then
     [ OutputOptions
         [ "-vf";
           "fps=10,scale=" +:+ gifScale o
           +:+ ":flags=lanczos,split[s0][s1];[s0]palettegen[p];[s1][p]paletteuse" ];
       NoAudio ]
   else
     (if isX264 (format o) then [OutputOptions ["-c:v"; "libx264"]]
      else if String.eqb (format o) "webm" then [OutputOptions ["-c:v"; "libvpx-vp9"]]
      else [])
     ++ (if isX264 (format o)
         then [ OutputOptions ["-preset"; presetOf (preset o)];
                OutputOptions ["-crf"; Js.numToString (crfOf (bitrate o))] ]
         else [])
     ++ (if (String.eqb (format o) "mp4" || String.eqb (format o) "mov")%bool
         then [OutputOptions ["-movflags"; "+faststart"]]
         else [])
     ++ (if (String.eqb (resizeMode o) "absolute"
             && (Js.truthy (width o) || Js.truthy (height o)))%bool
         then [OutputOptions ["-vf"; scaleFilter o]]
         else if negb (resize o =? 100)
         then [OutputOptions
                 ["-vf"; "scale=iw*" +:+ Js.scaleToString (resize o)
                         +:+ ":ih*" +:+ Js.scaleToString (resize o)]]
         else [])
     ++ (if audio o
         then [OutputOptions ["-c:a"; "aac"; "-b:a"; "128k"]]
         else [NoAudio]))
  ++ [OutputOptions ["-y"]].

(** The run of the command: the output comes to exist when ffmpeg writes
    one, whole or in part. *)
Definition runFfmpeg (env : Env) (inputPath : string) (command : list FfmpegCall)
    (outputPath : string) : M FfmpegRun :=
  let run := ffmpeg env inputPath command outputPath in
  match run with
  | Encoded bytes => writeFile outputPath bytes ;;; ret run
  | Failed _ (Some bytes) => writeFile outputPath bytes ;;; ret run
  | Failed _ None => ret run
  end.

(** The promise of processVideo: [Ok] when it resolves, [Throw] when it
    rejects. *)
Definition processVideo (env : Env) (file : UploadedFile) (o : Options) : M Result :=
  let! st := stat (path file) in
  let originalSize := Stats.size st in
  let baseFilename := Js.basenameNoExt (originalname file) in
  let! outputFilename := getUniqueFilename baseFilename (format o) in
  let inputPath := path file in
  tryCatch
    (access inputPath ;;;
     let! stats := stat inputPath in
     if Stats.size stats =? 0 then throw (plainError "Input file is empty") else ret tt)
    (fun accessError =>
       throw (plainError ("Input file not accessible: " +:+ inputPath +:+ " - "
                          +:+ message accessError))) ;;;
  let! run := runFfmpeg env inputPath (buildCommand o) outputFilename in
  match run with
  | Encoded _ =>
      let! out := stat outputFilename in
      let processedSize := Stats.size out in
      let savings := Js.percentSaved originalSize processedSize in
      unlink (path file) ;;;
      ret (mkResult (originalname file) originalSize outputFilename processedSize savings
             "success")
  | Failed msg _ =>
      tryCatch (unlink outputFilename) (fun e => ret tt) ;;;
      throw (plainError msg)
  end.

End Video.

(* ===================================================================== *)
(** * Images: optimizeSVGs, processWithImageMagick and processImages *)
(* ===================================================================== *)

Module Image.

Record Options := mkOptions {
  quality : Z;
  resize : Z;
  formats : list string;
  useImageMagick : bool;
  resizeMode : string;
  width : option Z;
  height : option Z;
  crop : string;
  precision : Z;
  removeViewBox : bool;
  cleanupIDs : bool
}.

(** The defaults of the destructurings of [options]; [useImageMagick]
    defaults to [process.env.DISABLE_IMAGEMAGICK !== 'true']. *)
Definition defaults (imageMagickEnabled : bool) : Options :=
  mkOptions 80 100 ["webp"] imageMagickEnabled "percent" None None "none" 2 false true.

Record ProcessedFile := mkProcessed {
  format : string;
  filename : string;
  size : Z;
  savings : string
}.

(** An element of the result list: [{ name, originalSize, processedFiles,
    status: 'success', processor? }] or [{ name, status: 'error', error }]. *)
Inductive FileResult :=
| Success (name : string) (originalSize : Z) (processedFiles : list ProcessedFile)
    (processor : option string)
| Failure (name : string) (error : string).

Definition name (r : FileResult) : string :=
  match r with
  | Success n _ _ _ => n
  | Failure n _ => n
  end.

Definition status (r : FileResult) : string :=
  match r with
  | Success _ _ _ _ => "success"
  | Failure _ _ => "error"
  end.

Definition artifacts (r : FileResult) : list ProcessedFile :=
  match r with
  | Success _ _ pfs _ => pfs
  | Failure _ _ => []
  end.

(** ** Savings *)

(** The raster loop, optimizeSVGs and processWithImageMagick:
    [((originalSize - processedSize) / originalSize * 100).toFixed(2)] *)
Definition savingsOf (originalSize processedSize : Z) : string :=
  Js.percentSaved originalSize processedSize.

(** The SVG-to-raster loop:
    [originalSize > processedSize ? (...).toFixed(2) : '0.00'] *)
Definition savingsOfSvgRaster (originalSize processedSize : Z) : string :=
  if originalSize >? processedSize
  then Js.percentSaved originalSize processedSize
  else "0.00".

(** ** svgProcessor.js *)

Definition svgoConfig (o : Options) : SvgoConfig :=
  mkSvgo (precision o) (removeViewBox o) (cleanupIDs o).

(** The [try] block of one iteration of optimizeSVGs. *)
Definition optimizeOne (env : Env) (o : Options) (file : UploadedFile) : M FileResult :=
  let! st := stat (path file) in
  let originalSize := Stats.size st in
  access (path file) ;;;
  let! bytes :=
    match svgo env (path file) (svgoConfig o) with
    | inr bytes => ret bytes
    | inl msg => throw (plainError msg)
    end in
  let baseFilename := Js.basenameNoExt (originalname file) in
  let! outputFilename := getUniqueFilename baseFilename "svg" in
  writeFile outputFilename bytes ;;;
  let! out := stat outputFilename in
  let optimizedSize := Stats.size out in
  let savings := savingsOf originalSize optimizedSize in
  (if negb (String.eqb (path file) outputFilename)
   then processorUnlink (path file)
   else ret tt) ;;;
  ret (Success (originalname file) originalSize
         [mkProcessed "svg" outputFilename optimizedSize savings] None).

(** [try { ... results.push(success) } catch (error) { results.push(error) }] *)
Definition attempt (file : UploadedFile) (pipeline : M (list FileResult)) : M (list FileResult) :=
  tryCatch pipeline (fun error => ret [Failure (originalname file) (message error)]).

(** [for (const file of files) { try { ... } catch (error) { ... } }] *)
Definition perFile (pipeline : UploadedFile -> M (list FileResult)) (files : list UploadedFile)
  : M (list FileResult) :=
  forEach (fun file => attempt file (pipeline file)) files.

(** What the attempt on [file] pushes, given how its pipeline ended. *)
Definition entriesOf (file : UploadedFile) (ended : Outcome (list FileResult) * World)
  : list FileResult :=
  match fst ended with
  | Ok rs => rs
  | Throw error => [Failure (originalname file) (message error)]
  end.

(** A pipeline that pushes exactly one success entry, under the name of
    its file, whenever it does not throw. *)
Definition OnePerFile (P : UploadedFile -> M (list FileResult)) : Prop :=
  forall file w rs w', P file w = (Ok rs, w') ->
    exists r, rs = [r] /\ name r = originalname file /\ status r = "success".

Definition optimizeSVGs (env : Env) (files : list UploadedFile) (o : Options)
  : M (list FileResult) :=
  perFile (fun file => let! r := optimizeOne env o file in ret [r]) files.

(** ** imageMagickProcessor.js *)

Definition isImageMagickAvailable (env : Env) : M bool :=
  fun w => let answer := probe env (probes w) in
           (Ok answer, emit (EvProbe answer) (countProbe w)).

Definition IMAGEMAGICK_PREFERRED_FORMATS : list string :=
  [".tiff"; ".tif"; ".psd"; ".eps"; ".ai"; ".pdf"; ".heic"; ".heif"].

Definition shouldUseImageMagick (filename : string) : bool :=
  let ext := Js.toLowerCase (Js.extname filename) in
  Js.includes IMAGEMAGICK_PREFERRED_FORMATS ext.

Definition dquote : string := String (ascii_of_nat 34) EmptyString.

Definition convertCommand (o : Options) (source outputPath : string) : string :=
  "convert " +:+ dquote +:+ source +:+ dquote
  +:+ (if negb (resize o =? 100) then " -resize " +:+ Js.numToString (resize o) +:+ "%" else "")
  +:+ " -quality " +:+ Js.numToString (quality o)
  +:+ " " +:+ dquote +:+ outputPath +:+ dquote.

Definition magickFormat (env : Env) (o : Options) (file : UploadedFile) (originalSize : Z)
    (format : string) : M (list ProcessedFile) :=
  let baseFilename := Js.basenameNoExt (originalname file) in
  let! outputFilename := getUniqueFilename baseFilename format in
  produce (convert env (convertCommand o (path file) outputFilename)) outputFilename ;;;
  let! out := stat outputFilename in
  let processedSize := Stats.size out in
  let savings := savingsOf originalSize processedSize in
  ret [mkProcessed format outputFilename processedSize savings].

Definition magickOne (env : Env) (o : Options) (file : UploadedFile) : M (list FileResult) :=
  let! st := stat (path file) in
  let originalSize := Stats.size st in
  let! processedFiles := forEach (magickFormat env o file originalSize) (formats o) in
  processorUnlink (path file) ;;;
  ret [Success (originalname file) originalSize processedFiles (Some "ImageMagick")].

Definition processWithImageMagick (env : Env) (files : list UploadedFile) (o : Options)
  : M (list FileResult) :=
  let! available := isImageMagickAvailable env in
  if negb available
  then throw (plainError "ImageMagick is not installed on this system")
  else perFile (magickOne env o) files.

(** ** imageProcessor.js *)

Definition RASTER_FORMATS : list string := ["webp"; "avif"; "jpg"; "jpeg"; "png"].

Definition isSvg (f : UploadedFile) : bool :=
  String.eqb (Js.toLowerCase (Js.extname (originalname f))) ".svg".

(** The resize applied to the sharp pipeline, for either loop. *)
Definition resizeStep (o : Options) : ResizeStep :=
  if (String.eqb (resizeMode o) "absolute" && (Js.truthy (width o) || Js.truthy (height o)))%bool
  then ResizeTo (if Js.truthy (width o) then width o else None)
                (if Js.truthy (height o) then height o else None)
                (if String.eqb (crop o) "cover" then FitCover else FitInside)
  else if negb (resize o =? 100) then ResizeScaled (resize o)
  else NoResize.

(** The [switch (format)] of the SVG loop has no default. *)
Definition svgEncoder (format : string) (q : Z) : Encoder :=
  if String.eqb format "webp" then Webp q
  else if String.eqb format "png" then Png 9 q
  else if String.eqb format "avif" then Avif q
  else if (String.eqb format "jpeg" || String.eqb format "jpg")%bool then Jpeg q
  else FromExtension.

(** The [switch (format)] of the raster loop defaults to WebP. *)
Definition rasterEncoder (format : string) (q : Z) : Encoder :=
  if String.eqb format "webp" then Webp q
  else if String.eqb format "png" then Png 9 q
  else if String.eqb format "avif" then Avif q
  else if (String.eqb format "jpeg" || String.eqb format "jpg")%bool then Jpeg q
  else Webp q.

(** One raster format of one SVG file. *)
Definition svgFormat (env : Env) (o : Options) (file : UploadedFile) (originalSize : Z)
    (baseFilename format : string) : M (list ProcessedFile) :=
  let! outputFilename := getUniqueFilename baseFilename format in
  let job := mkJob (path file) (Some 300) (resizeStep o) (svgEncoder format (quality o)) in
  produce (sharp env job outputFilename) outputFilename ;;;
  let! out := stat outputFilename in
  let processedSize := Stats.size out in
  let savings := savingsOfSvgRaster originalSize processedSize in
  ret [mkProcessed format outputFilename processedSize savings].

(** The [try] block of the SVG-to-raster loop. *)
Definition svgToRaster (env : Env) (o : Options) (hasSvgFormat : bool) (file : UploadedFile)
  : M (list FileResult) :=
  let! st := stat (path file) in
  let originalSize := Stats.size st in
  let rasterFormats := List.filter (Js.includes RASTER_FORMATS) (formats o) in
  let baseFilename := Js.basenameNoExt (originalname file) in
  let! processedFiles := forEach (svgFormat env o file originalSize baseFilename) rasterFormats in
  (if negb hasSvgFormat then processorUnlink (path file) else ret tt) ;;;
  if (0 <? length processedFiles)%nat
  then ret [Success (originalname file) originalSize processedFiles None]
  else ret [].

(** One format of one raster file. *)
Definition rasterFormat (env : Env) (o : Options) (file : UploadedFile) (originalSize : Z)
    (baseFilename format : string) : M (list ProcessedFile) :=
  let! outputFilename := getUniqueFilename baseFilename format in
  let job := mkJob (path file) None (resizeStep o) (rasterEncoder format (quality o)) in
  produce (sharp env job outputFilename) outputFilename ;;;
  let! out := stat outputFilename in
  let processedSize := Stats.size out in
  let savings := savingsOf originalSize processedSize in
  ret [mkProcessed format outputFilename processedSize savings].

(** The [try] block of the raster loop. *)
Definition rasterOne (env : Env) (o : Options) (file : UploadedFile) : M (list FileResult) :=
  let! st := stat (path file) in
  let originalSize := Stats.size st in
  let rasterFormats := List.filter (fun f => negb (String.eqb f "svg")) (formats o) in
  let baseFilename := Js.basenameNoExt (originalname file) in
  let! processedFiles := forEach (rasterFormat env o file originalSize baseFilename) rasterFormats in
  processorUnlink (path file) ;;;
  ret [Success (originalname file) originalSize processedFiles None].

(** The three lists the batch is split into. *)
Definition svgFilesOf (files : list UploadedFile) : list UploadedFile :=
  List.filter isSvg files.

Definition imageMagickFilesOf (o : Options) (files : list UploadedFile) : list UploadedFile :=
  if useImageMagick o
  then List.filter (fun f => shouldUseImageMagick (originalname f)) files
  else [].

Definition rasterFilesOf (o : Options) (files : list UploadedFile) : list UploadedFile :=
  List.filter
    (fun f => (negb (isSvg f)
               && (if useImageMagick o then negb (shouldUseImageMagick (originalname f))
                   else true))%bool)
    files.

Definition hasRasterFormats (o : Options) : bool :=
  existsb (Js.includes RASTER_FORMATS) (formats o).

Definition hasSvgFormat (o : Options) : bool := Js.includes (formats o) "svg".

(** The [if (svgFiles.length > 0)] block. *)
Definition processSvgFiles (env : Env) (o : Options) (svgFiles : list UploadedFile)
  : M (list FileResult) :=
  if (0 <? length svgFiles)%nat then
    let! converted :=
      if hasRasterFormats o
      then perFile (svgToRaster env o (hasSvgFormat o)) svgFiles
      else ret [] in
    let! optimized :=
      if hasSvgFormat o then optimizeSVGs env svgFiles o else ret [] in
    ret (converted ++ optimized)
  else ret [].

(** The [if (imageMagickFiles.length > 0)] block: the results it pushes
    and [rasterFiles] as it leaves it. *)
Definition processImageMagickFiles (env : Env) (o : Options)
    (imageMagickFiles rasterFiles : list UploadedFile)
  : M (list FileResult * list UploadedFile) :=
  if (0 <? length imageMagickFiles)%nat then
    let! isAvailable := isImageMagickAvailable env in
    if isAvailable then
      tryCatch
        (let! imageMagickResults := processWithImageMagick env imageMagickFiles o in
         ret (imageMagickResults, rasterFiles))
        (fun error => ret ([], rasterFiles ++ imageMagickFiles))
    else ret ([], rasterFiles ++ imageMagickFiles)
  else ret ([], rasterFiles).

Definition processRasterFiles (env : Env) (o : Options) (rasterFiles : list UploadedFile)
  : M (list FileResult) :=
  perFile (rasterOne env o) rasterFiles.

Definition processImages (env : Env) (files : list UploadedFile) (o : Options)
  : M (list FileResult) :=
  let svgFiles := svgFilesOf files in
  let imageMagickFiles := imageMagickFilesOf o files in
  let rasterFiles := rasterFilesOf o files in
  let! fromSvg := processSvgFiles env o svgFiles in
  let! magick := processImageMagickFiles env o imageMagickFiles rasterFiles in
  let! fromRaster := processRasterFiles env o (snd magick) in
  ret (fromSvg ++ fst magick ++ fromRaster).

(** The four per-file pipelines that processImages runs, each under its
    own [try]/[catch]. *)
Definition pipelines (env : Env) (o : Options)
  : list (UploadedFile -> M (list FileResult)) :=
  [ svgToRaster env o (hasSvgFormat o);
    (fun file => let! r := optimizeOne env o file in ret [r]);
    magickOne env o;
    rasterOne env o ].

End Image.

(* ===================================================================== *)
(** * A concrete setting, for the examples *)
(* ===================================================================== *)

(** Every codec succeeds, ImageMagick is installed. *)
Definition obligingEnv : Env :=
  mkEnv (fun _ _ => inr 40) (fun _ _ => inr 60) (fun _ => inr 50) (fun _ => true)
        (fun _ _ _ => Encoded 70).

Definition worldOf (entries : list (string * Stats.t)) (locked : list (string * list ErrCode))
    (now : Z) : World :=
  mkWorld true (list_to_map entries) (list_to_map locked) now 0 [] ∅.

(** Eleven minutes after [old.webp] and nine minutes after [fresh.webp]
    were written; in [busySweepWorld] a reader still holds [old.webp]
    open. *)
Definition sweepWorld : World :=
  worldOf [("old.webp", Stats.mk 10 0 false); ("fresh.webp", Stats.mk 20 120000 false)]
          [] 660000.

Definition busySweepWorld : World :=
  worldOf [("old.webp", Stats.mk 10 0 false)] [("old.webp", [EBUSY; EBUSY; EBUSY])] 660000.

(** Modelled from the spec: utils/security.js is not among the sources.
    A name is traversal-safe when it contains no [..] and no path
    separator, and a path lies within the uploads directory when it is
    the directory followed by a separator and then a plain name; used in
    the examples only. *)
Fixpoint containsDotDot (s : string) : bool :=
  match s with
  | String "."%char (String "."%char _) => true
  | String _ r => containsDotDot r
  | EmptyString => false
  end.

Fixpoint containsSlash (s : string) : bool :=
  match s with
  | String c r => (Ascii.eqb c "/"%char || Ascii.eqb c "092"%char || containsSlash r)%bool
  | EmptyString => false
  end.

Definition sampleIsPathTraversalSafe (filename : string) : bool :=
  negb (containsDotDot filename || containsSlash filename).

Definition sampleJoin (d name : string) : string := d +:+ "/" +:+ name.

Definition sampleIsWithinDirectory (p d : string) : bool :=
  (String.prefix (d +:+ "/") p
   && negb (containsSlash (substring (String.length d + 1) (String.length p) p)))%bool.

(** The uploads directory holds [a.webp] and nothing else. *)
Definition sampleAccessible (p : string) : bool := String.eqb p "/srv/uploads/a.webp".

(** The options of a video request with the [audio] flag replaced. *)
Definition withAudio (a : bool) (o : Video.Options) : Video.Options :=
  Video.mkOptions (Video.format o) (Video.resize o) (Video.bitrate o) (Video.preset o) a
    (Video.resizeMode o) (Video.width o) (Video.height o) (Video.crop o).

(** [mentionsAudio call]: the call sets up an audio stream ([-c:a],
    [-b:a]). *)
Definition mentionsAudio (call : FfmpegCall) : bool :=
  match call with
  | OutputOptions args => (Js.includes args "-c:a" || Js.includes args "-b:a")%bool
  | NoAudio => false
  end.

Definition isNoAudio (call : FfmpegCall) : bool :=
  match call with
  | NoAudio => true
  | OutputOptions _ => false
  end.

(** One SVG upload, asked for as WebP and as optimized SVG. *)
Definition svgBatch : list UploadedFile := [mkFile "logo.svg" "files-1-2.svg"].

Definition bothFormats : Image.Options :=
  Image.mkOptions 80 100 ["webp"; "svg"] true "percent" None None "none" 2 false true.

Definition svgWorld : World := worldOf [("files-1-2.svg", Stats.mk 100 0 false)] [] 1000.

(** The entries of a run that resolved. *)
Definition resultsOf (run : Outcome (list Image.FileResult) * World) : list Image.FileResult :=
  match fst run with
  | Ok rs => rs
  | Throw _ => []
  end.

(** Three raster uploads, the second of which sharp cannot read. *)
Definition pickyEnv : Env :=
  mkEnv (fun job _ => if String.eqb (source job) "files-2.png"
                      then inl "Input file contains unsupported image format"
                      else inr 40)
        (fun _ _ => inr 60) (fun _ => inr 50) (fun _ => true) (fun _ _ _ => Encoded 70).

Definition rasterBatch : list UploadedFile :=
  [mkFile "a.png" "files-1.png"; mkFile "b.png" "files-2.png"; mkFile "c.png" "files-3.png"].

Definition rasterWorld : World :=
  worldOf [("files-1.png", Stats.mk 100 0 false); ("files-2.png", Stats.mk 100 0 false);
           ("files-3.png", Stats.mk 100 0 false)] [] 1000.

(** A TIFF scan on a machine without ImageMagick. *)
Definition noMagickEnv : Env :=
  mkEnv (fun _ _ => inr 40) (fun _ _ => inr 60) (fun _ => inl "convert: not found")
        (fun _ => false) (fun _ _ _ => Encoded 70).

Definition scanBatch : list UploadedFile := [mkFile "scan.TIFF" "files-7.TIFF"].

Definition scanWorld : World := worldOf [("files-7.TIFF", Stats.mk 100 0 false)] [] 1000.

(** A PNG upload of 100 bytes whose WebP version comes out at 150
    bytes. *)
Definition growingEnv : Env :=
  mkEnv (fun _ _ => inr 150) (fun _ _ => inr 60) (fun _ => inr 50) (fun _ => true)
        (fun _ _ _ => Encoded 70).

Definition photoBatch : list UploadedFile := [mkFile "photo.png" "files-9.png"].

Definition photoWorld : World := worldOf [("files-9.png", Stats.mk 100 0 false)] [] 1000.

(* ===================================================================== *)
(** * Vocabulary for the further properties *)
(* ===================================================================== *)

(** The shape shared by the three per-format steps (svgFormat,
    rasterFormat, magickFormat): either the codec fails and the step
    throws its message, nothing written, or the step writes one file
    under the name the allocator gives for [base] and the format, and
    returns one artifact record with the size that file has on disk. *)
Definition FormatStep (base : string) (step : string -> M (list Image.ProcessedFile)) : Prop :=
  forall format w,
    (exists msg, step format w = (Throw (plainError msg), w))
    \/ (exists bytes savings,
          step format w
          = (Ok [Image.mkProcessed format (getUniqueFilenameIn w base format) bytes savings],
             snd (writeFile (getUniqueFilenameIn w base format) bytes w))).

Definition isWrite (e : Event) : bool :=
  match e with
  | EvWrite _ _ => true
  | _ => false
  end.

(** An artifact record that tells the truth about the directory: its
    file exists with the size reported. *)
Definition onDisk (w : World) (pf : Image.ProcessedFile) : Prop :=
  exists mtime,
    dir w !! Image.filename pf = Some (Stats.mk (Image.size pf) mtime false).

(** A JPEG upload asked for as WebP, AVIF and WebP again. *)
Definition threeFormats : Image.Options :=
  Image.mkOptions 80 100 ["webp"; "avif"; "webp"] true "percent" None None "none" 2 false true.

Definition jpegFile : UploadedFile := mkFile "cat.jpg" "files-4.jpg".

Definition jpegWorld : World :=
  worldOf [("files-4.jpg", Stats.mk 100 0 false); ("cat.webp", Stats.mk 7 0 false)] [] 1000.

(** sharp cannot write AVIF here. *)
Definition noAvifEnv : Env :=
  mkEnv (fun job _ => match encoder job with
                      | Avif _ => inl "avif: unsupported"
                      | _ => inr 40
                      end)
        (fun _ _ => inr 60) (fun _ => inr 50) (fun _ => true) (fun _ _ _ => Encoded 70).

(** [carries flag call]: the builder call passes [flag] to ffmpeg. *)
Definition carries (flag : string) (call : FfmpegCall) : bool :=
  match call with
  | OutputOptions args => Js.includes args flag
  | NoAudio => false
  end.

(** Whether the options ask for a change of the frame size. *)
Definition resizes (o : Video.Options) : bool :=
  ((String.eqb (Video.resizeMode o) "absolute"
    && (Js.truthy (Video.width o) || Js.truthy (Video.height o)))
   || negb (Video.resize o =? 100))%bool.

Definition withQuality (bitrate preset : string) (o : Video.Options) : Video.Options :=
  Video.mkOptions (Video.format o) (Video.resize o) bitrate preset (Video.audio o)
    (Video.resizeMode o) (Video.width o) (Video.height o) (Video.crop o).

(** A clip uploaded as [file-9.mov], and an ffmpeg that fails after
    having written part of the output. *)
Definition clip : UploadedFile := mkFile "holiday.mov" "file-9.mov".

Definition clipWorld : World :=
  worldOf [("file-9.mov", Stats.mk 900 0 false); ("holiday.mp4", Stats.mk 5 0 false)] [] 1000.

Definition lockedClipWorld : World :=
  worldOf [("file-9.mov", Stats.mk 900 0 false)] [("file-9.mov", [EBUSY])] 1000.

Definition failingEnv : Env :=
  mkEnv (fun _ _ => inr 40) (fun _ _ => inr 60) (fun _ => inr 50) (fun _ => true)
        (fun _ _ _ => Failed "ffmpeg exited with code 1" (Some 12)).

(** An SVG stored under the very name the client gave it. *)
Definition sameNameSvg : UploadedFile := mkFile "logo.svg" "logo.svg".

Definition sameNameWorld : World := worldOf [("logo.svg", Stats.mk 100 0 false)] [] 1000.

(** ** Counting what a sweep does *)

(** An entry of the directory that a sweep at time [now] hands to the
    deleter: a regular file past the expiry time. *)
Definition due (now : Z) (e : string * Stats.t) : bool :=
  (negb (Stats.isDirectory e.2) && expired now e.2)%bool.

(** An entry that is no longer there in [w']. *)
Definition gone (w' : World) (e : string * Stats.t) : bool :=
  bool_decide (dir w' !! e.1 = None).

(** A regular file. *)
Definition regular (e : string * Stats.t) : bool := negb (Stats.isDirectory e.2).

(** [fs.unlink] on the path goes through within three attempts. *)
Definition yields (queue : list ErrCode) : bool :=
  ((length queue <? 3)%nat && forallb busyCode queue)%bool.

(** The report of clearAllUploads with the counters of a sweep. *)
Definition asCleared (r : CleanupReport) : Clear.Report := Clear.mk (cleaned r) (errors r).

Definition mapOk {A B : Type} (f : A -> B) (x : Outcome A * World) : Outcome B * World :=
  match x with
  | (Ok a, w) => (Ok (f a), w)
  | (Throw e, w) => (Throw e, w)
  end.

(** A directory with a sub-directory, two regular files and a lock on
    one of them. *)
Definition mixedWorld : World :=
  worldOf [("old.webp", Stats.mk 10 0 false); ("fresh.webp", Stats.mk 20 990000 false);
           ("held.webp", Stats.mk 30 0 false); ("thumbs", Stats.mk 0 0 true)]
          [("held.webp", [EBUSY; EBUSY; EBUSY; EBUSY])] 1000000.

(** An entry that a sweep at time [now] removes from [w]. *)
Definition removable (now : Z) (w : World) (e : string * Stats.t) : bool :=
  (due now e && yields (pending w e.1))%bool.

(** [hasSep s]: the string holds a POSIX path separator. *)
Fixpoint hasSep (s : string) : bool :=
  match s with
  | String c r => (Ascii.eqb c "/"%char || hasSep r)%bool
  | EmptyString => false
  end.

(** [KeepsProbes m]: the computation does not probe ImageMagick. *)
Definition KeepsProbes {A : Type} (m : M A) : Prop :=
  forall w, probes (snd (m w)) = probes w.

(** An SVG asked for as WebP, BMP (which the SVG loop does not know) and
    optimized SVG. *)
Definition svgMixedFormats : Image.Options :=
  Image.mkOptions 80 100 ["webp"; "bmp"; "svg"] true "percent" None None "none" 2 false true.

(** The artifacts of all the entries of a result list. *)
Definition artifactsOf (rs : list Image.FileResult) : list Image.ProcessedFile :=
  flat_map Image.artifacts rs.

(** Two uploads that the clients both called [photo.png]. *)
Definition twinBatch : list UploadedFile :=
  [mkFile "photo.png" "files-1.png"; mkFile "photo.png" "files-2.png"].

Definition twinWorld : World :=
  worldOf [("files-1.png", Stats.mk 100 0 false); ("files-2.png", Stats.mk 200 0 false)] [] 1000.

(** [Spares paths m]: whatever the computation does, an entry of the
    directory whose path is not one of [paths] is still there afterwards,
    as it was. *)
Definition Spares {A : Type} (paths : list string) (m : M A) : Prop :=
  forall w q st, dir w !! q = Some st -> ~ In q paths -> dir (snd (m w)) !! q = Some st.

(** The same world, with a listing that holds stale names. *)
Definition withStale (names : list string) (w : World) : World :=
  mkWorld (dirExists w) (dir w) (faults w) (clock w) (probes w) (trace w) (list_to_set names).

(** ** The entries of a per-file loop *)

(** [EntryOf P file w r]: [r] is the entry that the [try]/[catch] around
    the pipeline [P] pushes for [file] when the pipeline is run in [w]:
    the one success entry of the pipeline when it does not throw, the
    error entry with the message thrown when it does. *)
Definition EntryOf (P : UploadedFile -> M (list Image.FileResult)) (file : UploadedFile)
    (w : World) (r : Image.FileResult) : Prop :=
  match P file w with
  | (Ok own, _) =>
      own = [r] /\ Image.name r = originalname file /\ Image.status r = "success"
  | (Throw e, _) => r = Image.Failure (originalname file) (message e)
  end.

(** [OneEach P fs w0 part]: the list [part] holds one entry for every
    file of [fs] and nothing else, the entry of a file being at the
    position of the file, and that entry is the one the file's own
    pipeline gives in the world the files before it left. *)
Definition OneEach (P : UploadedFile -> M (list Image.FileResult)) (fs : list UploadedFile)
    (w0 : World) (part : list Image.FileResult) : Prop :=
  forall before file after,
    fs = before ++ file :: after ->
    exists rs1 wf r rs2,
      Image.perFile P before w0 = (Ok rs1, wf)
      /\ length rs1 = length before
      /\ length rs2 = length after
      /\ part = rs1 ++ r :: rs2
      /\ EntryOf P file wf r.

(** A PSD drawing on a machine without ImageMagick, where sharp cannot
    read the format. *)
Definition psdEnv : Env :=
  mkEnv (fun _ _ => inl "Input file contains unsupported image format")
        (fun _ _ => inr 60) (fun _ => inl "convert: not found") (fun _ => false)
        (fun _ _ _ => Encoded 70).

Definition psdBatch : list UploadedFile := [mkFile "art.psd" "files-8.psd"].

Definition psdWorld : World := worldOf [("files-8.psd", Stats.mk 100 0 false)] [] 1000.

(** ** The bitrate a hint asks for *)

(** Not part of the code: the bitrate, in bits per second, that a hint
    written as a decimal number with an optional unit asks for, [k] for
    thousands and [M] for millions, as ffmpeg reads such a string.  This
    is the "requested bitrate" of the specification, which the code never
    computes. *)
Fixpoint leadingDigits (s : string) (acc : option Z) : option Z * string :=
  match s with
  | String c r =>
      match Js.digitVal 10 c with
      | Some d => leadingDigits r (Some (default 0 acc * 10 + d))
      | None => (acc, s)
      end
  | EmptyString => (acc, s)
  end.

Definition requestedBitrate (hint : string) : option Z :=
  match leadingDigits hint None with
  | (Some n, "") => Some n
  | (Some n, "k") => Some (n * 1000)
  | (Some n, "M") => Some (n * 1000000)
  | _ => None
  end.
(* ===================================================================== *)
(** * The primitives on sample inputs *)
(* ===================================================================== *)

Example extname_samples :
  map Js.extname ["a.svg"; ".svg"; "a.b.TIFF"; "x/y.z/w"; ".."; "a."; "dir/.hid.png"]
  = [".svg"; ""; ".TIFF"; ""; ""; "."; ".png"].
Proof. vm_compute. reflexivity. Qed.

Example basenameNoExt_samples :
  map Js.basenameNoExt ["a.svg"; ".svg"; "a.b.TIFF"; "x/y.z/w"; "logo"; "d/e.png/"]
  = ["a"; ".svg"; "a.b"; "w"; "logo"; "e"].
Proof. vm_compute. reflexivity. Qed.

Example parseInt_samples :
  map Js.parseInt ["2M"; "  -0x1fz"; "M"; "500k"; "0.5M"; "+7"]
  = [Some 2; Some (-31); None; Some 500; Some 0; Some 7].
Proof. vm_compute. reflexivity. Qed.

Example scaleToString_samples :
  map Js.scaleToString [50; 5; 75; 100; 150; 10; 33]
  = ["0.5"; "0.05"; "0.75"; "1"; "1.5"; "0.1"; "0.33"].
Proof. vm_compute. reflexivity. Qed.

Example percentSaved_samples :
  map (fun p => Js.percentSaved (fst p) (snd p))
      [(1000, 333); (3, 1); (7, 7); (1000, 1001); (100000, 100001); (0, 1)]
  = ["66.70"; "66.67"; "0.00"; "-0.10"; "-0.00"; "-Infinity"].
Proof. vm_compute. reflexivity. Qed.

(* ===================================================================== *)
(** * Properties of the filename allocator *)
(* ===================================================================== *)

Section Allocator.

Lemma string_length_app (s t : string) :
  String.length (s +:+ t) = (String.length s + String.length t)%nat.
Proof. induction s as [|c s IH]; simpl; [reflexivity | now rewrite IH]. Qed.

Lemma string_app_inv_tail (s1 s2 t : string) : s1 +:+ t = s2 +:+ t -> s1 = s2.
Proof.
  revert s2. induction s1 as [|c s1 IH]; intros [|d s2] H; simpl in *.
  - reflexivity.
  - apply (f_equal String.length) in H.
    simpl in H. rewrite ?string_length_app in H. simpl in H. lia.
  - apply (f_equal String.length) in H.
    simpl in H. rewrite ?string_length_app in H. simpl in H. lia.
  - injection H as -> H. f_equal. now apply IH.
Qed.

(** Distinct counters give distinct names. *)
Lemma candidate_inj (b f : string) (j k : nat) :
  candidate b f j = candidate b f k -> j = k.
Proof.
  destruct j as [|j], k as [|k]; simpl; intros H.
  - reflexivity.
  - apply (inj (String.append b)) in H. discriminate H.
  - apply (inj (String.append b)) in H. discriminate H.
  - apply (inj (String.append b)) in H. injection H as H.
    change (pretty (S j) +:+ "." +:+ f = pretty (S k) +:+ "." +:+ f) in H.
    apply string_app_inv_tail in H. now apply (inj pretty) in H.
Qed.

Lemma candidate_succ (b f : string) (k : nat) :
  b +:+ "_" +:+ pretty (S k) +:+ "." +:+ f = candidate b f (S k).
Proof. reflexivity. Qed.

(** What the loop returns, started on the [k]-th name. *)
Lemma probeLoop_sound (w : World) (b f : string) (fuel k : nat) (n : string) :
  probeLoop fuel w b f (candidate b f k) (S k) = Some n ->
  exists j, (k <= j)%nat /\ n = candidate b f j /\ exists_ w n = false /\
            forall i, (k <= i < j)%nat -> exists_ w (candidate b f i) = true.
Proof.
  revert k. induction fuel as [|fuel IH]; intros k H; simpl in H; [discriminate|].
  destruct (exists_ w (candidate b f k)) eqn:E.
  - rewrite candidate_succ in H. destruct (IH _ H) as (j & Hj & -> & Hfree & Hbusy).
    exists j. repeat split; [lia | assumption |].
    intros i Hi. destruct (decide (i = k)) as [->|]; [assumption | apply Hbusy; lia].
  - injection H as <-. exists k. repeat split; [lia | assumption |]. intros i Hi. lia.
Qed.

(** The loop ends within [fuel] iterations when one of the next [fuel]
    names is free. *)
Lemma probeLoop_complete (w : World) (b f : string) (fuel k j : nat) :
  (k <= j < k + fuel)%nat -> exists_ w (candidate b f j) = false ->
  is_Some (probeLoop fuel w b f (candidate b f k) (S k)).
Proof.
  revert k. induction fuel as [|fuel IH]; intros k Hj Hfree; [lia|]. simpl.
  destruct (exists_ w (candidate b f k)) eqn:E; [|eauto].
  rewrite candidate_succ. apply IH; [|assumption].
  destruct (decide (j = k)) as [->|]; [congruence | lia].
Qed.

(** Pigeonhole: the first [|D| + 1] names cannot all be taken. *)
Lemma free_candidate (w : World) (b f : string) :
  exists j, (j < S (size (dir w)))%nat /\ exists_ w (candidate b f j) = false.
Proof.
  set (n := size (dir w)).
  set (names := candidate b f <$> seq 0 (S n)).
  destruct (decide (Forall (fun x => exists_ w x = true) names)) as [Hall|Hsome].
  - exfalso.
    assert (Hnd : NoDup names).
    { apply NoDup_fmap_2_strong; [|apply NoDup_seq].
      intros x y _ _. apply candidate_inj. }
    assert (Hsub : list_to_set names ⊆ dom (dir w)).
    { intros x Hx. apply elem_of_list_to_set in Hx.
      rewrite Forall_forall in Hall. specialize (Hall _ Hx).
      unfold exists_ in Hall. apply bool_decide_eq_true in Hall.
      now apply elem_of_dom. }
    apply subseteq_size in Hsub.
    rewrite size_list_to_set in Hsub by assumption.
    rewrite size_dom in Hsub. unfold names in Hsub.
    rewrite length_fmap, length_seq in Hsub. fold n in Hsub. lia.
  - apply not_Forall_Exists in Hsome; [|intros x; apply _]. apply Exists_exists in Hsome.
    destruct Hsome as (x & Hx & Hfree). unfold names in Hx.
    apply list_elem_of_fmap in Hx. destruct Hx as (j & -> & Hj).
    apply elem_of_seq in Hj. exists j. split; [lia|].
    simpl in Hfree. now destruct (exists_ w (candidate b f j)).
Qed.

(** The unbounded loop of the source terminates: [|D| + 1] iterations
    are enough, whatever the directory holds. *)
Lemma getUniqueFilename_terminates (w : World) (b f : string) :
  getUniqueFilenameFuel (S (size (dir w))) w b f = Some (getUniqueFilenameIn w b f).
Proof.
  unfold getUniqueFilenameIn.
  destruct (free_candidate w b f) as (j & Hj & Hfree).
  destruct (probeLoop_complete w b f (S (size (dir w))) 0 j) as [n Hn];
    [lia | assumption |].
  unfold getUniqueFilenameFuel. change (b +:+ "." +:+ f) with (candidate b f 0).
  now rewrite Hn.
Qed.

(** More fuel does not change the answer. *)
Lemma probeLoop_more_fuel (w : World) (b f : string) (fuel extra k : nat) (name n : string) :
  probeLoop fuel w b f name k = Some n ->
  probeLoop (fuel + extra) w b f name k = Some n.
Proof.
  revert name k. induction fuel as [|fuel IH]; intros name k H; simpl in *; [discriminate|].
  destruct (exists_ w name); [apply IH|]; assumption.
Qed.

Lemma getUniqueFilename_first_free (w : World) (b f : string) :
  exists k, getUniqueFilenameIn w b f = candidate b f k /\
            exists_ w (candidate b f k) = false /\
            forall i, (i < k)%nat -> exists_ w (candidate b f i) = true.
Proof.
  pose proof (getUniqueFilename_terminates w b f) as H.
  unfold getUniqueFilenameFuel in H. change (b +:+ "." +:+ f) with (candidate b f 0) in H.
  apply probeLoop_sound in H. destruct H as (j & _ & Hn & Hfree & Hbusy).
  exists j. rewrite Hn in Hfree. repeat split; [assumption | assumption |].
  intros i Hi. apply Hbusy. lia.
Qed.

Lemma getUniqueFilename_fresh (w : World) (b f : string) :
  dir w !! getUniqueFilenameIn w b f = None.
Proof.
  destruct (getUniqueFilename_first_free w b f) as (k & -> & Hfree & _).
  unfold exists_ in Hfree. apply bool_decide_eq_false in Hfree.
  now apply eq_None_not_Some.
Qed.

End Allocator.

(** C3.  Whatever the directory holds, getUniqueFilename returns (it needs
    at most one more probe than the directory has entries) the first of
    [B.E], [B_1.E], [B_2.E], ... that the directory does not hold, so the
    name it returns does not exist at call time; and once that name has
    been created, a second call returns a different name. *)
Theorem getUniqueFilename_allocates (w : World) (B E : string) :
  getUniqueFilename B E w = (Ok (getUniqueFilenameIn w B E), w)
  /\ getUniqueFilenameFuel (S (size (dir w))) w B E = Some (getUniqueFilenameIn w B E)
  /\ candidate B E 0 = B +:+ "." +:+ E
  /\ (forall k, candidate B E (S k) = B +:+ "_" +:+ pretty (S k) +:+ "." +:+ E)
  /\ (exists k, getUniqueFilenameIn w B E = candidate B E k
                /\ forall i, (i < k)%nat -> is_Some (dir w !! candidate B E i))
  /\ dir w !! getUniqueFilenameIn w B E = None
  /\ (forall bytes B' E',
        let first := getUniqueFilenameIn w B E in
        let w' := snd (writeFile first bytes w) in
        getUniqueFilenameIn w' B' E' <> first).
Proof.
  split; [reflexivity|].
  split; [apply getUniqueFilename_terminates|].
  split; [reflexivity|].
  split; [reflexivity|].
  split.
  { destruct (getUniqueFilename_first_free w B E) as (k & Hk & _ & Hbusy).
    exists k. split; [assumption|]. intros i Hi. specialize (Hbusy i Hi).
    unfold exists_ in Hbusy. now apply bool_decide_eq_true in Hbusy. }
  split; [apply getUniqueFilename_fresh|].
  intros bytes B' E' first w' Heq.
  pose proof (getUniqueFilename_fresh w' B' E') as Hfresh.
  rewrite Heq in Hfresh. unfold w', writeFile, modify in Hfresh. simpl in Hfresh.
  now rewrite lookup_insert_eq in Hfresh.
Qed.

Example getUniqueFilename_second_suffix :
  getUniqueFilenameIn
    (worldOf [("photo.webp", Stats.mk 1 0 false); ("photo_1.webp", Stats.mk 1 0 false)] [] 0)
    "photo" "webp" = "photo_2.webp".
Proof. vm_compute. reflexivity. Qed.

(* ===================================================================== *)
(** * Properties of the retryable deleter *)
(* ===================================================================== *)

Lemma unlinksIn_app (t1 t2 : list Event) : unlinksIn (t1 ++ t2) = unlinksIn t1 ++ unlinksIn t2.
Proof.
  induction t1 as [|e t1 IH]; [reflexivity|]. destruct e; simpl; now rewrite IH.
Qed.

Lemma sleepsIn_app (t1 t2 : list Event) : sleepsIn (t1 ++ t2) = sleepsIn t1 ++ sleepsIn t2.
Proof.
  induction t1 as [|e t1 IH]; [reflexivity|]. destruct e; simpl; now rewrite IH.
Qed.

Section Deleter.

Variable p : string.

Lemma isBusy_fsError (c : ErrCode) (syscall path : string) :
  isBusy (fsError c syscall path) = busyCode c.
Proof. now destruct c. Qed.

Lemma isENOENT_fsError (c : ErrCode) (syscall path : string) :
  isENOENT (fsError c syscall path) = bool_decide (c = ENOENT).
Proof. now destruct c. Qed.

Lemma unlink_fault (w : World) (c : ErrCode) (rest : list ErrCode) :
  pending w p = c :: rest ->
  unlink p w = (Throw (fsError c "unlink" p), failedUnlink p c w).
Proof. intros H. unfold unlink, failedUnlink. now rewrite H. Qed.

Lemma unlink_present (w : World) (st : Stats.t) :
  pending w p = [] -> dir w !! p = Some st ->
  unlink p w = (Ok tt, emit (EvUnlink p None) (setDir (delete p (dir w)) w)).
Proof. intros H1 H2. unfold unlink. now rewrite H1, H2. Qed.

Lemma unlink_absent (w : World) :
  pending w p = [] -> dir w !! p = None ->
  unlink p w = (Throw (fsError ENOENT "unlink" p), emit (EvUnlink p (Some ENOENT)) w).
Proof. intros H1 H2. unfold unlink. now rewrite H1, H2. Qed.

Lemma pending_failedUnlink (w : World) (c : ErrCode) :
  pending (failedUnlink p c w) p = tail (pending w p).
Proof. unfold pending at 1, failedUnlink. simpl. now rewrite lookup_insert_eq. Qed.

Lemma pending_slept (ms : Z) (w : World) (q : string) : pending (slept ms w) q = pending w q.
Proof. reflexivity. Qed.

Variables (retries : nat) (delay : Z).

Lemma attempt_busy (w : World) (i : nat) (c : ErrCode) (rest : list ErrCode) :
  pending w p = c :: rest -> busyCode c = true ->
  safeUnlinkAttempt p retries delay i w =
  if (i <? retries - 1)%nat
  then (Ok None, slept (delay * (Z.of_nat i + 1)) (failedUnlink p c w))
  else (Ok (Some false), failedUnlink p c w).
Proof.
  intros Hq Hc. unfold safeUnlinkAttempt, tryCatch, bind.
  rewrite (unlink_fault _ _ _ Hq), isBusy_fsError, Hc.
  now destruct (i <? retries - 1)%nat.
Qed.

Lemma attempt_other (w : World) (i : nat) (c : ErrCode) (rest : list ErrCode) :
  pending w p = c :: rest -> busyCode c = false ->
  safeUnlinkAttempt p retries delay i w =
  if bool_decide (c = ENOENT)
  then (Ok (Some true), failedUnlink p c w)
  else (Throw (fsError c "unlink" p), failedUnlink p c w).
Proof.
  intros Hq Hc. unfold safeUnlinkAttempt, tryCatch, bind.
  rewrite (unlink_fault _ _ _ Hq), isBusy_fsError, Hc, isENOENT_fsError.
  now destruct (bool_decide (c = ENOENT)).
Qed.

Lemma attempt_present (w : World) (i : nat) (st : Stats.t) :
  pending w p = [] -> dir w !! p = Some st ->
  safeUnlinkAttempt p retries delay i w =
  (Ok (Some true), emit (EvUnlink p None) (setDir (delete p (dir w)) w)).
Proof.
  intros H1 H2. unfold safeUnlinkAttempt, tryCatch, bind.
  now rewrite (unlink_present _ _ H1 H2).
Qed.

Lemma attempt_absent (w : World) (i : nat) :
  pending w p = [] -> dir w !! p = None ->
  safeUnlinkAttempt p retries delay i w =
  (Ok (Some true), emit (EvUnlink p (Some ENOENT)) w).
Proof.
  intros H1 H2. unfold safeUnlinkAttempt, tryCatch, bind.
  now rewrite (unlink_absent _ H1 H2).
Qed.

(** A run of busy attempts: the loop gives up when they use up the
    iterations left, and goes on after them otherwise. *)
Lemma safeUnlinkFrom_busy (cs rest : list ErrCode) :
  forall (n i : nat) (w : World),
    pending w p = cs ++ rest -> forallb busyCode cs = true ->
    (length cs <= n)%nat -> (i + n = retries)%nat ->
    safeUnlinkFrom n p retries delay i w =
    if (length cs =? n)%nat
    then (Ok false, afterBusy p retries delay i cs w)
    else safeUnlinkFrom (n - length cs) p retries delay (i + length cs)
           (afterBusy p retries delay i cs w).
Proof.
  induction cs as [|c cs IH]; intros n i w Hq Hb Hlen Hi; simpl.
  - destruct n; simpl; [reflexivity|]. now rewrite Nat.add_0_r.
  - simpl in Hb. apply andb_true_iff in Hb. destruct Hb as [Hc Hb].
    destruct n as [|n]; [simpl in Hlen; lia|]. simpl in Hlen.
    cbn [safeUnlinkFrom]. unfold bind at 1.
    rewrite (attempt_busy _ _ _ _ Hq Hc).
    destruct (i <? retries - 1)%nat eqn:E.
    + apply Nat.ltb_lt in E.
      rewrite (IH n (S i)); [| | assumption | lia | lia].
      * replace (S i + length cs)%nat with (i + S (length cs))%nat by lia. reflexivity.
      * rewrite pending_slept, pending_failedUnlink, Hq. reflexivity.
    + apply Nat.ltb_ge in E. assert (n = 0)%nat as -> by lia.
      assert (cs = []) as -> by (destruct cs; [reflexivity | simpl in Hlen; lia]).
      reflexivity.
Qed.

Lemma afterBusy_trace (cs : list ErrCode) :
  forall (i : nat) (w : World),
    trace (afterBusy p retries delay i cs w) = trace w ++ busyTrace p retries delay i cs.
Proof.
  induction cs as [|c cs IH]; intros i w; simpl; [now rewrite app_nil_r|].
  rewrite IH. destruct (i <? retries - 1)%nat; simpl; now rewrite <- ?app_assoc.
Qed.

Lemma afterBusy_dir (cs : list ErrCode) :
  forall (i : nat) (w : World), dir (afterBusy p retries delay i cs w) = dir w.
Proof.
  induction cs as [|c cs IH]; intros i w; simpl; [reflexivity|].
  rewrite IH. now destruct (i <? retries - 1)%nat.
Qed.

Lemma afterBusy_pending (cs rest : list ErrCode) :
  forall (i : nat) (w : World),
    pending w p = cs ++ rest -> pending (afterBusy p retries delay i cs w) p = rest.
Proof.
  induction cs as [|c cs IH]; intros i w Hq; simpl; [assumption|].
  apply IH. destruct (i <? retries - 1)%nat;
    rewrite ?pending_slept, pending_failedUnlink, Hq; reflexivity.
Qed.

(** The attempts and the waits of a run of busy attempts that starts the
    loop: one [fs.unlink] per fault, and a wait of [delay * k] after the
    [k]-th attempt, the last iteration apart. *)
Lemma busyTrace_unlinks (cs : list ErrCode) (i : nat) :
  unlinksIn (busyTrace p retries delay i cs) = map (fun c => (p, Some c)) cs.
Proof.
  revert i. induction cs as [|c cs IH]; intros i; [reflexivity|].
  cbn [busyTrace map unlinksIn]. f_equal.
  rewrite unlinksIn_app, IH. now destruct (i <? retries - 1)%nat.
Qed.

Lemma busyTrace_sleeps (cs : list ErrCode) (i : nat) :
  (i + length cs <= retries)%nat ->
  sleepsIn (busyTrace p retries delay i cs)
  = map (fun k => delay * Z.of_nat k)
        (seq (S i) (length cs - (if (i + length cs =? retries)%nat then 1 else 0))).
Proof.
  revert i. induction cs as [|c cs IH]; intros i Hle; [reflexivity|].
  cbn [busyTrace length sleepsIn]. rewrite sleepsIn_app.
  simpl in Hle. rewrite IH by lia.
  replace (S i + length cs)%nat with (i + S (length cs))%nat by lia.
  destruct (i <? retries - 1)%nat eqn:E.
  - apply Nat.ltb_lt in E. cbn [sleepsIn app].
    replace (Z.of_nat i + 1) with (Z.of_nat (S i)) by lia.
    destruct (i + S (length cs) =? retries)%nat eqn:E2.
    + apply Nat.eqb_eq in E2. destruct (length cs) as [|m] eqn:El; [lia|].
      replace (S (S m) - 1)%nat with (S (S m - 1))%nat by lia. reflexivity.
    + replace (S (length cs) - 0)%nat with (S (length cs - 0))%nat by lia. reflexivity.
  - apply Nat.ltb_ge in E. cbn [sleepsIn app].
    assert (length cs = 0)%nat as Hz by lia. rewrite Hz.
    assert ((i + 1 =? retries)%nat = true) as -> by (apply Nat.eqb_eq; lia).
    reflexivity.
Qed.

(** Whatever the file system answers: at most one [fs.unlink] per
    iteration, every wait is [delay * k] for an attempt number [k], false
    is returned only after all the iterations have been used, and only an
    error that is neither busy nor ENOENT is thrown. *)
Lemma safeUnlinkFrom_general (n : nat) :
  forall (i : nat) (w : World),
    (i + n = retries)%nat ->
    exists out w' evs,
      safeUnlinkFrom n p retries delay i w = (out, w')
      /\ trace w' = trace w ++ evs
      /\ (length (unlinksIn evs) <= n)%nat
      /\ Forall (fun ms => exists k, (i < k < retries)%nat /\ ms = delay * Z.of_nat k)
                (sleepsIn evs)
      /\ match out with
         | Ok true => True
         | Ok false => length (unlinksIn evs) = n
         | Throw e => isBusy e = false /\ isENOENT e = false
         end.
Proof.
  induction n as [|n IH]; intros i w Hi.
  - exists (Ok false), w, []. simpl. rewrite app_nil_r. repeat split; auto.
  - cbn [safeUnlinkFrom]. unfold bind.
    destruct (pending w p) as [|c rest] eqn:Hq.
    + destruct (dir w !! p) as [st|] eqn:Hd.
      * rewrite (attempt_present w i st Hq Hd).
        eexists _, _, [EvUnlink p None]. simpl. repeat split; auto. lia.
      * rewrite (attempt_absent w i Hq Hd).
        eexists _, _, [EvUnlink p (Some ENOENT)]. simpl. repeat split; auto. lia.
    + destruct (busyCode c) eqn:Hc.
      * rewrite (attempt_busy w i c rest Hq Hc).
        destruct (i <? retries - 1)%nat eqn:E.
        -- apply Nat.ltb_lt in E.
           destruct (IH (S i) (slept (delay * (Z.of_nat i + 1)) (failedUnlink p c w)))
             as (out & w' & evs & -> & Ht & Hlen & Hsl & Hout); [lia|].
           exists out, w', (EvUnlink p (Some c) :: EvSleep (delay * (Z.of_nat i + 1)) :: evs).
           split; [reflexivity|]. split.
           { rewrite Ht. simpl. rewrite <- !app_assoc. reflexivity. }
           split; [simpl; lia|]. split.
           { simpl. constructor.
             - exists (S i). split; [lia|]. f_equal. lia.
             - eapply Forall_impl; [exact Hsl|]. intros ms (k & Hk & ->). exists k. split; [lia|].
               reflexivity. }
           destruct out as [[|]|e]; simpl; auto.
        -- apply Nat.ltb_ge in E. assert (n = 0)%nat as -> by lia.
           eexists _, _, [EvUnlink p (Some c)]. simpl. repeat split; auto.
      * rewrite (attempt_other w i c rest Hq Hc).
        destruct (bool_decide (c = ENOENT)) eqn:Hno.
        -- eexists _, _, [EvUnlink p (Some c)]. simpl. repeat split; auto. lia.
        -- eexists _, _, [EvUnlink p (Some c)].
           split; [reflexivity|]. split; [reflexivity|]. split; [simpl; lia|].
           split; [constructor|]. cbv iota.
           rewrite isBusy_fsError, isENOENT_fsError, Hc, Hno. auto.
Qed.

End Deleter.

(** C4.  The retryable deleter of utils/fileCleanup.js.  On a path that
    does not exist it returns true after a single [fs.unlink], without
    waiting or retrying.  While [fs.unlink] fails with EPERM or EBUSY it
    tries again, at most [maxAttempts] times in all, waiting
    [baseDelayMs * k] after the [k]-th failed attempt; when the last
    attempt still fails it returns false and throws nothing; when an
    attempt goes through it returns true.  An error of any other class
    is thrown to the caller. *)
Theorem safeUnlink_contract (p : string) (maxAttempts : nat) (baseDelayMs : Z) (w : World) :
  (pending w p = [] -> dir w !! p = None -> (0 < maxAttempts)%nat ->
   safeUnlink p maxAttempts baseDelayMs w = (Ok true, emit (EvUnlink p (Some ENOENT)) w))
  /\ (forall cs rest,
        pending w p = cs ++ rest -> forallb busyCode cs = true -> length cs = maxAttempts ->
        exists w' evs,
          safeUnlink p maxAttempts baseDelayMs w = (Ok false, w')
          /\ trace w' = trace w ++ evs
          /\ unlinksIn evs = map (fun c => (p, Some c)) cs
          /\ sleepsIn evs = map (fun k => baseDelayMs * Z.of_nat k) (seq 1 (maxAttempts - 1))
          /\ dir w' = dir w)
  /\ (forall cs st,
        pending w p = cs -> forallb busyCode cs = true -> (length cs < maxAttempts)%nat ->
        dir w !! p = Some st ->
        exists w' evs,
          safeUnlink p maxAttempts baseDelayMs w = (Ok true, w')
          /\ trace w' = trace w ++ evs
          /\ unlinksIn evs = map (fun c => (p, Some c)) cs ++ [(p, None)]
          /\ sleepsIn evs = map (fun k => baseDelayMs * Z.of_nat k) (seq 1 (length cs))
          /\ dir w' = delete p (dir w))
  /\ (forall cs c rest,
        pending w p = cs ++ c :: rest -> forallb busyCode cs = true ->
        (length cs < maxAttempts)%nat -> busyCode c = false -> c <> ENOENT ->
        exists w', safeUnlink p maxAttempts baseDelayMs w = (Throw (fsError c "unlink" p), w'))
  /\ (exists out w' evs,
        safeUnlink p maxAttempts baseDelayMs w = (out, w')
        /\ trace w' = trace w ++ evs
        /\ (length (unlinksIn evs) <= maxAttempts)%nat
        /\ Forall (fun ms => exists k, (0 < k < maxAttempts)%nat
                                       /\ ms = baseDelayMs * Z.of_nat k) (sleepsIn evs)
        /\ match out with
           | Ok true => True
           | Ok false => length (unlinksIn evs) = maxAttempts
           | Throw e => isBusy e = false /\ isENOENT e = false
           end).
Proof.
  split; [|split; [|split; [|split]]].
  - intros Hq Hd Hpos. destruct maxAttempts as [|m]; [lia|].
    unfold safeUnlink. cbn [safeUnlinkFrom]. unfold bind.
    now rewrite (attempt_absent p (S m) baseDelayMs w 0 Hq Hd).
  - intros cs rest Hq Hb Hlen. unfold safeUnlink.
    rewrite (safeUnlinkFrom_busy p maxAttempts baseDelayMs cs rest maxAttempts 0 w Hq Hb)
      by lia.
    rewrite Hlen, Nat.eqb_refl.
    exists (afterBusy p maxAttempts baseDelayMs 0 cs w),
           (busyTrace p maxAttempts baseDelayMs 0 cs).
    split; [reflexivity|]. split; [apply afterBusy_trace|].
    split; [apply busyTrace_unlinks|]. split; [|apply afterBusy_dir].
    rewrite busyTrace_sleeps by lia. simpl. rewrite Hlen, Nat.eqb_refl. reflexivity.
  - intros cs st Hq Hb Hlen Hd. unfold safeUnlink.
    assert (Hq' : pending w p = cs ++ []) by now rewrite app_nil_r.
    rewrite (safeUnlinkFrom_busy p maxAttempts baseDelayMs cs [] maxAttempts 0 w Hq' Hb)
      by lia.
    destruct (length cs =? maxAttempts)%nat eqn:E; [apply Nat.eqb_eq in E; lia|].
    destruct (maxAttempts - length cs)%nat as [|m] eqn:Em; [lia|].
    cbn [safeUnlinkFrom]. unfold bind.
    set (wk := afterBusy p maxAttempts baseDelayMs 0 cs w).
    assert (Hqk : pending wk p = []) by now apply afterBusy_pending.
    assert (Hdk : dir wk !! p = Some st) by (unfold wk; now rewrite afterBusy_dir).
    rewrite (attempt_present p maxAttempts baseDelayMs wk _ st Hqk Hdk).
    exists (emit (EvUnlink p None) (setDir (delete p (dir wk)) wk)),
           (busyTrace p maxAttempts baseDelayMs 0 cs ++ [EvUnlink p None]).
    split; [reflexivity|]. split.
    { simpl. unfold wk. rewrite afterBusy_trace. now rewrite app_assoc. }
    split; [now rewrite unlinksIn_app, busyTrace_unlinks|]. split.
    { rewrite sleepsIn_app, busyTrace_sleeps by lia. simpl. rewrite E.
      now rewrite app_nil_r, Nat.sub_0_r. }
    simpl. unfold wk. now rewrite afterBusy_dir.
  - intros cs c rest Hq Hb Hlen Hc Hne. unfold safeUnlink.
    rewrite (safeUnlinkFrom_busy p maxAttempts baseDelayMs cs (c :: rest) maxAttempts 0 w Hq Hb)
      by lia.
    destruct (length cs =? maxAttempts)%nat eqn:E; [apply Nat.eqb_eq in E; lia|].
    destruct (maxAttempts - length cs)%nat as [|m] eqn:Em; [lia|].
    cbn [safeUnlinkFrom]. unfold bind.
    set (wk := afterBusy p maxAttempts baseDelayMs 0 cs w).
    assert (Hqk : pending wk p = c :: rest) by now apply afterBusy_pending.
    rewrite (attempt_other p maxAttempts baseDelayMs wk _ c rest Hqk Hc).
    rewrite bool_decide_eq_false_2 by assumption. eauto.
  - apply (safeUnlinkFrom_general p maxAttempts baseDelayMs maxAttempts 0 w). lia.
Qed.

(** A file held busy through three attempts: false, after waits of 100
    and 200 ms. *)
Lemma safeUnlink_contract_witness :
  exists w' evs,
    safeUnlink "a.webp" 3 100
      (worldOf [("a.webp", Stats.mk 10 0 false)] [("a.webp", [EBUSY; EPERM; EBUSY])] 0)
    = (Ok false, w')
    /\ trace w' = [] ++ evs
    /\ unlinksIn evs = [("a.webp", Some EBUSY); ("a.webp", Some EPERM); ("a.webp", Some EBUSY)]
    /\ sleepsIn evs = [100; 200]
    /\ dir w' = list_to_map [("a.webp", Stats.mk 10 0 false)].
Proof.
  destruct (safeUnlink_contract "a.webp" 3 100
              (worldOf [("a.webp", Stats.mk 10 0 false)] [("a.webp", [EBUSY; EPERM; EBUSY])] 0))
    as (_ & Hbusy & _).
  exact (Hbusy [EBUSY; EPERM; EBUSY] [] eq_refl eq_refl eq_refl).
Defined.

Example safeUnlink_absent :
  safeUnlink "gone.webp" 3 100 (worldOf [] [] 0)
  = (Ok true, emit (EvUnlink "gone.webp" (Some ENOENT)) (worldOf [] [] 0)).
Proof. vm_compute. reflexivity. Qed.

Example safeUnlink_other_error :
  fst (safeUnlink "a.webp" 3 100
         (worldOf [("a.webp", Stats.mk 10 0 false)] [("a.webp", [EBUSY; EACCES])] 0))
  = Throw (fsError EACCES "unlink" "a.webp").
Proof. vm_compute. reflexivity. Qed.

(* ===================================================================== *)
(** * Properties of the lifecycle scheduler *)
(* ===================================================================== *)

Section Frames.

Variable q : string.

Lemma unlinked_app (l1 l2 : list Event) :
  unlinked q (l1 ++ l2) = (unlinked q l1 || unlinked q l2)%bool.
Proof. apply existsb_app. Qed.

Lemma Untouched_refl (w : World) : Untouched q w w [].
Proof. unfold Untouched. now rewrite app_nil_r. Qed.

Lemma Untouched_trans (w1 w2 w3 : World) (e1 e2 : list Event) :
  Untouched q w1 w2 e1 -> Untouched q w2 w3 e2 -> Untouched q w1 w3 (e1 ++ e2).
Proof.
  intros (Ht1 & Hu1 & Hd1 & Hp1) (Ht2 & Hu2 & Hd2 & Hp2). unfold Untouched.
  rewrite Ht2, Ht1, unlinked_app, Hu1, Hu2, Hd2, Hd1, Hp2, Hp1, app_assoc. auto.
Qed.

Lemma Untouched_slept (ms : Z) (w : World) : Untouched q w (slept ms w) [EvSleep ms].
Proof. unfold Untouched. auto. Qed.

Lemma unlinkOf_other (p : string) (r : option ErrCode) :
  p <> q -> unlinked q [EvUnlink p r] = false.
Proof.
  intros Hne. unfold unlinked. simpl. rewrite orb_false_r. now apply String.eqb_neq.
Qed.

Lemma Untouched_unlink (p : string) (w : World) :
  p <> q -> exists evs, Untouched q w (snd (unlink p w)) evs.
Proof.
  intros Hne. unfold unlink.
  destruct (pending w p) as [|c rest] eqn:Hq.
  - destruct (dir w !! p) eqn:Hd; cbn [snd].
    + exists [EvUnlink p None]. unfold Untouched.
      rewrite unlinkOf_other by assumption. simpl.
      rewrite lookup_delete_ne by assumption. auto.
    + exists [EvUnlink p (Some ENOENT)]. unfold Untouched.
      rewrite unlinkOf_other by assumption. simpl. auto.
  - exists [EvUnlink p (Some c)]. unfold Untouched. cbn [snd].
    rewrite unlinkOf_other by assumption. unfold pending at 1. simpl.
    rewrite lookup_insert_ne by assumption. auto.
Qed.

Lemma Untouched_attempt (p : string) (retries : nat) (delay : Z) (i : nat) (w : World) :
  p <> q -> exists evs, Untouched q w (snd (safeUnlinkAttempt p retries delay i w)) evs.
Proof.
  intros Hne. destruct (Untouched_unlink p w Hne) as (evs & Hu).
  unfold safeUnlinkAttempt, tryCatch, bind.
  destruct (unlink p w) as [[[]|e] w1]; simpl in *; [eauto|].
  destruct (isBusy e).
  - destruct (i <? retries - 1)%nat; simpl; [|eauto].
    eexists. eapply Untouched_trans; [exact Hu | apply Untouched_slept].
  - destruct (isENOENT e); simpl; eauto.
Qed.

Lemma Untouched_safeUnlinkFrom (p : string) (retries : nat) (delay : Z) (n : nat) :
  p <> q ->
  forall (i : nat) (w : World),
    exists evs, Untouched q w (snd (safeUnlinkFrom n p retries delay i w)) evs.
Proof.
  intros Hne. induction n as [|n IH]; intros i w; simpl.
  - exists []. apply Untouched_refl.
  - unfold bind. destruct (Untouched_attempt p retries delay i w Hne) as (evs & Hu).
    destruct (safeUnlinkAttempt p retries delay i w) as [[[b|]|e] w1]; simpl in *; eauto.
    destruct (IH (S i) w1) as (evs2 & Hu2). eexists. eapply Untouched_trans; eassumption.
Qed.

End Frames.

Section Sweep.

Variable now : Z.

(** What the deleter leaves of the entry it is called on. *)
Lemma safeUnlinkFrom_self (p : string) (retries : nat) (delay : Z) (n : nat) :
  forall (i : nat) (w : World),
    (i + n = retries)%nat ->
    dir (snd (safeUnlinkFrom n p retries delay i w)) !! p =
    if ((length (pending w p) <? n)%nat && forallb busyCode (pending w p))%bool
    then None else dir w !! p.
Proof.
  induction n as [|n IH]; intros i w Hi.
  - reflexivity.
  - cbn [safeUnlinkFrom]. unfold bind.
    destruct (pending w p) as [|c rest] eqn:Hq.
    + simpl. destruct (dir w !! p) as [st|] eqn:Hd.
      * rewrite (attempt_present p retries delay w i st Hq Hd). simpl.
        apply lookup_delete_eq.
      * rewrite (attempt_absent p retries delay w i Hq Hd). simpl. assumption.
    + destruct (busyCode c) eqn:Hc.
      * rewrite (attempt_busy p retries delay w i c rest Hq Hc).
        destruct (i <? retries - 1)%nat eqn:E.
        -- rewrite IH by lia. rewrite pending_slept, pending_failedUnlink, Hq.
           simpl. rewrite Hc. reflexivity.
        -- apply Nat.ltb_ge in E. assert (n = 0)%nat as -> by lia. simpl.
           reflexivity.
      * rewrite (attempt_other p retries delay w i c rest Hq Hc).
        cbn [forallb]. rewrite Hc, andb_false_r.
        now destruct (bool_decide (c = ENOENT)).
Qed.







End Sweep.





Example cleanupExpiredFiles_scenario :
  fst (cleanupExpiredFiles sweepWorld) = Ok (mkReport 1 0)
  /\ (map_to_list (dir (snd (cleanupExpiredFiles sweepWorld)))).*1 = ["fresh.webp"].
Proof. vm_compute. split; reflexivity. Qed.


Example cleanupExpiredFiles_busy_report :
  fst (cleanupExpiredFiles busySweepWorld) = Ok (mkReport 0 1)
  /\ sleepsIn (trace (snd (cleanupExpiredFiles busySweepWorld))) = [100; 200].
Proof. vm_compute. split; reflexivity. Qed.

(* ===================================================================== *)
(** * Properties of the archive assembler *)
(* ===================================================================== *)

Section ArchiverFacts.

Variable isPathTraversalSafe : string -> bool.
Variable isWithinDirectory : string -> string -> bool.
Variable UPLOAD_DIR : string.
Variable join : string -> string -> string.
Variable accessible : string -> bool.
Variable random : string.

Let keep := archivable isPathTraversalSafe isWithinDirectory UPLOAD_DIR join accessible.
Let entry := archiveEntry UPLOAD_DIR join.

Lemma addToArchive_spec (f : string) (n : nat) (w : World) :
  addToArchive isPathTraversalSafe isWithinDirectory UPLOAD_DIR join accessible f n w
  = if keep f then (Ok (S n), emit (entry f) w) else (Ok n, w).
Proof.
  unfold addToArchive, keep, entry, archivable, archiveEntry.
  destruct (isPathTraversalSafe f); simpl; [|reflexivity].
  destruct (isWithinDirectory (join UPLOAD_DIR f) UPLOAD_DIR); simpl; [|reflexivity].
  unfold tryCatch, bind, accessPath.
  now destruct (accessible (join UPLOAD_DIR f)).
Qed.

(** The loop adds the names that pass the tests, in the order they were
    asked for, and skips the others without stopping. *)
Lemma addAll_spec (files : list string) :
  forall (n : nat) (w : World),
    exists w',
      addAll isPathTraversalSafe isWithinDirectory UPLOAD_DIR join accessible files n w
      = (Ok (n + length (List.filter keep files))%nat, w')
      /\ trace w' = trace w ++ map entry (List.filter keep files)
      /\ dir w' = dir w.
Proof.
  induction files as [|f files IH]; intros n w.
  - exists w. simpl. now rewrite Nat.add_0_r, app_nil_r.
  - cbn [addAll List.filter]. unfold bind at 1. rewrite addToArchive_spec.
    destruct (keep f); [|apply IH].
    destruct (IH (S n) (emit (entry f) w)) as (w' & -> & Ht & Hd).
    exists w'. split; [f_equal; f_equal; simpl; lia|]. split; [|assumption].
    rewrite Ht. simpl. now rewrite <- app_assoc.
Qed.

End ArchiverFacts.

(** C6.  createArchive skips, without stopping, every requested name
    that fails the path-traversal check, that resolves outside the
    uploads directory or that does not exist; the entries it adds to the
    archive are exactly the names that are left, in the order requested;
    and when none is left the promise rejects with 'No valid files to
    archive' and the archive is not finalized. *)
Theorem createArchive_contract
    (isPathTraversalSafe : string -> bool) (isWithinDirectory : string -> string -> bool)
    (UPLOAD_DIR : string) (join : string -> string -> string) (accessible : string -> bool)
    (random : string) (files : list string) (w : World) :
  let kept :=
    List.filter (archivable isPathTraversalSafe isWithinDirectory UPLOAD_DIR join accessible)
      files in
  let archive := archiveName random w in
  exists w',
    createArchive isPathTraversalSafe isWithinDirectory UPLOAD_DIR join accessible random
      files w
    = (match kept with
       | [] => Throw (plainError "No valid files to archive")
       | _ :: _ => Ok (join UPLOAD_DIR archive)
       end, w')
    /\ trace w' = trace w ++ [EvWrite archive 0]
                  ++ map (archiveEntry UPLOAD_DIR join) kept
                  ++ match kept with [] => [] | _ :: _ => [EvFinalize] end.
Proof.
  intros kept archive. unfold createArchive, bind, get, mkdirUploads, writeFile, modify.
  match goal with
  | |- context [addAll _ _ _ _ _ files 0%nat ?w0] =>
      destruct (addAll_spec isPathTraversalSafe isWithinDirectory UPLOAD_DIR join accessible
                  files 0 w0) as (w1 & -> & Ht & _)
  end.
  fold kept in Ht |- *. simpl in Ht. fold archive in Ht.
  destruct kept as [|k kept']; simpl.
  - exists w1. split; [reflexivity|]. rewrite Ht. now rewrite <- app_assoc.
  - eexists. split; [reflexivity|]. simpl. rewrite Ht.
    rewrite <- !app_assoc. simpl. reflexivity.
Qed.

(** The scenario of the specification: of [a.webp] and
    [../../etc/passwd], only the first is archived; names that are all
    unsafe or missing make the promise reject. *)
Example createArchive_scenario :
  let run files :=
    createArchive sampleIsPathTraversalSafe sampleIsWithinDirectory "/srv/uploads" sampleJoin
      sampleAccessible "k3x" files (worldOf [("a.webp", Stats.mk 10 0 false)] [] 5) in
  fst (run ["a.webp"; "../../etc/passwd"]) = Ok "/srv/uploads/archive-5-k3x.zip"
  /\ trace (snd (run ["a.webp"; "../../etc/passwd"]))
     = [EvWrite "archive-5-k3x.zip" 0; EvArchiveFile "/srv/uploads/a.webp" "a.webp";
        EvFinalize]
  /\ fst (run ["../../etc/passwd"; "b.webp"]) = Throw (plainError "No valid files to archive").
Proof. vm_compute. repeat split; reflexivity. Qed.

(* ===================================================================== *)
(** * Properties of the video command *)
(* ===================================================================== *)

(** C7.  For the format 'gif', whatever the [audio] flag of the options
    says, the command processVideo builds disables the audio track
    ([.noAudio()]) and sets up no audio stream, and the whole of
    processVideo does not depend on the flag. *)
Theorem gif_is_silent (env : Env) (file : UploadedFile) (o : Video.Options) (audio : bool) :
  Video.format o = "gif" ->
  existsb isNoAudio (Video.buildCommand (withAudio audio o)) = true
  /\ existsb mentionsAudio (Video.buildCommand (withAudio audio o)) = false
  /\ Video.buildCommand (withAudio audio o) = Video.buildCommand (withAudio (negb audio) o)
  /\ Video.processVideo env file (withAudio audio o)
     = Video.processVideo env file (withAudio (negb audio) o).
Proof.
  intros Hgif.
  assert (Hcmd : forall a, Video.buildCommand (withAudio a o)
                           = [ OutputOptions
                                 [ "-vf";
                                   "fps=10,scale=" +:+ Video.gifScale o +:+
                                   ":flags=lanczos,split[s0][s1];[s0]palettegen[p];[s1][p]paletteuse" ];
                               NoAudio; OutputOptions ["-y"] ]).
  { intros a. unfold Video.buildCommand. cbn [withAudio Video.format]. rewrite Hgif.
    reflexivity. }
  split; [now rewrite Hcmd|]. split; [now rewrite Hcmd|].
  split; [now rewrite !Hcmd|].
  unfold Video.processVideo. rewrite !Hcmd. reflexivity.
Qed.

(** A GIF asked for with [audio: true]. *)
Lemma gif_is_silent_witness :
  existsb isNoAudio
    (Video.buildCommand
       (withAudio true (Video.mkOptions "gif" 100 "2M" "web" true "percent" None None "none")))
  = true.
Proof.
  exact (proj1 (gif_is_silent obligingEnv (mkFile "clip.mp4" "file-1-2.mp4")
                  (Video.mkOptions "gif" 100 "2M" "web" true "percent" None None "none")
                  true eq_refl)).
Defined.

Example gif_command :
  Video.buildCommand (Video.mkOptions "gif" 50 "2M" "web" true "percent" None None "none")
  = [ OutputOptions
        [ "-vf";
          "fps=10,scale=iw*0.5:-1:flags=lanczos,split[s0][s1];[s0]palettegen[p];[s1][p]paletteuse" ];
      NoAudio; OutputOptions ["-y"] ].
Proof. vm_compute. reflexivity. Qed.

Example mp4_command :
  Video.buildCommand Video.defaults
  = [ OutputOptions ["-c:v"; "libx264"]; OutputOptions ["-preset"; "medium"];
      OutputOptions ["-crf"; "23"]; OutputOptions ["-movflags"; "+faststart"];
      OutputOptions ["-c:a"; "aac"; "-b:a"; "128k"]; OutputOptions ["-y"] ].
Proof. vm_compute. reflexivity. Qed.

Lemma crfOfNum_antitone (n1 n2 : Z) :
  n1 <= n2 -> Video.crfOfNum (Some n2) <= Video.crfOfNum (Some n1).
Proof.
  intros H. unfold Video.crfOfNum, Js.geNum.
  repeat match goal with
         | |- context [?a <=? ?b] => destruct (Z.leb_spec a b)
         end; lia.
Qed.

(** The CRF never increases with the number that [parseInt] reads at the
    head of the hint: of two hints, compared by that number, the higher
    one gets a CRF that is lower or equal.  (A hint without a leading
    number reads as NaN and gets the highest CRF, 32.) *)
Theorem crf_monotone (b1 b2 : string) (n1 n2 : Z) :
  Js.parseInt b1 = Some n1 -> Js.parseInt b2 = Some n2 -> n1 <= n2 ->
  Video.crfOf b2 <= Video.crfOf b1.
Proof.
  intros H1 H2 Hle. unfold Video.crfOf. rewrite H1, H2. now apply crfOfNum_antitone.
Qed.

Lemma crf_monotone_witness : Video.crfOf "5M" <= Video.crfOf "2M".
Proof. apply (crf_monotone "2M" "5M" 2 5); [reflexivity | reflexivity | lia]. Defined.

Example crf_table :
  map Video.crfOf ["0.5M"; "1M"; "2M"; "3M"; "4M"; "5M"; "8M"; "fast"]
  = [32; 28; 23; 20; 20; 18; 18; 32].
Proof. vm_compute. reflexivity. Qed.

(** C8 does not hold of the code.  The hint is read with [parseInt],
    which stops at the unit: '500k' reads as 500 and '2M' as 2.  So a
    hint of 500 kbit/s gets CRF 18, the best quality there is, and the
    higher hint of 2 Mbit/s gets CRF 23, the option [-crf] of the command
    being '18' and '23'; and '1000k' and '1M', which ask for the same
    bitrate, get CRF 18 and CRF 28.  The CRF is not monotonic in the
    bitrate asked for. *)
Theorem crf_ignores_bitrate_unit :
  requestedBitrate "500k" = Some 500000
  /\ requestedBitrate "2M" = Some 2000000
  /\ Js.parseInt "500k" = Some 500
  /\ Js.parseInt "2M" = Some 2
  /\ Video.crfOf "500k" = 18
  /\ Video.crfOf "2M" = 23
  /\ In (OutputOptions ["-crf"; "18"])
        (Video.buildCommand (withQuality "500k" "web" Video.defaults))
  /\ In (OutputOptions ["-crf"; "23"])
        (Video.buildCommand (withQuality "2M" "web" Video.defaults))
  /\ requestedBitrate "1000k" = requestedBitrate "1M"
  /\ Video.crfOf "1000k" = 18
  /\ Video.crfOf "1M" = 28
  /\ ~ (forall b1 b2 r1 r2,
          requestedBitrate b1 = Some r1 -> requestedBitrate b2 = Some r2 -> r1 <= r2 ->
          Video.crfOf b2 <= Video.crfOf b1).
Proof.
  repeat (split; [vm_compute; (reflexivity || tauto)|]).
  intros H. specialize (H "500k" "2M" 500000 2000000 eq_refl eq_refl ltac:(lia)).
  vm_compute in H. apply H. reflexivity.
Qed.

(* ===================================================================== *)
(** * Properties of the batch orchestrator *)
(* ===================================================================== *)

Section Orchestrator.

Import Image.

Variable env : Env.
Variable o : Options.

(** ** The per-file loops *)

Lemma attempt_spec (file : UploadedFile) (P : M (list FileResult)) (w : World) :
  attempt file P w = (Ok (entriesOf file (P w)), snd (P w)).
Proof. unfold attempt, tryCatch, entriesOf. now destruct (P w) as [[rs|e] w']. Qed.

Lemma perFile_cons (P : UploadedFile -> M (list FileResult)) (file : UploadedFile)
    (files : list UploadedFile) (w : World) :
  perFile P (file :: files) w =
  (let '(rest, w') := perFile P files (snd (P file w)) in
   match rest with
   | Ok rs => (Ok (entriesOf file (P file w) ++ rs), w')
   | Throw e => (Throw e, w')
   end).
Proof.
  unfold perFile. cbn [forEach]. unfold bind at 1. rewrite attempt_spec.
  unfold bind. now destruct (forEach _ files _) as [[rs|e] w'].
Qed.

(** A per-file loop never throws. *)
Lemma perFile_total (P : UploadedFile -> M (list FileResult)) (files : list UploadedFile) :
  forall w, exists rs w', perFile P files w = (Ok rs, w').
Proof.
  induction files as [|file files IH]; intros w; [now exists [], w|].
  rewrite perFile_cons. destruct (IH (snd (P file w))) as (rs & w' & ->). eauto.
Qed.

(** Isolation: whatever became of the files before it and whatever
    becomes of the files after it, a file gets the entries of its own
    pipeline, run in the world the files before it left. *)
Lemma perFile_split (P : UploadedFile -> M (list FileResult))
    (before : list UploadedFile) (file : UploadedFile) (after : list UploadedFile) :
  forall w, exists rs1 w1 rs2 w2,
    perFile P before w = (Ok rs1, w1)
    /\ perFile P after (snd (P file w1)) = (Ok rs2, w2)
    /\ perFile P (before ++ file :: after) w
       = (Ok (rs1 ++ entriesOf file (P file w1) ++ rs2), w2).
Proof.
  induction before as [|b before IH]; intros w.
  - destruct (perFile_total P after (snd (P file w))) as (rs2 & w2 & H2).
    exists [], w, rs2, w2. split; [reflexivity|]. split; [assumption|].
    cbn [app]. now rewrite perFile_cons, H2.
  - destruct (IH (snd (P b w))) as (rs1 & w1 & rs2 & w2 & H1 & H2 & H).
    exists (entriesOf b (P b w) ++ rs1), w1, rs2, w2.
    split; [now rewrite perFile_cons, H1|]. split; [assumption|].
    cbn [app]. rewrite perFile_cons, H. now rewrite <- app_assoc.
Qed.

Lemma entriesOf_one (P : UploadedFile -> M (list FileResult)) (file : UploadedFile) (w : World) :
  OnePerFile P ->
  exists r, entriesOf file (P file w) = [r] /\ name r = originalname file.
Proof.
  intros HP. unfold entriesOf. destruct (P file w) as [[rs|e] w'] eqn:E; simpl.
  - destruct (HP _ _ _ _ E) as (r & -> & Hn & _). eauto.
  - eauto.
Qed.

Lemma perFile_names (P : UploadedFile -> M (list FileResult)) (files : list UploadedFile) :
  OnePerFile P ->
  forall w rs w', perFile P files w = (Ok rs, w') -> map name rs = map originalname files.
Proof.
  intros HP. induction files as [|file files IH]; intros w rs w' H.
  - injection H as <- _. reflexivity.
  - rewrite perFile_cons in H.
    destruct (perFile P files (snd (P file w))) as [[rs2|e] w2] eqn:E; [|discriminate].
    injection H as <- _. destruct (entriesOf_one P file w HP) as (r & -> & Hn).
    simpl. rewrite Hn. f_equal. eapply IH. eassumption.
Qed.

(** ** The pipelines *)

Ltac run_cases H :=
  repeat match type of H with
         | context [match ?x with _ => _ end] =>
             let E := fresh "E" in destruct x eqn:E; try discriminate H
         end.

Lemma forEach_singletons {A B : Type} (body : A -> M (list B)) (l : list A) :
  (forall a w rs w', body a w = (Ok rs, w') -> length rs = 1%nat) ->
  forall w rs w', forEach body l w = (Ok rs, w') -> length rs = length l.
Proof.
  intros Hb. induction l as [|a l IH]; intros w rs w' H; simpl in H.
  - injection H as <- _. reflexivity.
  - unfold bind in H. run_cases H. injection H as <- _.
    rewrite length_app. erewrite Hb, IH by eassumption. reflexivity.
Qed.

Lemma rasterOne_one : OnePerFile (rasterOne env o).
Proof.
  intros file w rs w' H. unfold rasterOne, bind in H. run_cases H.
  injection H as <- _. eauto.
Qed.

Lemma magickOne_one : OnePerFile (magickOne env o).
Proof.
  intros file w rs w' H. unfold magickOne, bind in H. run_cases H.
  injection H as <- _. eauto.
Qed.

Lemma optimizeOne_one :
  OnePerFile (fun file => bind (optimizeOne env o file) (fun r => ret [r])).
Proof.
  intros file w rs w' H. unfold bind at 1 in H.
  destruct (optimizeOne env o file w) as [[r|e] w1] eqn:E; [|discriminate].
  injection H as <- _. exists r. split; [reflexivity|].
  unfold optimizeOne, bind in E. run_cases E. injection E as <- _. auto.
Qed.

Lemma svgFormat_one (file : UploadedFile) (originalSize : Z) (baseFilename format : string)
    (w : World) (rs : list ProcessedFile) (w' : World) :
  svgFormat env o file originalSize baseFilename format w = (Ok rs, w') ->
  length rs = 1%nat.
Proof.
  intros H. unfold svgFormat, bind in H. run_cases H. injection H as <- _. reflexivity.
Qed.

Lemma svgToRaster_one : hasRasterFormats o = true -> OnePerFile (svgToRaster env o (hasSvgFormat o)).
Proof.
  intros Hr file w rs w' H. unfold svgToRaster, bind in H.
  destruct (stat (path file) w) as [[st|e] w1] eqn:Est; [|discriminate].
  destruct (forEach _ _ w1) as [[pfs|e] w2] eqn:Efor; [|discriminate].
  apply (forEach_singletons _ _ (svgFormat_one file _ _)) in Efor.
  assert (Hlen : (0 <? length pfs)%nat = true).
  { apply Nat.ltb_lt. rewrite Efor. unfold hasRasterFormats in Hr.
    apply existsb_exists in Hr. destruct Hr as (f & Hin & Hf).
    assert (Hin' : In f (List.filter (Js.includes RASTER_FORMATS) (formats o)))
      by (apply filter_In; auto).
    destruct (List.filter _ _); [contradiction | simpl; lia]. }
  rewrite Hlen in H. run_cases H. injection H as <- _. eauto.
Qed.

(** ** The blocks of processImages *)

Lemma svg_not_magick (f : UploadedFile) :
  isSvg f = true -> shouldUseImageMagick (originalname f) = false.
Proof.
  unfold isSvg, shouldUseImageMagick. intros H. apply String.eqb_eq in H. now rewrite H.
Qed.

Lemma split_lengths (files : list UploadedFile) :
  (length (svgFilesOf files) + length (imageMagickFilesOf o files)
   + length (rasterFilesOf o files) = length files)%nat.
Proof.
  unfold svgFilesOf, imageMagickFilesOf, rasterFilesOf.
  induction files as [|f files IH]; [now destruct (useImageMagick o)|].
  cbn [List.filter]. pose proof (svg_not_magick f) as Hsvg.
  destruct (useImageMagick o), (isSvg f), (shouldUseImageMagick (originalname f));
    cbn [negb andb length] in *; first [lia | specialize (Hsvg eq_refl); discriminate Hsvg].
Qed.

Lemma names_among (files : list UploadedFile) (rs : list FileResult) :
  map name rs = map originalname files ->
  Forall (fun r => exists f, In f files /\ name r = originalname f) rs.
Proof.
  revert files. induction rs as [|r rs IH]; intros [|f files] H; try discriminate H.
  - constructor.
  - injection H as Hn H. constructor; [exists f; simpl; auto|].
    eapply Forall_impl; [apply (IH files H)|]. intros r' (f' & Hin & Hn'). exists f'. simpl. auto.
Qed.

Lemma Forall_among_weaken (sub files : list UploadedFile) (rs : list FileResult) :
  (forall f, In f sub -> In f files) ->
  Forall (fun r => exists f, In f sub /\ name r = originalname f) rs ->
  Forall (fun r => exists f, In f files /\ name r = originalname f) rs.
Proof.
  intros Hsub H. eapply Forall_impl; [exact H|]. intros r (f & Hin & Hn). eauto.
Qed.

Lemma processSvgFiles_spec (svgFiles : list UploadedFile) (w : World) :
  exists rs w',
    processSvgFiles env o svgFiles w = (Ok rs, w')
    /\ length rs = (length svgFiles
                    * (Nat.b2n (hasRasterFormats o) + Nat.b2n (hasSvgFormat o)))%nat
    /\ Forall (fun r => exists f, In f svgFiles /\ name r = originalname f) rs.
Proof.
  unfold processSvgFiles. destruct svgFiles as [|f0 svgFiles'] eqn:Hfiles.
  { exists [], w. simpl. auto. }
  rewrite <- Hfiles. assert ((0 <? length svgFiles)%nat = true) as ->
    by (rewrite Hfiles; reflexivity).
  clear Hfiles. unfold bind.
  assert (Hconv : exists rs1 w1,
             (if hasRasterFormats o
              then perFile (svgToRaster env o (hasSvgFormat o)) svgFiles
              else ret []) w = (Ok rs1, w1)
             /\ length rs1 = (length svgFiles * Nat.b2n (hasRasterFormats o))%nat
             /\ Forall (fun r => exists f, In f svgFiles /\ name r = originalname f) rs1).
  { destruct (hasRasterFormats o) eqn:Hr.
    - destruct (perFile_total (svgToRaster env o (hasSvgFormat o)) svgFiles w)
        as (rs1 & w1 & H1).
      pose proof (perFile_names _ _ (svgToRaster_one Hr) _ _ _ H1) as Hn.
      exists rs1, w1. split; [assumption|]. split; [|now apply names_among].
      apply (f_equal (@length _)) in Hn. rewrite !length_map in Hn. simpl. lia.
    - exists [], w. simpl. split; [reflexivity|]. split; [lia | constructor]. }
  destruct Hconv as (rs1 & w1 & -> & Hl1 & Hn1).
  assert (Hopt : exists rs2 w2,
             (if hasSvgFormat o then optimizeSVGs env svgFiles o else ret []) w1 = (Ok rs2, w2)
             /\ length rs2 = (length svgFiles * Nat.b2n (hasSvgFormat o))%nat
             /\ Forall (fun r => exists f, In f svgFiles /\ name r = originalname f) rs2).
  { destruct (hasSvgFormat o) eqn:Hs.
    - unfold optimizeSVGs.
      destruct (perFile_total (fun file => bind (optimizeOne env o file) (fun r => ret [r]))
                  svgFiles w1) as (rs2 & w2 & H2).
      pose proof (perFile_names _ _ optimizeOne_one _ _ _ H2) as Hn.
      exists rs2, w2. split; [assumption|]. split; [|now apply names_among].
      apply (f_equal (@length _)) in Hn. rewrite !length_map in Hn. simpl. lia.
    - exists [], w1. simpl. split; [reflexivity|]. split; [lia | constructor]. }
  destruct Hopt as (rs2 & w2 & -> & Hl2 & Hn2).
  exists (rs1 ++ rs2), w2. split; [reflexivity|].
  split; [rewrite length_app; lia | now apply Forall_app].
Qed.

Lemma processWithImageMagick_spec (files : list UploadedFile) (w : World) :
  let w1 := emit (EvProbe (probe env (probes w))) (countProbe w) in
  if probe env (probes w)
  then exists rs w',
      processWithImageMagick env files o w = (Ok rs, w')
      /\ map name rs = map originalname files
  else processWithImageMagick env files o w
       = (Throw (plainError "ImageMagick is not installed on this system"), w1).
Proof.
  intros w1. unfold processWithImageMagick, bind, isImageMagickAvailable.
  destruct (probe env (probes w)); simpl; [|reflexivity].
  destruct (perFile_total (magickOne env o) files w1) as (rs & w' & H).
  exists rs, w'. split; [assumption|]. eapply perFile_names; [apply magickOne_one | eassumption].
Qed.

(** The block of the secondary encoder: either it answers for every one
    of its files, or it hands all of them to the raster loop. *)
Lemma processImageMagickFiles_spec (imageMagickFiles rasterFiles : list UploadedFile)
    (w : World) :
  exists rs rasterFiles' w',
    processImageMagickFiles env o imageMagickFiles rasterFiles w = (Ok (rs, rasterFiles'), w')
    /\ ((map name rs = map originalname imageMagickFiles /\ rasterFiles' = rasterFiles)
        \/ (rs = [] /\ rasterFiles' = rasterFiles ++ imageMagickFiles)).
Proof.
  unfold processImageMagickFiles.
  destruct imageMagickFiles as [|f0 rest] eqn:Hfiles.
  { exists [], rasterFiles, w. simpl. auto. }
  rewrite <- Hfiles. assert ((0 <? length imageMagickFiles)%nat = true) as ->
    by (rewrite Hfiles; reflexivity).
  clear Hfiles. unfold bind at 1. unfold isImageMagickAvailable.
  set (w1 := emit (EvProbe (probe env (probes w))) (countProbe w)).
  destruct (probe env (probes w)); [|exists [], (rasterFiles ++ imageMagickFiles), w1; auto].
  unfold tryCatch, bind.
  pose proof (processWithImageMagick_spec imageMagickFiles w1) as Hm. cbv zeta in Hm.
  destruct (probe env (probes w1)).
  - destruct Hm as (rs & w' & -> & Hn). exists rs, rasterFiles, w'. auto.
  - rewrite Hm. eexists [], (rasterFiles ++ imageMagickFiles), _. auto.
Qed.

Lemma pipelines_success (P : UploadedFile -> M (list FileResult)) :
  In P (pipelines env o) ->
  forall file w rs w', P file w = (Ok rs, w') ->
    Forall (fun r => name r = originalname file /\ status r = "success") rs.
Proof.
  assert (Hone : forall Q, OnePerFile Q ->
            forall file w rs w', Q file w = (Ok rs, w') ->
              Forall (fun r => name r = originalname file /\ status r = "success") rs).
  { intros Q HQ file w rs w' H. destruct (HQ _ _ _ _ H) as (r & -> & Hn & Hs).
    constructor; auto. }
  intros [<-|[<-|[<-|[<-|[]]]]].
  - intros file w rs w' H. unfold svgToRaster, bind in H. run_cases H.
    all: injection H as <- _; repeat constructor.
  - apply Hone, optimizeOne_one.
  - apply Hone, magickOne_one.
  - apply Hone, rasterOne_one.
Qed.

End Orchestrator.

Example processImages_isolates_failure :
  resultsOf (Image.processImages pickyEnv rasterBatch (Image.defaults true) rasterWorld)
  = [ Image.Success "a.png" 100 [Image.mkProcessed "webp" "a.webp" 40 "60.00"] None;
      Image.Failure "b.png" "Input file contains unsupported image format";
      Image.Success "c.png" 100 [Image.mkProcessed "webp" "c.webp" 40 "60.00"] None ].
Proof. vm_compute. reflexivity. Qed.

(** C1 as stated fails on an SVG file asked for as WebP and as SVG: the
    batch of one file gets two entries. *)
Lemma processImages_two_entries_for_one_svg :
  ~ (forall env files o w rs w',
       (1 <= length files)%nat ->
       Image.processImages env files o w = (Ok rs, w') ->
       length rs = length files).
Proof.
  intros H.
  specialize (H obligingEnv svgBatch bothFormats svgWorld
                (resultsOf (Image.processImages obligingEnv svgBatch bothFormats svgWorld))
                (snd (Image.processImages obligingEnv svgBatch bothFormats svgWorld))
                (le_n 1)).
  assert (Hrun : Image.processImages obligingEnv svgBatch bothFormats svgWorld
                 = (Ok (resultsOf (Image.processImages obligingEnv svgBatch bothFormats
                                     svgWorld)),
                    snd (Image.processImages obligingEnv svgBatch bothFormats svgWorld)))
    by (vm_compute; reflexivity).
  specialize (H Hrun). vm_compute in H. discriminate H.
Qed.

Example scan_converted_by_sharp :
  resultsOf (Image.processImages noMagickEnv scanBatch (Image.defaults true) scanWorld)
  = [Image.Success "scan.TIFF" 100 [Image.mkProcessed "webp" "scan.webp" 40 "60.00"] None]
  /\ trace (snd (Image.processImages noMagickEnv scanBatch (Image.defaults true) scanWorld))
     = [EvProbe false; EvWrite "scan.webp" 40; EvUnlink "files-7.TIFF" None].
Proof. vm_compute. split; reflexivity. Qed.

(** C9 as stated fails on a PSD drawing on a machine without
    ImageMagick: the file is handed to sharp, which cannot read it, and
    is reported as failed, with sharp's message; its upload stays in the
    directory. *)
Lemma specialty_fallback_reports_failure :
  Image.imageMagickFilesOf (Image.defaults true) psdBatch = psdBatch
  /\ probe psdEnv 0%nat = false
  /\ resultsOf (Image.processImages psdEnv psdBatch (Image.defaults true) psdWorld)
     = [Image.Failure "art.psd" "Input file contains unsupported image format"]
  /\ trace (snd (Image.processImages psdEnv psdBatch (Image.defaults true) psdWorld))
     = [EvProbe false]
  /\ dir (snd (Image.processImages psdEnv psdBatch (Image.defaults true) psdWorld))
     = dir psdWorld.
Proof. vm_compute. repeat split; reflexivity. Qed.

(* ===================================================================== *)
(** * One SVG file, asked for as WebP and as SVG *)
(* ===================================================================== *)

Lemma bind_ok {A B : Type} (m : M A) (k : A -> M B) (w w' : World) (a : A) :
  m w = (Ok a, w') -> bind m k w = k a w'.
Proof. intros H. unfold bind. now rewrite H. Qed.

Lemma stat_present (p : string) (w : World) (st : Stats.t) :
  dir w !! p = Some st -> stat p w = (Ok st, w).
Proof. intros H. unfold stat. now rewrite H. Qed.

Lemma access_present (p : string) (w : World) (st : Stats.t) :
  dir w !! p = Some st -> access p w = (Ok tt, w).
Proof.
  intros H. unfold access, exists_. rewrite bool_decide_eq_true_2; [reflexivity|]. eauto.
Qed.

Lemma processorUnlink_free (p : string) (w : World) (st : Stats.t) :
  pending w p = [] -> dir w !! p = Some st ->
  processorUnlink p w = (Ok tt, emit (EvUnlink p None) (setDir (delete p (dir w)) w)).
Proof.
  intros Hq Hd. unfold processorUnlink. cbn [processorUnlinkFrom].
  unfold bind, processorUnlinkAttempt, tryCatch, bind.
  now rewrite (unlink_present p w st Hq Hd).
Qed.

(** A name the allocator returns is not the path of an existing file. *)
Lemma fresh_name_differs (w : World) (p base ext : string) (st : Stats.t) :
  dir w !! p = Some st -> getUniqueFilenameIn w base ext <> p.
Proof.
  intros Hd Heq. pose proof (getUniqueFilename_fresh w base ext) as Hf.
  rewrite Heq in Hf. congruence.
Qed.

(** C2, as the code has it.  An SVG upload asked for as ['webp', 'svg'],
    when both codecs succeed and nothing holds the upload open, yields two
    entries for that file, both of status 'success': the first with the
    one WebP artifact of the raster pass, the second with the one SVG
    artifact of the optimization pass.  The upload is not deleted after
    the raster pass: its only [fs.unlink] comes after both artifacts have
    been written. *)
Theorem svg_two_formats (env : Env) (file : UploadedFile) (o : Image.Options) (w : World)
    (st : Stats.t) (webpBytes svgBytes : Z) :
  Image.isSvg file = true ->
  Image.formats o = ["webp"; "svg"] ->
  dir w !! path file = Some st ->
  pending w (path file) = [] ->
  (forall dest,
     sharp env (mkJob (path file) (Some 300) (Image.resizeStep o) (Webp (Image.quality o))) dest
     = inr webpBytes) ->
  svgo env (path file) (Image.svgoConfig o) = inr svgBytes ->
  let base := Js.basenameNoExt (originalname file) in
  let webpName := getUniqueFilenameIn w base "webp" in
  let svgName := getUniqueFilenameIn (snd (writeFile webpName webpBytes w)) base "svg" in
  exists w',
    Image.processImages env [file] o w
    = (Ok [ Image.Success (originalname file) (Stats.size st)
              [Image.mkProcessed "webp" webpName webpBytes
                 (Image.savingsOfSvgRaster (Stats.size st) webpBytes)] None;
            Image.Success (originalname file) (Stats.size st)
              [Image.mkProcessed "svg" svgName svgBytes
                 (Image.savingsOf (Stats.size st) svgBytes)] None ], w')
    /\ trace w' = trace w ++ [ EvWrite webpName webpBytes; EvWrite svgName svgBytes;
                              EvUnlink (path file) None ]
    /\ dir w' !! path file = None.
Proof.
  intros Hsvg Hformats Hd Hq Hsharp Hsvgo base webpName svgName.
  set (w1 := snd (writeFile webpName webpBytes w)) in *.
  set (w2 := snd (writeFile svgName svgBytes w1)).
  assert (Hne1 : webpName <> path file) by (eapply fresh_name_differs; eassumption).
  assert (Hd1 : dir w1 !! path file = Some st).
  { unfold w1, writeFile, modify. simpl. now rewrite lookup_insert_ne. }
  assert (Hne2 : svgName <> path file) by (eapply fresh_name_differs; eassumption).
  assert (Hd2 : dir w2 !! path file = Some st).
  { unfold w2, writeFile, modify. simpl. now rewrite lookup_insert_ne. }
  assert (Hq2 : pending w2 (path file) = []) by exact Hq.
  (* the split of the batch *)
  assert (Hsvgs : Image.svgFilesOf [file] = [file]).
  { unfold Image.svgFilesOf. simpl. now rewrite Hsvg. }
  assert (Hmagick : Image.imageMagickFilesOf o [file] = []).
  { unfold Image.imageMagickFilesOf. destruct (Image.useImageMagick o); [|reflexivity].
    simpl. now rewrite (svg_not_magick file Hsvg). }
  assert (Hraster : Image.rasterFilesOf o [file] = []).
  { unfold Image.rasterFilesOf. simpl. now rewrite Hsvg. }
  assert (HhasR : Image.hasRasterFormats o = true)
    by (unfold Image.hasRasterFormats; now rewrite Hformats).
  assert (HhasS : Image.hasSvgFormat o = true)
    by (unfold Image.hasSvgFormat; now rewrite Hformats).
  (* the raster pass *)
  assert (Hpass1 : Image.perFile (Image.svgToRaster env o true) [file] w
                   = (Ok [Image.Success (originalname file) (Stats.size st)
                            [Image.mkProcessed "webp" webpName webpBytes
                               (Image.savingsOfSvgRaster (Stats.size st) webpBytes)] None],
                      w1)).
  { rewrite perFile_cons. unfold Image.perFile at 1. cbn [forEach]. unfold ret at 1.
    assert (Hrun : Image.svgToRaster env o true file w
                   = (Ok [Image.Success (originalname file) (Stats.size st)
                            [Image.mkProcessed "webp" webpName webpBytes
                               (Image.savingsOfSvgRaster (Stats.size st) webpBytes)] None],
                      w1)).
    { unfold Image.svgToRaster. rewrite (bind_ok _ _ _ _ _ (stat_present _ _ _ Hd)).
      rewrite Hformats. cbn [List.filter Js.includes Image.RASTER_FORMATS existsb String.eqb
                              Ascii.eqb Bool.eqb orb andb].
      cbn [forEach]. unfold bind at 1. unfold bind at 1.
      unfold Image.svgFormat at 1. unfold bind at 1. unfold getUniqueFilename at 1.
      fold base. fold webpName.
      change (Image.svgEncoder "webp" (Image.quality o)) with (Webp (Image.quality o)).
      rewrite Hsharp. unfold produce. unfold bind at 1.
      change (writeFile webpName webpBytes w) with (Ok tt, w1).
      unfold bind at 1.
      assert (Hst1 : stat webpName w1 = (Ok (Stats.mk webpBytes (clock w) false), w1)).
      { apply stat_present. unfold w1, writeFile, modify. simpl. apply lookup_insert_eq. }
      rewrite Hst1. unfold ret. cbn [negb Stats.size app length Nat.ltb Nat.leb].
      reflexivity. }
    rewrite Hrun. reflexivity. }
  (* the optimization pass *)
  assert (Hpass2 : Image.optimizeSVGs env [file] o w1
                   = (Ok [Image.Success (originalname file) (Stats.size st)
                            [Image.mkProcessed "svg" svgName svgBytes
                               (Image.savingsOf (Stats.size st) svgBytes)] None],
                      emit (EvUnlink (path file) None)
                        (setDir (delete (path file) (dir w2)) w2))).
  { unfold Image.optimizeSVGs. rewrite perFile_cons. unfold Image.perFile at 1.
    cbn [forEach]. unfold ret at 1.
    assert (Hrun : Image.optimizeOne env o file w1
                   = (Ok (Image.Success (originalname file) (Stats.size st)
                            [Image.mkProcessed "svg" svgName svgBytes
                               (Image.savingsOf (Stats.size st) svgBytes)] None),
                      emit (EvUnlink (path file) None)
                        (setDir (delete (path file) (dir w2)) w2))).
    { unfold Image.optimizeOne. rewrite (bind_ok _ _ _ _ _ (stat_present _ _ _ Hd1)).
      rewrite (bind_ok _ _ _ _ _ (access_present _ _ _ Hd1)).
      rewrite Hsvgo. unfold bind at 1. unfold ret at 1.
      unfold bind at 1. unfold getUniqueFilename at 1. fold base. fold svgName.
      unfold bind at 1. change (writeFile svgName svgBytes w1) with (Ok tt, w2).
      cbv beta iota.
      assert (Hst2 : stat svgName w2 = (Ok (Stats.mk svgBytes (clock w1) false), w2)).
      { apply stat_present. unfold w2, writeFile, modify. simpl. apply lookup_insert_eq. }
      rewrite (bind_ok _ _ _ _ _ Hst2).
      assert (String.eqb (path file) svgName = false) as ->
        by (apply String.eqb_neq; congruence).
      cbn [negb]. rewrite (bind_ok _ _ _ _ _ (processorUnlink_free _ _ _ Hq2 Hd2)).
      reflexivity. }
    unfold bind. rewrite Hrun. reflexivity. }
  eexists. split.
  - unfold Image.processImages. rewrite Hsvgs, Hmagick, Hraster.
    unfold Image.processSvgFiles. cbn [length Nat.ltb Nat.leb]. rewrite HhasR, HhasS.
    unfold bind at 1. unfold bind at 1. rewrite Hpass1. unfold bind at 1. rewrite Hpass2.
    reflexivity.
  - split.
    + simpl. rewrite <- !app_assoc. reflexivity.
    + simpl. apply lookup_delete_eq.
Qed.

(** The scenario of the specification, run: two entries of one artifact
    each, and the upload deleted last. *)
Lemma svg_two_formats_witness :
  exists w',
    Image.processImages obligingEnv svgBatch bothFormats svgWorld
    = (Ok [ Image.Success "logo.svg" 100 [Image.mkProcessed "webp" "logo.webp" 40 "60.00"] None;
            Image.Success "logo.svg" 100 [Image.mkProcessed "svg" "logo.svg" 60 "40.00"] None ],
       w')
    /\ trace w' = [EvWrite "logo.webp" 40; EvWrite "logo.svg" 60; EvUnlink "files-1-2.svg" None].
Proof.
  destruct (svg_two_formats obligingEnv (mkFile "logo.svg" "files-1-2.svg") bothFormats svgWorld
              (Stats.mk 100 0 false) 40 60 eq_refl eq_refl eq_refl eq_refl
              (fun _ => eq_refl) eq_refl) as (w' & Hrun & Htrace & _).
  exists w'. split; [exact Hrun | exact Htrace].
Defined.

(** C2 as stated fails in that scenario: the file does not get one entry
    holding two artifacts. *)
Lemma svg_two_formats_not_one_entry :
  ~ (exists r w',
       Image.processImages obligingEnv svgBatch bothFormats svgWorld = (Ok [r], w')
       /\ length (Image.artifacts r) = 2%nat).
Proof. intros (r & w' & H & _). vm_compute in H. discriminate H. Qed.

(* ===================================================================== *)
(** * Savings *)
(* ===================================================================== *)

(** The SVG-to-raster loop reports '0.00' whenever the output is not
    smaller than the upload. *)
Lemma savingsOfSvgRaster_clamped (originalSize processedSize : Z) :
  originalSize <= processedSize ->
  Image.savingsOfSvgRaster originalSize processedSize = "0.00".
Proof.
  intros H. unfold Image.savingsOfSvgRaster.
  destruct (originalSize >? processedSize) eqn:E; [|reflexivity].
  rewrite Z.gtb_ltb in E. apply Z.ltb_lt in E. lia.
Qed.

(** C10.  The raster loop of processImages does not clamp: for a PNG of
    100 bytes whose WebP output has 150 bytes it reports the savings
    '-50.00', where the SVG-to-raster loop reports '0.00' for the same
    sizes. *)
Theorem raster_savings_not_clamped :
  resultsOf (Image.processImages growingEnv photoBatch (Image.defaults true) photoWorld)
  = [Image.Success "photo.png" 100 [Image.mkProcessed "webp" "photo.webp" 150 "-50.00"] None]
  /\ Image.savingsOfSvgRaster 100 150 = "0.00".
Proof. vm_compute. split; reflexivity. Qed.

(* ===================================================================== *)
(** * Further properties: the type router *)
(* ===================================================================== *)

(** X1.  The three lists processImages splits a batch into are a
    partition of it: together they hold every file exactly once (whether
    or not ImageMagick is enabled), the SVG files being those with
    extension .svg in any letter case, and no SVG file being handed to
    the secondary encoder. *)
Theorem batch_partition (o : Image.Options) (files : list UploadedFile) :
  Image.svgFilesOf files ++ Image.imageMagickFilesOf o files ++ Image.rasterFilesOf o files
  ≡ₚ files
  /\ Forall (fun f => Image.isSvg f = true) (Image.svgFilesOf files)
  /\ Forall (fun f => Image.isSvg f = false
                      /\ Image.shouldUseImageMagick (originalname f) = true)
       (Image.imageMagickFilesOf o files)
  /\ Forall (fun f => Image.isSvg f = false) (Image.rasterFilesOf o files).
Proof.
  split; [|split; [|split]].
  - unfold Image.svgFilesOf, Image.imageMagickFilesOf, Image.rasterFilesOf.
    induction files as [|f files IH]; [now destruct (Image.useImageMagick o)|].
    cbn [List.filter]. pose proof (svg_not_magick f) as Hsvg.
    destruct (Image.useImageMagick o) eqn:Hu, (Image.isSvg f) eqn:Hs,
             (Image.shouldUseImageMagick (originalname f)) eqn:Hm;
      cbn [negb andb] in *;
      try (specialize (Hsvg eq_refl); discriminate Hsvg).
    all: cbn [app]; rewrite <- ?Permutation_middle; now constructor.
  - apply Forall_forall. intros f Hf. apply list_elem_of_In, filter_In in Hf. tauto.
  - unfold Image.imageMagickFilesOf. destruct (Image.useImageMagick o); [|constructor].
    apply Forall_forall. intros f Hf. apply list_elem_of_In, filter_In in Hf.
    destruct Hf as [_ Hm]. split; [|assumption].
    destruct (Image.isSvg f) eqn:Hs; [|reflexivity].
    rewrite (svg_not_magick f Hs) in Hm. discriminate Hm.
  - apply Forall_forall. intros f Hf. apply list_elem_of_In, filter_In in Hf.
    destruct Hf as [_ Hc]. apply andb_true_iff in Hc. destruct Hc as [Hs _].
    now apply negb_true_iff in Hs.
Qed.

(* ===================================================================== *)
(** * Further properties: the fan-out of one file *)
(* ===================================================================== *)

Section FanOut.

Variable env : Env.
Variable o : Image.Options.
Variable file : UploadedFile.
Variable originalSize : Z.

Lemma stat_written (name : string) (bytes : Z) (w : World) :
  stat name (snd (writeFile name bytes w))
  = (Ok (Stats.mk bytes (clock w) false), snd (writeFile name bytes w)).
Proof. apply stat_present. unfold writeFile, modify. simpl. apply lookup_insert_eq. Qed.

Lemma produce_step (answer : string + Z) (dest : string) (w : World) :
  produce answer dest w
  = match answer with
    | inr bytes => writeFile dest bytes w
    | inl msg => (Throw (plainError msg), w)
    end.
Proof. now destruct answer. Qed.

Lemma rasterFormat_step (base : string) :
  FormatStep base (Image.rasterFormat env o file originalSize base).
Proof.
  intros format w. unfold Image.rasterFormat, bind, getUniqueFilename.
  rewrite produce_step. destruct (sharp env _ _) as [msg|bytes]; [left; eauto|right].
  change (writeFile ?n ?b w) with (Ok tt, snd (writeFile n b w)).
  cbv beta iota. rewrite stat_written. cbn [Stats.size]. eauto.
Qed.

Lemma svgFormat_step (base : string) :
  FormatStep base (Image.svgFormat env o file originalSize base).
Proof.
  intros format w. unfold Image.svgFormat, bind, getUniqueFilename.
  rewrite produce_step. destruct (sharp env _ _) as [msg|bytes]; [left; eauto|right].
  change (writeFile ?n ?b w) with (Ok tt, snd (writeFile n b w)).
  cbv beta iota. rewrite stat_written. cbn [Stats.size]. eauto.
Qed.

Lemma magickFormat_step :
  FormatStep (Js.basenameNoExt (originalname file))
    (Image.magickFormat env o file originalSize).
Proof.
  intros format w. unfold Image.magickFormat, bind, getUniqueFilename.
  rewrite produce_step. destruct (convert env _) as [msg|bytes]; [left; eauto|right].
  change (writeFile ?n ?b w) with (Ok tt, snd (writeFile n b w)).
  cbv beta iota. rewrite stat_written. cbn [Stats.size]. eauto.
Qed.

(** The fan-out loop over the formats: it only writes files, never
    touches an entry that exists, and when it ends without throwing it
    has produced one artifact per format, in the order asked, under
    names that are pairwise different and were all free before. *)
Lemma fanOut_spec (base : string) (step : string -> M (list Image.ProcessedFile))
    (formats : list string) :
  FormatStep base step ->
  forall w out w',
    forEach step formats w = (out, w') ->
    faults w' = faults w
    /\ (forall q st, dir w !! q = Some st -> dir w' !! q = Some st)
    /\ (exists evs, trace w' = trace w ++ evs /\ forallb isWrite evs = true)
    /\ match out with
       | Ok pfs =>
           map Image.format pfs = formats
           /\ NoDup (map Image.filename pfs)
           /\ Forall (fun pf => dir w !! Image.filename pf = None /\ onDisk w' pf) pfs
       | Throw e => code e = None
       end.
Proof.
  intros Hstep. induction formats as [|f formats IH]; intros w out w' H.
  - injection H as <- <-. repeat split; auto.
    + exists []. now rewrite app_nil_r.
    + constructor.
  - cbn [forEach] in H. unfold bind at 1 in H.
    destruct (Hstep f w) as [(msg & Hf)|(bytes & sv & Hf)]; rewrite Hf in H.
    + injection H as <- <-. repeat split; auto. exists []. now rewrite app_nil_r.
    + set (n := getUniqueFilenameIn w base f) in *.
      set (w1 := snd (writeFile n bytes w)) in *.
      unfold bind at 1 in H.
      destruct (forEach step formats w1) as [rest w2] eqn:Erest.
      destruct (IH _ _ _ Erest) as (Hfaults & Hkeep & (evs & Ht & Hw) & Hout).
      assert (Hfresh : dir w !! n = None) by apply getUniqueFilename_fresh.
      assert (Hn1 : dir w1 !! n = Some (Stats.mk bytes (clock w) false)).
      { unfold w1, writeFile, modify. simpl. apply lookup_insert_eq. }
      assert (Hkeep1 : forall q st, dir w !! q = Some st -> dir w1 !! q = Some st).
      { intros q st Hq. unfold w1, writeFile, modify. simpl.
        rewrite lookup_insert_ne; [assumption|]. intros ->. congruence. }
      assert (Hcommon : faults w2 = faults w
                        /\ (forall q st, dir w !! q = Some st -> dir w2 !! q = Some st)
                        /\ exists evs', trace w2 = trace w ++ evs'
                                        /\ forallb isWrite evs' = true).
      { split; [rewrite Hfaults; reflexivity|]. split; [auto|].
        exists (EvWrite n bytes :: evs). split.
        - rewrite Ht. unfold w1, writeFile, modify. simpl. now rewrite <- app_assoc.
        - simpl. assumption. }
      destruct Hcommon as (Hc1 & Hc2 & Hc3).
      destruct rest as [pfs|e]; injection H as <- <-.
      * destruct Hout as (Hfmt & Hnd & Hall).
        split; [assumption|]. split; [assumption|]. split; [assumption|].
        cbn [app map Image.format Image.filename].
        split; [now rewrite Hfmt|]. split.
        -- constructor; [|assumption]. intros Hin.
           apply list_elem_of_fmap in Hin. destruct Hin as (pf & Hname & Hin).
           rewrite Forall_forall in Hall. destruct (Hall pf Hin) as (Hfree & _).
           rewrite <- Hname in Hfree. congruence.
        -- constructor.
           ++ split; [assumption|]. exists (clock w). apply Hkeep. assumption.
           ++ eapply Forall_impl; [exact Hall|]. intros pf (Hfree & Hdisk).
              split; [|assumption].
              destruct (dir w !! Image.filename pf) as [st|] eqn:E; [|reflexivity].
              apply Hkeep1 in E. congruence.
      * split; [assumption|]. split; [assumption|]. split; assumption.
Qed.

End FanOut.

(** ** The processors' own copy of safeUnlink *)

Lemma processorUnlinkFrom_spec (p : string) (retries : nat) (delay : Z) (n : nat) :
  forall (i : nat) (w : World) out w',
    (i + n = retries)%nat ->
    processorUnlinkFrom n p retries delay i w = (out, w') ->
    (forall q, q <> p -> dir w' !! q = dir w !! q)
    /\ match out with
       | Ok _ =>
           (is_Some (dir w !! p) /\ dir w' !! p = None)
           \/ (dir w' !! p = dir w !! p
               /\ (n <= length (pending w p))%nat
               /\ forallb busyCode (take n (pending w p)) = true)
       | Throw e =>
           dir w' !! p = dir w !! p
           /\ exists c, e = fsError c "unlink" p /\ busyCode c = false
       end.
Proof.
  induction n as [|n IH]; intros i w out w' Hi H.
  - injection H as <- <-. split; [auto|]. right. simpl. auto with lia.
  - cbn [processorUnlinkFrom] in H. unfold bind at 1 in H.
    unfold processorUnlinkAttempt, tryCatch, bind in H.
    destruct (pending w p) as [|c rest] eqn:Hq.
    + destruct (dir w !! p) as [st|] eqn:Hd.
      * rewrite (unlink_present p w st Hq Hd) in H. injection H as <- <-. simpl.
        split; [intros q Hne; now rewrite lookup_delete_ne|].
        left. split; [eauto | apply lookup_delete_eq].
      * rewrite (unlink_absent p w Hq Hd) in H. simpl in H. injection H as <- <-. simpl.
        split; [auto|]. split; [assumption|]. exists ENOENT. auto.
    + rewrite (unlink_fault p w c rest Hq), isBusy_fsError in H.
      destruct (busyCode c) eqn:Hc.
      * assert (Hnext : exists w1,
                   processorUnlinkFrom n p retries delay (S i) w1 = (out, w')
                   /\ dir w1 = dir w /\ pending w1 p = rest).
        { destruct (i <? retries - 1)%nat.
          - exists (slept (delay * (Z.of_nat i + 1)) (failedUnlink p c w)).
            split; [exact H|]. split; [reflexivity|].
            now rewrite pending_slept, pending_failedUnlink, Hq.
          - exists (failedUnlink p c w).
            split; [exact H|]. split; [reflexivity|].
            now rewrite pending_failedUnlink, Hq. }
        destruct Hnext as (w1 & Hrun & Hd1 & Hq1).
        destruct (IH (S i) w1 out w' ltac:(lia) Hrun) as (Hothers & Hself).
        rewrite Hd1 in Hothers, Hself. rewrite Hq1 in Hself. split; [assumption|].
        destruct out as [u|e]; [|assumption].
        destruct Hself as [Hgone|(Hsame & Hlen & Hbusy)]; [now left|right].
        split; [assumption|]. simpl. rewrite Hc, Hbusy. auto with lia.
      * simpl in H. injection H as <- <-. simpl.
        split; [auto|]. split; [reflexivity|]. eauto.
Qed.

(** X2.  The copy of safeUnlink in the three processors, with its
    defaults.  On an upload that no longer exists it throws the ENOENT
    error of [fs.unlink], after one attempt; an upload that nothing holds
    is deleted at the first attempt; and on an upload held busy through
    its three attempts it returns normally, after waits of 100 and 200 ms
    and none after the last attempt, with the upload still in place. *)
Theorem processorUnlink_contract (p : string) (w : World) :
  (pending w p = [] -> dir w !! p = None ->
   processorUnlink p w
   = (Throw (fsError ENOENT "unlink" p), emit (EvUnlink p (Some ENOENT)) w))
  /\ (forall st, pending w p = [] -> dir w !! p = Some st ->
        processorUnlink p w
        = (Ok tt, emit (EvUnlink p None) (setDir (delete p (dir w)) w)))
  /\ (forall c1 c2 c3 rest,
        pending w p = c1 :: c2 :: c3 :: rest ->
        busyCode c1 = true -> busyCode c2 = true -> busyCode c3 = true ->
        exists w',
          processorUnlink p w = (Ok tt, w')
          /\ dir w' = dir w
          /\ pending w' p = rest
          /\ trace w' = trace w ++ [ EvUnlink p (Some c1); EvSleep 100;
                                     EvUnlink p (Some c2); EvSleep 200;
                                     EvUnlink p (Some c3) ]).
Proof.
  split; [|split].
  - intros Hq Hd. unfold processorUnlink. cbn [processorUnlinkFrom].
    unfold bind, processorUnlinkAttempt, tryCatch, bind.
    now rewrite (unlink_absent p w Hq Hd).
  - intros st Hq Hd. now apply (processorUnlink_free p w st).
  - intros c1 c2 c3 rest Hq H1 H2 H3. unfold processorUnlink.
    cbn [processorUnlinkFrom]. unfold bind at 1.
    unfold processorUnlinkAttempt at 1. unfold tryCatch, bind at 1.
    rewrite (unlink_fault p w c1 _ Hq), isBusy_fsError, H1. cbn [Nat.ltb Nat.leb Nat.sub].
    unfold bind at 1. unfold sleep at 1, modify at 1. unfold ret at 1. cbv beta iota.
    set (w1 := emit (EvSleep _) _).
    assert (Hq1 : pending w1 p = c2 :: c3 :: rest).
    { unfold w1. change (pending (failedUnlink p c1 w) p = c2 :: c3 :: rest).
      now rewrite pending_failedUnlink, Hq. }
    unfold bind at 1. unfold processorUnlinkAttempt at 1. unfold tryCatch, bind at 1.
    rewrite (unlink_fault p w1 c2 _ Hq1), isBusy_fsError, H2. cbn [Nat.ltb Nat.leb Nat.sub].
    unfold bind at 1. unfold sleep at 1, modify at 1. unfold ret at 1. cbv beta iota.
    set (w2 := emit (EvSleep _) _).
    assert (Hq2 : pending w2 p = c3 :: rest).
    { unfold w2. change (pending (failedUnlink p c2 w1) p = c3 :: rest).
      now rewrite pending_failedUnlink, Hq1. }
    unfold bind at 1. unfold processorUnlinkAttempt at 1. unfold tryCatch, bind at 1.
    rewrite (unlink_fault p w2 c3 _ Hq2), isBusy_fsError, H3. cbn [Nat.ltb Nat.leb Nat.sub].
    unfold bind at 1. unfold ret. cbv beta iota.
    eexists. split; [reflexivity|]. split; [reflexivity|]. split.
    + rewrite pending_failedUnlink, Hq2. reflexivity.
    + simpl. rewrite <- !app_assoc. reflexivity.
Qed.

(** An upload held busy by a reader. *)
Lemma processorUnlink_contract_witness :
  exists w',
    processorUnlink "files-1.png"
      (worldOf [("files-1.png", Stats.mk 10 0 false)] [("files-1.png", [EBUSY; EBUSY; EPERM])] 0)
    = (Ok tt, w')
    /\ dir w' = list_to_map [("files-1.png", Stats.mk 10 0 false)]
    /\ pending w' "files-1.png" = []
    /\ trace w' = [] ++ [ EvUnlink "files-1.png" (Some EBUSY); EvSleep 100;
                          EvUnlink "files-1.png" (Some EBUSY); EvSleep 200;
                          EvUnlink "files-1.png" (Some EPERM) ].
Proof.
  destruct (processorUnlink_contract "files-1.png"
              (worldOf [("files-1.png", Stats.mk 10 0 false)]
                       [("files-1.png", [EBUSY; EBUSY; EPERM])] 0)) as (_ & _ & Hbusy).
  exact (Hbusy EBUSY EBUSY EPERM [] eq_refl eq_refl eq_refl eq_refl).
Defined.

(** X3.  When the raster pipeline of a file ends without throwing, its
    entry is a success under the file's own name and original size with
    one artifact per requested format other than 'svg', in the order
    requested; the artifact names are pairwise different, none of them
    was in use before (nothing is overwritten), and every artifact is on
    disk with exactly the size reported.  The upload itself is then
    either deleted, or still in place because it stayed busy through the
    three attempts to delete it. *)
Theorem raster_fan_out (env : Env) (o : Image.Options) (file : UploadedFile) (w : World)
    (rs : list Image.FileResult) (w' : World) :
  Image.rasterOne env o file w = (Ok rs, w') ->
  exists st pfs,
    dir w !! path file = Some st
    /\ rs = [Image.Success (originalname file) (Stats.size st) pfs None]
    /\ map Image.format pfs
       = List.filter (fun f => negb (String.eqb f "svg")) (Image.formats o)
    /\ NoDup (map Image.filename pfs)
    /\ Forall (fun pf => dir w !! Image.filename pf = None /\ onDisk w' pf) pfs
    /\ (dir w' !! path file = None
        \/ (dir w' !! path file = Some st
            /\ forallb busyCode (take 3 (pending w (path file))) = true
            /\ (3 <= length (pending w (path file)))%nat)).
Proof.
  intros H. unfold Image.rasterOne in H. unfold bind at 1 in H. unfold stat at 1 in H.
  destruct (dir w !! path file) as [st|] eqn:Hd; [|discriminate H].
  unfold bind at 1 in H.
  destruct (forEach _ _ w) as [[pfs|e] w1] eqn:Efan; [|discriminate H].
  destruct (fanOut_spec _ _ _ (rasterFormat_step env o file (Stats.size st)
                                 (Js.basenameNoExt (originalname file))) _ _ _ Efan)
    as (Hfaults & Hkeep & _ & Hfmt & Hnd & Hall).
  unfold bind at 1 in H.
  destruct (processorUnlink (path file) w1) as [[u|e] w2] eqn:Eun; [|discriminate H].
  injection H as <- <-.
  destruct (processorUnlinkFrom_spec (path file) 3 100 3 0%nat _ _ _ eq_refl Eun) as (Hothers & Hself).
  exists st, pfs. split; [reflexivity|]. split; [reflexivity|].
  split; [assumption|]. split; [assumption|]. split.
  - eapply Forall_impl; [exact Hall|]. intros pf (Hfree & mt & Hdisk).
    split; [assumption|]. exists mt. rewrite Hothers; [assumption|]. congruence.
  - assert (Hsame : pending w1 (path file) = pending w (path file))
      by (unfold pending; now rewrite Hfaults).
    rewrite Hsame, (Hkeep _ _ Hd) in Hself.
    destruct Hself as [[_ Hgone]|(Hstay & Hlen & Hbusy)]; [now left | right; auto].
Qed.

(** WebP, AVIF and WebP again, with [cat.webp] already there: three
    artifacts under three new names. *)
Lemma raster_fan_out_witness :
  exists st pfs,
    dir jpegWorld !! "files-4.jpg" = Some st
    /\ resultsOf (Image.rasterOne obligingEnv threeFormats jpegFile jpegWorld)
       = [Image.Success "cat.jpg" (Stats.size st) pfs None]
    /\ map Image.filename pfs = ["cat_1.webp"; "cat.avif"; "cat_2.webp"].
Proof.
  destruct (raster_fan_out obligingEnv threeFormats jpegFile jpegWorld
              (resultsOf (Image.rasterOne obligingEnv threeFormats jpegFile jpegWorld))
              (snd (Image.rasterOne obligingEnv threeFormats jpegFile jpegWorld)))
    as (st & pfs & Hst & Hrs & _); [vm_compute; reflexivity|].
  exists st, pfs. split; [exact Hst|]. split; [exact Hrs|].
  vm_compute in Hrs. injection Hrs as _ <-. reflexivity.
Defined.

Section Failures.

Variable env : Env.
Variable o : Image.Options.

Lemma fanOut_failure_keeps (file : UploadedFile) (w : World) (st : Stats.t)
    (step : string -> M (list Image.ProcessedFile)) (formats : list string)
    (base : string) (e : JsError) (w' : World) :
  FormatStep base step -> dir w !! path file = Some st ->
  forEach step formats w = (Throw e, w') ->
  dir w' !! path file = Some st
  /\ pending w' (path file) = pending w (path file)
  /\ exists evs, trace w' = trace w ++ evs /\ forallb isWrite evs = true.
Proof.
  intros Hstep Hd H.
  destruct (fanOut_spec base step formats Hstep _ _ _ H) as (Hfaults & Hkeep & Hev & _).
  split; [auto|]. split; [unfold pending; now rewrite Hfaults | assumption].
Qed.

(** A plain error (one without a code) out of a pipeline is a codec's:
    the upload has not been touched. *)
Lemma rasterOne_codec_failure (file : UploadedFile) (w : World) (e : JsError) (w' : World) :
  Image.rasterOne env o file w = (Throw e, w') -> code e = None ->
  exists st evs,
    dir w !! path file = Some st /\ dir w' !! path file = Some st
    /\ pending w' (path file) = pending w (path file)
    /\ trace w' = trace w ++ evs /\ forallb isWrite evs = true.
Proof.
  intros H Hcode. unfold Image.rasterOne in H. unfold bind at 1 in H. unfold stat at 1 in H.
  destruct (dir w !! path file) as [st|] eqn:Hd;
    [|injection H as <- _; discriminate Hcode].
  unfold bind at 1 in H.
  destruct (forEach _ _ w) as [[pfs|e1] w1] eqn:Efan.
  - unfold bind at 1 in H.
    destruct (processorUnlink (path file) w1) as [[u|e2] w2] eqn:Eun; [discriminate H|].
    injection H as <- <-.
    destruct (processorUnlinkFrom_spec (path file) 3 100 3 0%nat _ _ _ eq_refl Eun) as (_ & _ & c & -> & _).
    discriminate Hcode.
  - injection H as <- <-.
    destruct (fanOut_failure_keeps file w st _ _ _ _ _
                (rasterFormat_step env o file (Stats.size st) _) Hd Efan)
      as (H1 & H2 & evs & H3 & H4).
    exists st, evs. auto.
Qed.

Lemma magickOne_codec_failure (file : UploadedFile) (w : World) (e : JsError) (w' : World) :
  Image.magickOne env o file w = (Throw e, w') -> code e = None ->
  exists st evs,
    dir w !! path file = Some st /\ dir w' !! path file = Some st
    /\ pending w' (path file) = pending w (path file)
    /\ trace w' = trace w ++ evs /\ forallb isWrite evs = true.
Proof.
  intros H Hcode. unfold Image.magickOne in H. unfold bind at 1 in H. unfold stat at 1 in H.
  destruct (dir w !! path file) as [st|] eqn:Hd;
    [|injection H as <- _; discriminate Hcode].
  unfold bind at 1 in H.
  destruct (forEach _ _ w) as [[pfs|e1] w1] eqn:Efan.
  - unfold bind at 1 in H.
    destruct (processorUnlink (path file) w1) as [[u|e2] w2] eqn:Eun; [discriminate H|].
    injection H as <- <-.
    destruct (processorUnlinkFrom_spec (path file) 3 100 3 0%nat _ _ _ eq_refl Eun) as (_ & _ & c & -> & _).
    discriminate Hcode.
  - injection H as <- <-.
    destruct (fanOut_failure_keeps file w st _ _ _ _ _
                (magickFormat_step env o file (Stats.size st)) Hd Efan)
      as (H1 & H2 & evs & H3 & H4).
    exists st, evs. auto.
Qed.

Lemma svgToRaster_codec_failure (keep : bool) (file : UploadedFile) (w : World) (e : JsError)
    (w' : World) :
  Image.svgToRaster env o keep file w = (Throw e, w') -> code e = None ->
  exists st evs,
    dir w !! path file = Some st /\ dir w' !! path file = Some st
    /\ pending w' (path file) = pending w (path file)
    /\ trace w' = trace w ++ evs /\ forallb isWrite evs = true.
Proof.
  intros H Hcode. unfold Image.svgToRaster in H. unfold bind at 1 in H. unfold stat at 1 in H.
  destruct (dir w !! path file) as [st|] eqn:Hd;
    [|injection H as <- _; discriminate Hcode].
  unfold bind at 1 in H.
  destruct (forEach _ _ w) as [[pfs|e1] w1] eqn:Efan.
  - unfold bind at 1 in H. destruct (negb keep).
    + destruct (processorUnlink (path file) w1) as [[u|e2] w2] eqn:Eun.
      * destruct (0 <? length pfs)%nat; discriminate H.
      * injection H as <- <-.
        destruct (processorUnlinkFrom_spec (path file) 3 100 3 0%nat _ _ _ eq_refl Eun)
          as (_ & _ & c & -> & _).
        discriminate Hcode.
    + unfold ret at 1 in H. destruct (0 <? length pfs)%nat; discriminate H.
  - injection H as <- <-.
    destruct (fanOut_failure_keeps file w st _ _ _ _ _
                (svgFormat_step env o file (Stats.size st) _) Hd Efan)
      as (H1 & H2 & evs & H3 & H4).
    exists st, evs. auto.
Qed.

End Failures.

(** X4.  When a codec fails on one of the formats of a file (the error
    thrown carries no error code), in any of the three conversion
    pipelines, the file's entry is an error with the codec's message and
    the upload is left exactly as it was: still in the directory and not
    once handed to [fs.unlink]; the only calls the pipeline has made are
    the writes of the artifacts that preceded the failure. *)
Theorem codec_failure_keeps_upload (env : Env) (o : Image.Options)
    (P : UploadedFile -> M (list Image.FileResult)) (file : UploadedFile) (w : World)
    (e : JsError) (w' : World) :
  In P [ Image.rasterOne env o; Image.magickOne env o;
         Image.svgToRaster env o (Image.hasSvgFormat o) ] ->
  P file w = (Throw e, w') -> code e = None ->
  Image.attempt file (P file) w
  = (Ok [Image.Failure (originalname file) (message e)], w')
  /\ exists st evs,
       dir w !! path file = Some st /\ dir w' !! path file = Some st
       /\ pending w' (path file) = pending w (path file)
       /\ trace w' = trace w ++ evs /\ forallb isWrite evs = true
       /\ unlinksIn evs = [].
Proof.
  intros HP H Hcode. split.
  { rewrite attempt_spec. unfold Image.entriesOf. now rewrite H. }
  assert (Hnone : forall evs, forallb isWrite evs = true -> unlinksIn evs = []).
  { induction evs as [|ev evs IH]; [reflexivity|]. simpl. intros Hw.
    apply andb_true_iff in Hw. destruct Hw as [Hev Hw]. destruct ev; try discriminate Hev.
    simpl. auto. }
  assert (Hcore : exists st evs,
             dir w !! path file = Some st /\ dir w' !! path file = Some st
             /\ pending w' (path file) = pending w (path file)
             /\ trace w' = trace w ++ evs /\ forallb isWrite evs = true).
  { destruct HP as [<-|[<-|[<-|[]]]].
    - eapply rasterOne_codec_failure; eassumption.
    - eapply magickOne_codec_failure; eassumption.
    - eapply svgToRaster_codec_failure; eassumption. }
  destruct Hcore as (st & evs & H1 & H2 & H3 & H4 & H5).
  exists st, evs. auto 10.
Qed.

(** WebP is written, AVIF fails: an error entry, [cat_1.webp] left
    behind, the upload untouched. *)
Lemma codec_failure_keeps_upload_witness :
  Image.attempt jpegFile (Image.rasterOne noAvifEnv threeFormats jpegFile) jpegWorld
  = (Ok [Image.Failure "cat.jpg" "avif: unsupported"],
     snd (Image.rasterOne noAvifEnv threeFormats jpegFile jpegWorld)).
Proof.
  exact (proj1 (codec_failure_keeps_upload noAvifEnv threeFormats
                  (Image.rasterOne noAvifEnv threeFormats) jpegFile jpegWorld
                  (plainError "avif: unsupported")
                  (snd (Image.rasterOne noAvifEnv threeFormats jpegFile jpegWorld))
                  (or_introl eq_refl) eq_refl eq_refl)).
Defined.

(* ===================================================================== *)
(** * Further properties of the video command *)
(* ===================================================================== *)

Section Command.

Variable o : Video.Options.

(** No computed argument of the command starts with a dash. *)
Lemma eqb_presetOf (r p : string) : String.eqb (String "-" r) (Video.presetOf p) = false.
Proof. unfold Video.presetOf. repeat case_match; reflexivity. Qed.

Lemma eqb_crf (r b : string) :
  String.eqb (String "-" r) (Js.numToString (Video.crfOf b)) = false.
Proof. unfold Video.crfOf, Video.crfOfNum. repeat case_match; reflexivity. Qed.

Lemma eqb_scaleFilter (r : string) : String.eqb (String "-" r) (Video.scaleFilter o) = false.
Proof. unfold Video.scaleFilter. repeat case_match; reflexivity. Qed.

Lemma isX264_gif : String.eqb (Video.format o) "gif" = true -> Video.isX264 (Video.format o) = false.
Proof. intros H. apply String.eqb_eq in H. now rewrite H. Qed.

End Command.

Ltac command_cases o :=
  unfold Video.buildCommand, resizes, carries, mentionsAudio, Js.includes;
  destruct (String.eqb (Video.format o) "gif") eqn:Hgif;
  [ rewrite ?(isX264_gif o Hgif)
  | destruct (Video.isX264 (Video.format o)), (String.eqb (Video.format o) "webm"),
      (String.eqb (Video.format o) "mp4" || String.eqb (Video.format o) "mov")%bool,
      (String.eqb (Video.resizeMode o) "absolute"
       && (Js.truthy (Video.width o) || Js.truthy (Video.height o)))%bool,
      (Video.resize o =? 100), (Video.audio o) ];
  cbn -[Video.presetOf Video.crfOf Video.scaleFilter Video.gifScale Js.numToString
        Js.scaleToString String.eqb];
  rewrite ?eqb_presetOf, ?eqb_crf, ?eqb_scaleFilter;
  cbn -[Video.presetOf Video.crfOf Video.scaleFilter Video.gifScale Js.numToString
        Js.scaleToString];
  reflexivity.

(** X5.  Every command processVideo builds takes exactly one decision on
    the audio track: it either disables it ([.noAudio()]) or encodes it
    (AAC at 128k), never both and never neither; it disables it exactly
    when the format is 'gif' or the [audio] option is off. *)
Theorem command_audio_exclusive (o : Video.Options) :
  existsb isNoAudio (Video.buildCommand o)
  = (String.eqb (Video.format o) "gif" || negb (Video.audio o))%bool
  /\ existsb mentionsAudio (Video.buildCommand o)
     = negb (existsb isNoAudio (Video.buildCommand o))
  /\ List.filter mentionsAudio (Video.buildCommand o)
     = (if existsb isNoAudio (Video.buildCommand o) then []
        else [OutputOptions ["-c:a"; "aac"; "-b:a"; "128k"]]).
Proof.
  split; [command_cases o|]. split; command_cases o.
Qed.

(** X6.  A command passes at most one video filter ([-vf]) to ffmpeg, so
    that no filter displaces another: exactly one when the format is
    'gif' (the palette chain, which carries the scaling) or when the
    options ask for a change of the frame size, and none otherwise. *)
Theorem command_single_filter (o : Video.Options) :
  length (List.filter (carries "-vf") (Video.buildCommand o))
  = if (String.eqb (Video.format o) "gif" || resizes o)%bool then 1%nat else 0%nat.
Proof.
  command_cases o.
Qed.

(** X7.  The quality settings are x264's: [-crf] and [-preset] are
    passed exactly for the formats 'mp4', 'mov' and 'mkv', the bitrate
    hint is never passed to ffmpeg as a bitrate, and for every other
    format the command, and the whole of processVideo, is the same
    whatever the [bitrate] and [preset] options say. *)
Theorem quality_only_for_x264 (env : Env) (file : UploadedFile) (o : Video.Options) :
  existsb (carries "-crf") (Video.buildCommand o) = Video.isX264 (Video.format o)
  /\ existsb (carries "-preset") (Video.buildCommand o) = Video.isX264 (Video.format o)
  /\ existsb (carries "-b:v") (Video.buildCommand o) = false
  /\ (Video.isX264 (Video.format o) = false ->
      forall bitrate preset,
        Video.buildCommand (withQuality bitrate preset o) = Video.buildCommand o
        /\ Video.processVideo env file (withQuality bitrate preset o)
           = Video.processVideo env file o).
Proof.
  split; [command_cases o|]. split; [command_cases o|]. split; [command_cases o|].
  intros Hx bitrate preset.
  assert (Hcmd : Video.buildCommand (withQuality bitrate preset o) = Video.buildCommand o).
  { unfold Video.buildCommand. cbn [withQuality Video.format Video.resize Video.audio
      Video.resizeMode Video.width Video.height Video.crop Video.bitrate Video.preset].
    rewrite Hx. reflexivity. }
  split; [exact Hcmd|].
  unfold Video.processVideo. rewrite Hcmd. reflexivity.
Qed.

(** WebM ignores the bitrate hint and the preset. *)
Lemma quality_only_for_x264_witness :
  Video.buildCommand
    (withQuality "8M" "quality"
       (Video.mkOptions "webm" 100 "2M" "web" true "percent" None None "none"))
  = Video.buildCommand (Video.mkOptions "webm" 100 "2M" "web" true "percent" None None "none").
Proof.
  exact (proj1 (proj2 (proj2 (proj2
           (quality_only_for_x264 obligingEnv (mkFile "clip.mov" "file-1.mov")
              (Video.mkOptions "webm" 100 "2M" "web" true "percent" None None "none"))))
           eq_refl "8M" "quality")).
Defined.

(* ===================================================================== *)
(** * Further properties of processVideo *)
(* ===================================================================== *)

Section VideoJob.

Variable env : Env.
Variable file : UploadedFile.
Variable o : Video.Options.

Let base := Js.basenameNoExt (originalname file).

(** The job up to the run of ffmpeg, for an upload that is there and is
    not empty. *)
Lemma processVideo_runs (w : World) (st : Stats.t) :
  dir w !! path file = Some st -> Stats.size st <> 0 ->
  Video.processVideo env file o w
  = (let outputFilename := getUniqueFilenameIn w base (Video.format o) in
     let! run := Video.runFfmpeg env (path file) (Video.buildCommand o) outputFilename in
     match run with
     | Encoded _ =>
         let! out := stat outputFilename in
         unlink (path file) ;;;
         ret (Video.mkResult (originalname file) (Stats.size st) outputFilename
                (Stats.size out) (Js.percentSaved (Stats.size st) (Stats.size out))
                "success")
     | Failed msg _ =>
         tryCatch (unlink outputFilename) (fun e => ret tt) ;;;
         throw (plainError msg)
     end) w.
Proof.
  intros Hd Hsize. unfold Video.processVideo.
  rewrite (bind_ok _ _ _ _ _ (stat_present _ _ _ Hd)).
  unfold bind at 1. unfold getUniqueFilename at 1. cbv beta iota zeta.
  unfold bind at 1. unfold tryCatch at 1.
  rewrite (bind_ok _ _ _ _ _ (access_present _ _ _ Hd)).
  rewrite (bind_ok _ _ _ _ _ (stat_present _ _ _ Hd)).
  apply Z.eqb_neq in Hsize. rewrite Hsize. reflexivity.
Qed.

End VideoJob.

(** X8.  processVideo turns away an upload it cannot encode before
    anything is written and without running ffmpeg: a missing upload
    rejects with the ENOENT error of the first [fs.stat] (not with the
    'Input file not accessible' message, which that [fs.stat] pre-empts),
    an empty one with 'Input file not accessible: <path> - Input file is
    empty'; in both cases the directory and the trace are as they were. *)
Theorem processVideo_rejects_bad_input (env : Env) (file : UploadedFile) (o : Video.Options)
    (w : World) :
  (dir w !! path file = None ->
   Video.processVideo env file o w = (Throw (fsError ENOENT "stat" (path file)), w))
  /\ (forall st, dir w !! path file = Some st -> Stats.size st = 0 ->
        Video.processVideo env file o w
        = (Throw (plainError ("Input file not accessible: " +:+ path file
                              +:+ " - Input file is empty")), w)).
Proof.
  split.
  - intros Hd. unfold Video.processVideo, bind at 1, stat at 1. now rewrite Hd.
  - intros st Hd Hsize. unfold Video.processVideo.
    rewrite (bind_ok _ _ _ _ _ (stat_present _ _ _ Hd)).
    unfold bind at 1. unfold getUniqueFilename at 1. cbv beta iota zeta.
    unfold bind at 1. unfold tryCatch at 1.
    rewrite (bind_ok _ _ _ _ _ (access_present _ _ _ Hd)).
    rewrite (bind_ok _ _ _ _ _ (stat_present _ _ _ Hd)).
    rewrite Hsize. reflexivity.
Qed.

(** X9.  When ffmpeg ends well on an upload that is there and not empty,
    the output is written under the name the allocator returned, which
    differs from the upload's and was free.  If nothing holds the upload,
    the promise resolves with the record of the job (the client's name,
    both sizes, the output name, status 'success') and the upload is
    deleted, by a single plain [fs.unlink].  If the upload is held, that
    [fs.unlink] is not retried: the promise rejects with its error, and
    both the upload and the finished output stay in the directory. *)
Theorem processVideo_success (env : Env) (file : UploadedFile) (o : Video.Options)
    (w : World) (st : Stats.t) (bytes : Z) :
  let out := getUniqueFilenameIn w (Js.basenameNoExt (originalname file)) (Video.format o) in
  dir w !! path file = Some st -> Stats.size st <> 0 ->
  ffmpeg env (path file) (Video.buildCommand o) out = Encoded bytes ->
  out <> path file /\ dir w !! out = None
  /\ (pending w (path file) = [] ->
      exists w',
        Video.processVideo env file o w
        = (Ok (Video.mkResult (originalname file) (Stats.size st) out bytes
                 (Js.percentSaved (Stats.size st) bytes) "success"), w')
        /\ dir w' = delete (path file) (<[out := Stats.mk bytes (clock w) false]> (dir w))
        /\ trace w' = trace w ++ [EvWrite out bytes; EvUnlink (path file) None])
  /\ (forall c rest, pending w (path file) = c :: rest ->
      exists w',
        Video.processVideo env file o w = (Throw (fsError c "unlink" (path file)), w')
        /\ dir w' = <[out := Stats.mk bytes (clock w) false]> (dir w)
        /\ trace w' = trace w ++ [EvWrite out bytes; EvUnlink (path file) (Some c)]).
Proof.
  intros out Hd Hsize Hrun.
  assert (Hne : out <> path file) by (eapply fresh_name_differs; eassumption).
  split; [assumption|]. split; [apply getUniqueFilename_fresh|].
  pose proof (processVideo_runs env file o w st Hd Hsize) as Hjob.
  cbv zeta in Hjob. fold out in Hjob.
  unfold bind at 1 in Hjob. unfold Video.runFfmpeg at 1 in Hjob. rewrite Hrun in Hjob.
  unfold bind at 1 in Hjob. unfold writeFile at 1, modify at 1 in Hjob.
  unfold ret at 1 in Hjob. cbv beta iota in Hjob.
  set (w1 := emit (EvWrite out bytes) _) in Hjob.
  assert (Hout : dir w1 !! out = Some (Stats.mk bytes (clock w) false))
    by (unfold w1; simpl; apply lookup_insert_eq).
  assert (Hup : dir w1 !! path file = Some st)
    by (unfold w1; simpl; rewrite lookup_insert_ne; assumption).
  rewrite (bind_ok _ _ _ _ _ (stat_present _ _ _ Hout)) in Hjob.
  split.
  - intros Hq. assert (Hq1 : pending w1 (path file) = []) by exact Hq.
    unfold bind at 1 in Hjob. rewrite (unlink_present _ _ _ Hq1 Hup) in Hjob.
    eexists. split; [exact Hjob|]. split; [reflexivity|].
    simpl. now rewrite <- app_assoc.
  - intros c rest Hq. assert (Hq1 : pending w1 (path file) = c :: rest) by exact Hq.
    unfold bind at 1 in Hjob. rewrite (unlink_fault _ _ _ _ Hq1) in Hjob.
    eexists. split; [exact Hjob|]. split; [reflexivity|].
    simpl. now rewrite <- app_assoc.
Qed.

(** [holiday.mp4] exists already: the clip is written as
    [holiday_1.mp4]. *)
Lemma processVideo_success_witness :
  exists w',
    Video.processVideo obligingEnv clip Video.defaults clipWorld
    = (Ok (Video.mkResult "holiday.mov" 900 "holiday_1.mp4" 70 "92.22" "success"), w').
Proof.
  destruct (processVideo_success obligingEnv clip Video.defaults clipWorld
              (Stats.mk 900 0 false) 70 eq_refl ltac:(discriminate) eq_refl)
    as (_ & _ & Hfree & _).
  destruct (Hfree eq_refl) as (w' & Hrun & _). exists w'. exact Hrun.
Defined.

(** X10.  When ffmpeg fails on an upload that is there and not empty,
    the promise rejects with ffmpeg's own error; the upload is kept and
    is not handed to [fs.unlink]; the one [fs.unlink] made is that of the
    output path, whose failure is ignored, so that, when nothing holds
    that path, whatever part of the output had been written is removed
    and the directory is as it was before the job. *)
Theorem processVideo_failure (env : Env) (file : UploadedFile) (o : Video.Options)
    (w : World) (st : Stats.t) (msg : string) (partial : option Z) :
  let out := getUniqueFilenameIn w (Js.basenameNoExt (originalname file)) (Video.format o) in
  dir w !! path file = Some st -> Stats.size st <> 0 ->
  ffmpeg env (path file) (Video.buildCommand o) out = Failed msg partial ->
  out <> path file
  /\ exists w' evs,
       Video.processVideo env file o w = (Throw (plainError msg), w')
       /\ dir w' !! path file = Some st
       /\ pending w' (path file) = pending w (path file)
       /\ trace w' = trace w ++ evs
       /\ map fst (unlinksIn evs) = [out]
       /\ (pending w out = [] -> dir w' = dir w).
Proof.
  intros out Hd Hsize Hrun.
  assert (Hne : out <> path file) by (eapply fresh_name_differs; eassumption).
  split; [exact Hne|].
  assert (Hfree : dir w !! out = None) by apply getUniqueFilename_fresh.
  pose proof (processVideo_runs env file o w st Hd Hsize) as Hjob.
  cbv zeta in Hjob. fold out in Hjob.
  unfold bind at 1 in Hjob. unfold Video.runFfmpeg at 1 in Hjob. rewrite Hrun in Hjob.
  destruct partial as [bytes|].
  - unfold bind at 1 in Hjob. unfold writeFile at 1, modify at 1 in Hjob.
    unfold ret at 1 in Hjob. cbv beta iota in Hjob.
    set (w1 := emit (EvWrite out bytes) _) in Hjob.
    assert (Hout : dir w1 !! out = Some (Stats.mk bytes (clock w) false))
      by (unfold w1; simpl; apply lookup_insert_eq).
    unfold bind at 1, tryCatch at 1 in Hjob.
    destruct (pending w out) as [|c rest] eqn:Hq.
    + assert (Hq1 : pending w1 out = []) by exact Hq.
      rewrite (unlink_present _ _ _ Hq1 Hout) in Hjob.
      eexists _, [EvWrite out bytes; EvUnlink out None].
      split; [exact Hjob|]. simpl.
      rewrite lookup_delete_ne, lookup_insert_ne by assumption.
      split; [assumption|]. split; [reflexivity|].
      split; [now rewrite <- app_assoc|]. split; [reflexivity|].
      intros _. now apply delete_insert_id.
    + assert (Hq1 : pending w1 out = c :: rest) by exact Hq.
      rewrite (unlink_fault _ _ _ _ Hq1) in Hjob.
      eexists _, [EvWrite out bytes; EvUnlink out (Some c)].
      split; [exact Hjob|]. simpl.
      rewrite lookup_insert_ne by assumption.
      split; [assumption|]. split.
      { unfold pending. simpl. rewrite lookup_insert_ne by assumption. reflexivity. }
      split; [now rewrite <- app_assoc|]. split; [reflexivity|]. discriminate.
  - unfold ret at 1, bind at 1 in Hjob. unfold tryCatch at 1 in Hjob.
    destruct (pending w out) as [|c rest] eqn:Hq.
    + rewrite (unlink_absent _ _ Hq Hfree) in Hjob.
      eexists _, [EvUnlink out (Some ENOENT)].
      split; [exact Hjob|]. simpl. auto 10.
    + rewrite (unlink_fault _ _ _ _ Hq) in Hjob.
      eexists _, [EvUnlink out (Some c)].
      split; [exact Hjob|]. simpl.
      split; [assumption|]. split.
      { unfold pending. simpl. rewrite lookup_insert_ne by assumption. reflexivity. }
      split; [reflexivity|]. split; [reflexivity|]. discriminate.
Qed.

(** ffmpeg fails after twelve bytes of [holiday_1.mp4]: the directory is
    left as it was. *)
Lemma processVideo_failure_witness :
  exists w',
    Video.processVideo failingEnv clip Video.defaults clipWorld
    = (Throw (plainError "ffmpeg exited with code 1"), w')
    /\ dir w' = dir clipWorld.
Proof.
  destruct (processVideo_failure failingEnv clip Video.defaults clipWorld
              (Stats.mk 900 0 false) "ffmpeg exited with code 1" (Some 12)
              eq_refl ltac:(discriminate) eq_refl)
    as (_ & w' & evs & Hrun & _ & _ & _ & _ & Hdir).
  exists w'. split; [exact Hrun | exact (Hdir eq_refl)].
Defined.

(* ===================================================================== *)
(** * Further properties of optimizeSVGs *)
(* ===================================================================== *)

(** X11.  The optimization of one SVG.  When it succeeds, its one
    artifact is of format 'svg', has the size SVGO produced and is
    written under a name that was free, hence never over the upload, even
    when the upload is stored under the client's own name (the test
    [file.path !== outputPath] always passes); the upload is then handed
    to the deleter, and is gone unless it stayed busy through the three
    attempts.  When SVGO fails on an upload that is there, the error is
    SVGO's and nothing has been written or deleted. *)
Theorem optimize_fresh_output (env : Env) (o : Image.Options) (file : UploadedFile)
    (w : World) :
  let out := getUniqueFilenameIn w (Js.basenameNoExt (originalname file)) "svg" in
  (forall r w', Image.optimizeOne env o file w = (Ok r, w') ->
     exists st bytes,
       dir w !! path file = Some st
       /\ svgo env (path file) (Image.svgoConfig o) = inr bytes
       /\ r = Image.Success (originalname file) (Stats.size st)
                [Image.mkProcessed "svg" out bytes (Image.savingsOf (Stats.size st) bytes)]
                None
       /\ out <> path file /\ dir w !! out = None
       /\ dir w' !! out = Some (Stats.mk bytes (clock w) false)
       /\ (dir w' !! path file = None
           \/ (dir w' !! path file = Some st
               /\ forallb busyCode (take 3 (pending w (path file))) = true
               /\ (3 <= length (pending w (path file)))%nat)))
  /\ (forall st msg, dir w !! path file = Some st ->
        svgo env (path file) (Image.svgoConfig o) = inl msg ->
        Image.optimizeOne env o file w = (Throw (plainError msg), w)).
Proof.
  intros out. split.
  - intros r w' H. unfold Image.optimizeOne in H.
    unfold bind at 1, stat at 1 in H.
    destruct (dir w !! path file) as [st|] eqn:Hd; [|discriminate H].
    rewrite (bind_ok _ _ _ _ _ (access_present _ _ _ Hd)) in H.
    unfold bind at 1 in H.
    destruct (svgo env (path file) (Image.svgoConfig o)) as [msg|bytes] eqn:Hsvgo;
      [discriminate H|].
    unfold ret at 1 in H. unfold bind at 1, getUniqueFilename at 1 in H. fold out in H.
    unfold bind at 1, writeFile at 1, modify at 1 in H.
    set (w1 := emit (EvWrite out bytes) _) in H.
    assert (Hne : out <> path file) by (eapply fresh_name_differs; eassumption).
    assert (Hout : dir w1 !! out = Some (Stats.mk bytes (clock w) false))
      by (unfold w1; simpl; apply lookup_insert_eq).
    assert (Hup : dir w1 !! path file = Some st)
      by (unfold w1; simpl; rewrite lookup_insert_ne; assumption).
    rewrite (bind_ok _ _ _ _ _ (stat_present _ _ _ Hout)) in H.
    assert (Hneq : String.eqb (path file) out = false)
      by (apply String.eqb_neq; congruence).
    rewrite Hneq in H. cbn [negb] in H. unfold bind at 1 in H.
    destruct (processorUnlink (path file) w1) as [[u|e] w2] eqn:Eun; [|discriminate H].
    injection H as <- <-.
    destruct (processorUnlinkFrom_spec (path file) 3 100 3 0%nat _ _ _ eq_refl Eun)
      as (Hothers & Hself).
    exists st, bytes. split; [reflexivity|]. split; [reflexivity|].
    split; [reflexivity|]. split; [assumption|].
    split; [apply getUniqueFilename_fresh|].
    split; [rewrite Hothers; assumption|].
    change (pending w1 (path file)) with (pending w (path file)) in Hself.
    rewrite Hup in Hself.
    destruct Hself as [[_ Hgone]|(Hstay & Hlen & Hbusy)]; [now left | right; auto].
  - intros st msg Hd Hsvgo. unfold Image.optimizeOne.
    rewrite (bind_ok _ _ _ _ _ (stat_present _ _ _ Hd)).
    rewrite (bind_ok _ _ _ _ _ (access_present _ _ _ Hd)).
    unfold bind at 1. now rewrite Hsvgo.
Qed.

(** [logo.svg] stored as [logo.svg]: the optimized file is
    [logo_1.svg], and the upload is deleted. *)
Lemma optimize_fresh_output_witness :
  exists w',
    Image.optimizeOne obligingEnv bothFormats sameNameSvg sameNameWorld
    = (Ok (Image.Success "logo.svg" 100 [Image.mkProcessed "svg" "logo_1.svg" 60 "40.00"] None),
       w')
    /\ dir w' !! "logo.svg" = None.
Proof.
  destruct (proj1 (optimize_fresh_output obligingEnv bothFormats sameNameSvg sameNameWorld)
              (Image.Success "logo.svg" 100 [Image.mkProcessed "svg" "logo_1.svg" 60 "40.00"]
                 None)
              (snd (Image.optimizeOne obligingEnv bothFormats sameNameSvg sameNameWorld))
              eq_refl)
    as (st & bytes & Hst & _ & _ & _ & _ & _ & Hup).
  exists (snd (Image.optimizeOne obligingEnv bothFormats sameNameSvg sameNameWorld)).
  split; [vm_compute; reflexivity|].
  destruct Hup as [Hgone|(_ & _ & Hlen)]; [exact Hgone | vm_compute in Hlen; lia].
Defined.

(* ===================================================================== *)
(** * Further properties of the sweeps *)
(* ===================================================================== *)

Section Verdict.

Variables (p : string) (retries : nat) (delay : Z).

(** The deleter answers true when [fs.unlink] goes through within the
    iterations left, and otherwise only when it met ENOENT. *)
Lemma safeUnlinkFrom_yields (n : nat) :
  forall (i : nat) (w : World),
    (i + n = retries)%nat ->
    ((length (pending w p) <? n)%nat && forallb busyCode (pending w p))%bool = true ->
    fst (safeUnlinkFrom n p retries delay i w) = Ok true.
Proof.
  induction n as [|n IH]; intros i w Hi Hc.
  - apply andb_true_iff in Hc. destruct Hc as [Hc _]. apply Nat.ltb_lt in Hc. lia.
  - cbn [safeUnlinkFrom]. unfold bind.
    destruct (pending w p) as [|c rest] eqn:Hq.
    + destruct (dir w !! p) as [st|] eqn:Hd.
      * now rewrite (attempt_present p retries delay w i st Hq Hd).
      * now rewrite (attempt_absent p retries delay w i Hq Hd).
    + apply andb_true_iff in Hc. destruct Hc as [Hlen Hb].
      cbn [forallb] in Hb. apply andb_true_iff in Hb. destruct Hb as [Hc Hb].
      apply Nat.ltb_lt in Hlen. cbn [length] in Hlen.
      rewrite (attempt_busy p retries delay w i c rest Hq Hc).
      destruct (i <? retries - 1)%nat eqn:E.
      * apply IH; [lia|]. rewrite pending_slept, pending_failedUnlink, Hq. cbn [tail].
        rewrite Hb, andb_true_r. apply Nat.ltb_lt. lia.
      * apply Nat.ltb_ge in E. lia.
Qed.

Lemma safeUnlinkFrom_true_inv (n : nat) :
  forall (i : nat) (w : World),
    (i + n = retries)%nat ->
    fst (safeUnlinkFrom n p retries delay i w) = Ok true ->
    ((length (pending w p) <? n)%nat && forallb busyCode (pending w p))%bool = true
    \/ ENOENT ∈ pending w p.
Proof.
  induction n as [|n IH]; intros i w Hi H.
  - discriminate H.
  - cbn [safeUnlinkFrom] in H. unfold bind in H.
    destruct (pending w p) as [|c rest] eqn:Hq; [now left|].
    destruct (busyCode c) eqn:Hc.
    + rewrite (attempt_busy p retries delay w i c rest Hq Hc) in H.
      destruct (i <? retries - 1)%nat eqn:E; [|discriminate H].
      apply IH in H; [|lia].
      rewrite pending_slept, pending_failedUnlink, Hq in H. cbn [tail] in H.
      destruct H as [H|H].
      * left. cbn [forallb length]. rewrite Hc. exact H.
      * right. now apply list_elem_of_further.
    + rewrite (attempt_other p retries delay w i c rest Hq Hc) in H.
      destruct (bool_decide (c = ENOENT)) eqn:Hno; [|discriminate H].
      apply bool_decide_eq_true in Hno. subst c. right. apply list_elem_of_here.
Qed.

End Verdict.

Section Counting.

Variable now : Z.

(** One iteration of the sweep on an entry of the directory. *)
Lemma cleanupFile_counts (file : string) (acc : CleanupReport) (w : World) (st : Stats.t) :
  dir w !! file = Some st ->
  exists acc' w',
    cleanupFile now file acc w = (Ok acc', w')
    /\ (forall q, q <> file -> dir w' !! q = dir w !! q /\ pending w' q = pending w q)
    /\ dir w' !! file = (if removable now w (file, st) then None else Some st)
    /\ (cleaned acc' + errors acc'
        = cleaned acc + errors acc + (if due now (file, st) then 1 else 0))%nat
    /\ (cleaned acc + (if removable now w (file, st) then 1 else 0) <= cleaned acc')%nat
    /\ (ENOENT ∉ pending w file ->
        cleaned acc' = (cleaned acc + (if removable now w (file, st) then 1 else 0))%nat).
Proof.
  intros Hd. unfold removable, due, yields, expired. cbn [fst snd].
  unfold cleanupFile, tryCatch, bind, stat. rewrite Hd.
  destruct (Stats.isDirectory st) eqn:Hdir; cbn [negb andb].
  { exists acc, w. repeat split; auto; lia. }
  rewrite Z.gtb_ltb. fold FILE_EXPIRY_MS.
  destruct (FILE_EXPIRY_MS <? now - Stats.mtimeMs st) eqn:Hage; cbn [andb].
  2:{ exists acc, w. repeat split; auto; lia. }
  pose proof (safeUnlinkFrom_self file 3 100 3 0 w eq_refl) as Hself.
  pose proof (safeUnlinkFrom_yields file 3 100 3 0 w eq_refl) as Hyes.
  pose proof (safeUnlinkFrom_true_inv file 3 100 3 0 w eq_refl) as Hinv.
  assert (Hframe : forall q, q <> file ->
            dir (snd (safeUnlink file 3 100 w)) !! q = dir w !! q
            /\ pending (snd (safeUnlink file 3 100 w)) q = pending w q).
  { intros q Hq.
    destruct (Untouched_safeUnlinkFrom q file 3 100 3 (not_eq_sym Hq) 0 w)
      as (evs' & _ & _ & Hd' & Hp').
    auto. }
  fold (safeUnlink file 3 100 w) in Hself, Hyes, Hinv. rewrite Hd in Hself.
  destruct ((length (pending w file) <? 3)%nat && forallb busyCode (pending w file))%bool
    eqn:Hy.
  - specialize (Hyes eq_refl).
    destruct (safeUnlink file 3 100 w) as [[[|]|e] w1]; simpl in Hyes; try discriminate Hyes.
    do 2 eexists. split; [reflexivity|]. simpl. simpl in Hself, Hframe.
    repeat split; auto; try apply Hframe; auto; lia.
  - destruct (safeUnlink file 3 100 w) as [[[|]|e] w1]; simpl in Hself, Hframe, Hinv.
    + do 2 eexists. split; [reflexivity|]. simpl.
      split; [assumption|]. split; [assumption|]. split; [lia|]. split; [lia|].
      intros Hno. destruct (Hinv eq_refl) as [?|?]; [discriminate | contradiction].
    + do 2 eexists. split; [reflexivity|]. simpl.
      split; [assumption|]. split; [assumption|]. split; [lia|]. split; lia.
    + do 2 eexists. split; [reflexivity|]. simpl.
      split; [assumption|]. split; [assumption|]. split; [lia|]. split; lia.
Qed.

Lemma removable_frame (w w1 : World) (l : list (string * Stats.t)) :
  (forall q st, (q, st) ∈ l -> pending w1 q = pending w q) ->
  List.filter (removable now w1) l = List.filter (removable now w) l.
Proof.
  intros H. apply List.filter_ext_in. intros [q st] Hin.
  apply list_elem_of_In in Hin. unfold removable. cbn [fst]. now rewrite (H q st Hin).
Qed.

(** The loop of the sweep over entries of the directory. *)
Lemma cleanupLoop_counts (l : list (string * Stats.t)) :
  NoDup l.*1 ->
  forall (acc : CleanupReport) (w : World),
    (forall q st, (q, st) ∈ l -> dir w !! q = Some st) ->
    exists acc' w',
      cleanupLoop now l.*1 acc w = (Ok acc', w')
      /\ (forall q, q ∉ l.*1 -> dir w' !! q = dir w !! q /\ pending w' q = pending w q)
      /\ (forall q st, (q, st) ∈ l ->
            dir w' !! q = if removable now w (q, st) then None else Some st)
      /\ (cleaned acc' + errors acc'
          = cleaned acc + errors acc + length (List.filter (due now) l))%nat
      /\ (cleaned acc + length (List.filter (removable now w) l) <= cleaned acc')%nat
      /\ ((forall q st, (q, st) ∈ l -> ENOENT ∉ pending w q) ->
          cleaned acc' = (cleaned acc + length (List.filter (removable now w) l))%nat).
Proof.
  induction l as [|[f st] l IH]; intros Hnd acc w Hall.
  - exists acc, w. split; [reflexivity|]. split; [auto|].
    split; [intros q st' Hin; now apply elem_of_nil in Hin|]. simpl. repeat split; lia.
  - rewrite fmap_cons in Hnd |- *. cbn [fst] in Hnd |- *.
    apply NoDup_cons in Hnd. destruct Hnd as [Hnotin Hnd].
    cbn [cleanupLoop]. unfold bind at 1.
    destruct (cleanupFile_counts f acc w st (Hall f st (list_elem_of_here _ _)))
      as (acc1 & w1 & -> & Hother1 & Hself1 & Hsum1 & Hle1 & Heq1).
    assert (Hne : forall q st', (q, st') ∈ l -> q <> f).
    { intros q st' Hin ->. apply Hnotin. apply list_elem_of_fmap. now exists (f, st'). }
    assert (Hall1 : forall q st', (q, st') ∈ l -> dir w1 !! q = Some st').
    { intros q st' Hin. rewrite (proj1 (Hother1 q (Hne q st' Hin))).
      apply Hall. now apply list_elem_of_further. }
    destruct (IH Hnd acc1 w1 Hall1) as (acc2 & w2 & -> & Hother2 & Hin2 & Hsum2 & Hle2 & Heq2).
    assert (Hfr : List.filter (removable now w1) l = List.filter (removable now w) l).
    { apply removable_frame. intros q st' Hin. apply (Hother1 q (Hne q st' Hin)). }
    rewrite Hfr in Hle2, Heq2.
    exists acc2, w2. split; [reflexivity|]. split; [|split; [|split; [|split]]].
    + intros q Hq. apply not_elem_of_cons in Hq. destruct Hq as [Hqf Hq].
      destruct (Hother1 q Hqf) as [E1 E2]. destruct (Hother2 q Hq) as [E3 E4].
      split; congruence.
    + intros q st' Hin. apply elem_of_cons in Hin. destruct Hin as [Heq|Hin].
      * injection Heq as -> ->. rewrite (proj1 (Hother2 f Hnotin)). exact Hself1.
      * rewrite (Hin2 q st' Hin). unfold removable. cbn [fst].
        now rewrite (proj2 (Hother1 q (Hne q st' Hin))).
    + cbn [List.filter]. destruct (due now (f, st)); cbn [length]; lia.
    + cbn [List.filter]. destruct (removable now w (f, st)); cbn [length]; lia.
    + intros Hno. cbn [List.filter].
      assert (H1 : ENOENT ∉ pending w f) by (apply (Hno f st); apply list_elem_of_here).
      assert (H2 : forall q st', (q, st') ∈ l -> ENOENT ∉ pending w1 q).
      { intros q st' Hin. rewrite (proj2 (Hother1 q (Hne q st' Hin))).
        apply (Hno q st'). now apply list_elem_of_further. }
      specialize (Heq1 H1). specialize (Heq2 H2).
      destruct (removable now w (f, st)); cbn [length]; lia.
Qed.

End Counting.

Lemma gone_removable (now : Z) (w w' : World) (l : list (string * Stats.t)) :
  (forall q st, (q, st) ∈ l ->
     dir w' !! q = if removable now w (q, st) then None else Some st) ->
  List.filter (gone w') l = List.filter (removable now w) l.
Proof.
  intros H. apply List.filter_ext_in. intros [q st] Hin.
  apply list_elem_of_In in Hin. unfold gone. cbn [fst]. rewrite (H q st Hin).
  destruct (removable now w (q, st)); [now apply bool_decide_eq_true | now apply bool_decide_eq_false].
Qed.

(** The names of a listing under which there is nothing to read. *)
Lemma vanished_absent (w : World) (q : string) : q ∈ vanished w -> dir w !! q = None.
Proof.
  unfold vanished. intros H. apply elem_of_elements, elem_of_difference in H.
  destruct H as [_ H]. now apply not_elem_of_dom.
Qed.

Lemma vanished_not_entry (w : World) (q : string) :
  q ∈ vanished w -> q ∉ (map_to_list (dir w)).*1.
Proof.
  intros Hv Hq. apply vanished_absent in Hv. apply list_elem_of_fmap in Hq.
  destruct Hq as ([q' st] & -> & Hin). apply elem_of_map_to_list in Hin.
  cbn [fst] in Hv. congruence.
Qed.

Lemma cleanupLoop_app (now : Z) (l1 l2 : list string) :
  forall acc w,
    cleanupLoop now (l1 ++ l2) acc w
    = bind (cleanupLoop now l1 acc) (fun acc' => cleanupLoop now l2 acc') w.
Proof.
  induction l1 as [|f l1 IH]; intros acc w; [reflexivity|].
  cbn [app cleanupLoop]. unfold bind in *.
  destruct (cleanupFile now f acc w) as [[acc1|e] w1]; [apply IH | reflexivity].
Qed.

(** A name on which [fs.stat] fails is counted under [errors], and
    nothing is done. *)
Lemma cleanupLoop_absent (now : Z) (names : list string) :
  forall acc w,
    (forall q, q ∈ names -> dir w !! q = None) ->
    cleanupLoop now names acc w
    = (Ok (mkReport (cleaned acc) (errors acc + length names)), w).
Proof.
  induction names as [|f names IH]; intros acc w Hall.
  - cbn [cleanupLoop length]. unfold ret. rewrite Nat.add_0_r. now destruct acc.
  - cbn [cleanupLoop]. unfold bind at 1. unfold cleanupFile, tryCatch, bind, stat.
    rewrite (Hall f (list_elem_of_here _ _)). unfold ret at 1.
    rewrite IH by (intros q Hq; apply Hall; now apply list_elem_of_further).
    cbn [cleaned errors length]. do 3 f_equal. lia.
Qed.

(** X12.  The report of a sweep accounts for every expired regular file
    and for every name of the listing on which [fs.stat] fails (an entry
    that has vanished since the listing, a dangling link), once each, and
    for nothing else: [cleaned + errors] is the number of regular files of
    the directory past the expiry time plus the number of such names,
    each of which is counted under [errors] (sub-directories and younger
    files are never counted).  [cleaned] is at least the number of entries
    that the sweep removed, and is exactly that number unless some
    [fs.unlink] met ENOENT, which the deleter counts as a deletion. *)
Theorem sweep_report_accounts (w : World) :
  dirExists w = true ->
  exists r w',
    cleanupExpiredFiles w = (Ok r, w')
    /\ (cleaned r + errors r
        = length (List.filter (due (clock w)) (map_to_list (dir w)))
          + length (vanished w))%nat
    /\ (length (vanished w) <= errors r)%nat
    /\ (length (List.filter (gone w') (map_to_list (dir w))) <= cleaned r)%nat
    /\ ((forall q, ENOENT ∉ pending w q) ->
        cleaned r = length (List.filter (gone w') (map_to_list (dir w)))).
Proof.
  intros H. unfold cleanupExpiredFiles, tryCatch. rewrite H.
  unfold bind at 1. unfold readdir. rewrite H. unfold bind at 1. unfold get.
  unfold listing. rewrite cleanupLoop_app. unfold bind at 1.
  destruct (cleanupLoop_counts (clock w) (map_to_list (dir w)) (NoDup_fst_map_to_list _)
              (mkReport 0 0) w)
    as (r & w' & -> & Hout & Hin & Hsum & Hle & Heq).
  { intros q st. apply elem_of_map_to_list. }
  rewrite cleanupLoop_absent.
  2:{ intros q Hq. rewrite (proj1 (Hout q (vanished_not_entry w q Hq))).
      now apply vanished_absent. }
  rewrite <- (gone_removable _ _ _ _ Hin) in Hle, Heq.
  eexists _, w'. split; [reflexivity|]. cbn [cleaned errors] in *.
  split; [lia|]. split; [lia|]. split; [exact Hle|].
  intros Hno. apply Heq. intros q st _. apply Hno.
Qed.

(** Two expired files, one of them held through the three attempts, a
    younger file, a sub-directory, and a name of the listing that has
    vanished: one cleaned, two errors. *)
Lemma sweep_report_accounts_witness :
  exists w', cleanupExpiredFiles (withStale ["tmp-upload"] mixedWorld) = (Ok (mkReport 1 2), w').
Proof.
  destruct (sweep_report_accounts (withStale ["tmp-upload"] mixedWorld) eq_refl)
    as (r & w' & Hrun & _).
  exists w'. rewrite Hrun. f_equal. vm_compute in Hrun. now injection Hrun as <- _.
Defined.

(** clearAllUploads is a sweep for which every file has expired. *)
Lemma clearFile_late (now : Z) (file : string) (acc : CleanupReport) (w : World) (st : Stats.t) :
  dir w !! file = Some st -> expired now st = true ->
  clearFile file (asCleared acc) w = mapOk asCleared (cleanupFile now file acc w).
Proof.
  intros Hd Hexp. unfold clearFile, cleanupFile, tryCatch, bind, stat. rewrite Hd.
  destruct (Stats.isDirectory st); [reflexivity|].
  unfold expired in Hexp. rewrite Z.gtb_ltb. fold FILE_EXPIRY_MS. rewrite Hexp.
  now destruct (safeUnlink file 3 100 w) as [[[|]|e] w1].
Qed.

Lemma clearLoop_late (now : Z) (l : list (string * Stats.t)) :
  NoDup l.*1 ->
  forall (acc : CleanupReport) (w : World),
    (forall q st, (q, st) ∈ l -> dir w !! q = Some st /\ expired now st = true) ->
    clearLoop l.*1 (asCleared acc) w = mapOk asCleared (cleanupLoop now l.*1 acc w).
Proof.
  induction l as [|[f st] l IH]; intros Hnd acc w Hall; [reflexivity|].
  rewrite fmap_cons in Hnd |- *. cbn [fst] in Hnd |- *.
  apply NoDup_cons in Hnd. destruct Hnd as [Hnotin Hnd].
  cbn [clearLoop cleanupLoop]. unfold bind.
  destruct (Hall f st (list_elem_of_here _ _)) as [Hd Hexp].
  rewrite (clearFile_late now f acc w st Hd Hexp).
  destruct (cleanupFile_counts now f acc w st Hd) as (acc1 & w1 & -> & Hother1 & _).
  cbn [mapOk]. apply IH; [assumption|].
  intros q st' Hin.
  assert (Hne : q <> f).
  { intros ->. apply Hnotin. apply list_elem_of_fmap. now exists (f, st'). }
  rewrite (proj1 (Hother1 q Hne)). apply Hall. now apply list_elem_of_further.
Qed.

Lemma exists_late (l : list (string * Stats.t)) :
  exists now, forall q st, (q, st) ∈ l -> expired now st = true.
Proof.
  induction l as [|[f st] l (now & IH)].
  - exists 0. intros q st Hin. now apply elem_of_nil in Hin.
  - exists (Z.max now (FILE_EXPIRY_MS + Stats.mtimeMs st + 1)).
    intros q st' Hin. apply elem_of_cons in Hin. unfold expired. apply Z.ltb_lt.
    destruct Hin as [Heq|Hin].
    + injection Heq as -> ->. lia.
    + specialize (IH q st' Hin). unfold expired in IH. apply Z.ltb_lt in IH. lia.
Qed.

Lemma clearLoop_app (l1 l2 : list string) :
  forall acc w,
    clearLoop (l1 ++ l2) acc w
    = bind (clearLoop l1 acc) (fun acc' => clearLoop l2 acc') w.
Proof.
  induction l1 as [|f l1 IH]; intros acc w; [reflexivity|].
  cbn [app clearLoop]. unfold bind in *.
  destruct (clearFile f acc w) as [[acc1|e] w1]; [apply IH | reflexivity].
Qed.

Lemma clearLoop_absent (names : list string) :
  forall acc w,
    (forall q, q ∈ names -> dir w !! q = None) ->
    clearLoop names acc w
    = (Ok (Clear.mk (Clear.cleared acc) (Clear.errors acc + length names)), w).
Proof.
  induction names as [|f names IH]; intros acc w Hall.
  - cbn [clearLoop length]. unfold ret. rewrite Nat.add_0_r. now destruct acc.
  - cbn [clearLoop]. unfold bind at 1. unfold clearFile, tryCatch, bind, stat.
    rewrite (Hall f (list_elem_of_here _ _)). unfold ret at 1.
    rewrite IH by (intros q Hq; apply Hall; now apply list_elem_of_further).
    cbn [Clear.cleared Clear.errors length]. do 3 f_equal. lia.
Qed.

(** X13.  clearAllUploads, whatever the age of the files: every regular
    file of the uploads directory on which [fs.unlink] goes through
    within the three attempts of the deleter is removed, every other
    entry (a sub-directory, a file that stays busy) is left as it was, and
    nothing is created; [cleared + errors] is the number of regular files
    plus the number of names of the listing on which [fs.stat] fails,
    each of which is counted under [errors], and [cleared] is at least
    the number of entries removed.  So, when no file is held, the
    directory is left with its sub-directories only and the report is
    [{cleared: <number of regular files>, errors: <number of names on
    which fs.stat fails>}].  When the uploads directory does not exist the
    report is [{cleared: 0, errors: 0}] and nothing is done. *)
Theorem clearAllUploads_effect (w : World) :
  (dirExists w = false -> clearAllUploads w = (Ok (Clear.mk 0 0), w))
  /\ (dirExists w = true ->
      exists r w',
        clearAllUploads w = (Ok r, w')
        /\ (forall q,
              dir w' !! q
              = match dir w !! q with
                | Some st =>
                    if (regular (q, st) && yields (pending w q))%bool then None else Some st
                | None => None
                end)
        /\ (Clear.cleared r + Clear.errors r
            = length (List.filter regular (map_to_list (dir w))) + length (vanished w))%nat
        /\ (length (vanished w) <= Clear.errors r)%nat
        /\ (length (List.filter (gone w') (map_to_list (dir w))) <= Clear.cleared r)%nat
        /\ ((forall q, pending w q = []) ->
            r = Clear.mk (length (List.filter regular (map_to_list (dir w))))
                  (length (vanished w))
            /\ forall q st,
                 dir w' !! q = Some st
                 <-> dir w !! q = Some st /\ Stats.isDirectory st = true)).
Proof.
  split.
  - intros H. unfold clearAllUploads, tryCatch. now rewrite H.
  - intros H. unfold clearAllUploads, tryCatch. rewrite H.
    unfold bind at 1. unfold readdir. rewrite H.
    set (l := map_to_list (dir w)).
    assert (Hl : forall q st, (q, st) ∈ l -> dir w !! q = Some st)
      by (intros q st; apply elem_of_map_to_list).
    destruct (exists_late l) as (now & Hlate).
    change (Clear.mk 0 0) with (asCleared (mkReport 0 0)).
    unfold listing. fold l. rewrite clearLoop_app. unfold bind at 1.
    rewrite (clearLoop_late now l (NoDup_fst_map_to_list _) (mkReport 0 0) w)
      by (intros q st Hin; split; [now apply Hl | now apply (Hlate q st)]).
    destruct (cleanupLoop_counts now l (NoDup_fst_map_to_list _) (mkReport 0 0) w Hl)
      as (r & w' & -> & Hout & Hin & Hsum & Hle & Heq).
    cbn [mapOk].
    rewrite clearLoop_absent.
    2:{ intros q Hq. rewrite (proj1 (Hout q (vanished_not_entry w q Hq))).
        now apply vanished_absent. }
    assert (Hdue : forall q st, (q, st) ∈ l -> due now (q, st) = regular (q, st)).
    { intros q st Hqs. unfold due, regular. cbn [snd]. rewrite (Hlate q st Hqs).
      apply andb_true_r. }
    assert (Hdir : forall q,
              dir w' !! q
              = match dir w !! q with
                | Some st =>
                    if (regular (q, st) && yields (pending w q))%bool then None else Some st
                | None => None
                end).
    { intros q. destruct (dir w !! q) as [st|] eqn:Hd.
      - assert (Hqs : (q, st) ∈ l) by now apply elem_of_map_to_list.
        rewrite (Hin q st Hqs). unfold removable. now rewrite (Hdue q st Hqs).
      - assert (Hq : q ∉ l.*1).
        { intros Hq. apply list_elem_of_fmap in Hq. destruct Hq as ([q' st] & -> & Hqs).
          apply Hl in Hqs. cbn [fst] in Hd. congruence. }
        rewrite (proj1 (Hout q Hq)). exact Hd. }
    assert (Hregular : List.filter (due now) l = List.filter regular l).
    { apply List.filter_ext_in. intros [q st] Hqs. apply list_elem_of_In in Hqs.
      now apply Hdue. }
    rewrite Hregular in Hsum. rewrite <- (gone_removable _ _ _ _ Hin) in Hle, Heq.
    eexists _, w'. split; [reflexivity|]. split; [exact Hdir|].
    cbn [asCleared Clear.cleared Clear.errors cleaned errors] in *.
    split; [lia|]. split; [lia|]. split; [exact Hle|].
    intros Hfree.
    assert (Hall : List.filter (gone w') l = List.filter regular l).
    { apply List.filter_ext_in. intros [q st] Hqs. apply list_elem_of_In in Hqs.
      unfold gone. cbn [fst]. rewrite Hdir, (Hl q st Hqs), Hfree. unfold yields. cbn.
      rewrite andb_true_r.
      destruct (regular (q, st));
        [now apply bool_decide_eq_true | now apply bool_decide_eq_false]. }
    split.
    + assert (Hc : cleaned r = (0 + length (List.filter (gone w') l))%nat)
        by (apply Heq; intros q st _; rewrite Hfree; apply not_elem_of_nil).
      rewrite Hall in Hc. f_equal; lia.
    + intros q st. rewrite Hdir. destruct (dir w !! q) as [st0|] eqn:Hd.
      * rewrite Hfree. unfold yields, regular. cbn. rewrite andb_true_r.
        destruct (Stats.isDirectory st0) eqn:Hisdir; cbn.
        -- split; [intros E; injection E as <-; auto | intros [E _]; exact E].
        -- split; [discriminate | intros [E Hst]; injection E as <-; congruence].
      * split; [discriminate | intros [E _]; discriminate E].
Qed.

(** With no file held, the directory keeps its sub-directory only; the
    name of the listing that has vanished is counted as an error. *)
Lemma clearAllUploads_effect_witness :
  exists w',
    clearAllUploads
      (withStale ["tmp-upload"]
         (worldOf [("a.webp", Stats.mk 10 999000 false); ("thumbs", Stats.mk 0 0 true)]
            [] 1000000))
    = (Ok (Clear.mk 1 1), w')
    /\ dir w' !! "a.webp" = None /\ dir w' !! "thumbs" = Some (Stats.mk 0 0 true).
Proof.
  destruct (proj2 (clearAllUploads_effect
                     (withStale ["tmp-upload"]
                        (worldOf [("a.webp", Stats.mk 10 999000 false);
                                  ("thumbs", Stats.mk 0 0 true)] [] 1000000))) eq_refl)
    as (r & w' & Hrun & Hdir & _).
  exists w'. split.
  - rewrite Hrun. f_equal. vm_compute in Hrun. now injection Hrun as <- _.
  - split; rewrite Hdir; reflexivity.
Defined.

(* ===================================================================== *)
(** * The names of the outputs *)
(* ===================================================================== *)

Section Names.

Lemma append_nil_r (s : string) : s +:+ "" = s.
Proof.
  induction s as [|c s IH]; [reflexivity|].
  change (String c (s +:+ "") = String c s). now rewrite IH.
Qed.

Lemma substring_all (s : string) : substring 0 (String.length s) s = s.
Proof. induction s as [|c s IH]; [reflexivity|]. simpl. now rewrite IH. Qed.

Lemma substring_split (s : string) :
  forall n, (n <= String.length s)%nat ->
    substring 0 n s +:+ substring n (String.length s - n) s = s.
Proof.
  induction s as [|c s IH]; intros n Hn.
  - simpl in Hn. assert (n = 0)%nat as -> by lia. reflexivity.
  - destruct n as [|n].
    + cbn [substring append]. change (String.length (String c s) - 0)%nat
        with (S (String.length s)). cbn [substring]. now rewrite substring_all.
    + cbn [substring append String.length Nat.sub]. simpl in Hn.
      change (String c (substring 0 n s +:+ substring n (String.length s - n) s)
              = String c s).
      rewrite IH by lia. reflexivity.
Qed.

Lemma substring_length (s : string) :
  forall n m, (n + m <= String.length s)%nat -> String.length (substring n m s) = m.
Proof.
  induction s as [|c s IH]; intros n m H.
  - simpl in H. assert (n = 0)%nat as -> by lia. assert (m = 0)%nat as -> by lia.
    reflexivity.
  - destruct n as [|n].
    + destruct m as [|m]; [reflexivity|]. cbn [substring String.length]. simpl in H.
      rewrite IH by lia. reflexivity.
    + cbn [substring]. simpl in H. apply IH. lia.
Qed.

Lemma lastDot_bound (s : string) :
  forall i found j, Js.lastDot s i found = Some j ->
    found = Some j \/ (i <= j < i + String.length s)%nat.
Proof.
  induction s as [|c s IH]; intros i found j H; [now left|].
  cbn [Js.lastDot] in H. apply IH in H. cbn [String.length].
  destruct H as [H|H]; [|right; lia].
  destruct (Ascii.eqb c "."%char); [|now left].
  injection H as <-. right. lia.
Qed.

Lemma hasSep_app (s t : string) : hasSep (s +:+ t) = (hasSep s || hasSep t)%bool.
Proof.
  induction s as [|c s IH]; [reflexivity|].
  change (hasSep (String c (s +:+ t)) = (hasSep (String c s) || hasSep t)%bool).
  cbn [hasSep]. rewrite IH. now rewrite orb_assoc.
Qed.

Lemma hasSep_substring (s : string) :
  hasSep s = false -> forall n m, hasSep (substring n m s) = false.
Proof.
  induction s as [|c s IH]; intros H n m.
  - now destruct n, m.
  - simpl in H. apply orb_false_iff in H. destruct H as [Hc Hs].
    destruct n as [|n]; [destruct m as [|m]|]; cbn [substring hasSep]; auto.
    rewrite Hc. now apply IH.
Qed.

Lemma hasSep_lastSegment (s : string) :
  forall cur last, hasSep cur = false -> hasSep last = false ->
    hasSep (Js.lastSegment s cur last) = false.
Proof.
  induction s as [|c s IH]; intros cur last Hcur Hlast; cbn [Js.lastSegment].
  - now destruct (String.eqb cur "").
  - destruct (Ascii.eqb c "/"%char) eqn:Hc.
    + apply IH; [reflexivity|]. now destruct (String.eqb cur "").
    + apply IH; [|assumption]. rewrite hasSep_app, Hcur. simpl. now rewrite Hc.
Qed.

Lemma hasSep_pretty_N_go (x : N) :
  forall s, hasSep s = false -> hasSep (pretty_N_go x s) = false.
Proof.
  induction (N.lt_wf_0 x) as [x _ IH]. intros s Hs.
  assert (x = 0 \/ 0 < x)%N as [->|Hpos] by lia; [assumption|].
  rewrite pretty_N_go_step by assumption. apply IH; [now apply N.div_lt|].
  cbn [hasSep]. rewrite Hs. unfold pretty_N_char. now repeat case_match.
Qed.

Lemma hasSep_pretty_nat (k : nat) : hasSep (pretty k) = false.
Proof.
  unfold pretty, pretty_nat, pretty, pretty_N. case_decide; [reflexivity|].
  now apply hasSep_pretty_N_go.
Qed.

End Names.

(** X14.  The name of an output.  The base under which the outputs of an
    upload are written is the last segment of the client's name for it
    without its extension: putting the extension back gives that segment
    again, and the base holds no path separator, whatever the client's
    name is.  Hence every name the allocator hands out for that base and
    a format that holds no separator is a plain file name: the client's
    name cannot direct an output outside the directory of the upload. *)
Theorem output_name_is_plain (originalname format : string) (w : World) :
  Js.basenameNoExt originalname +:+ Js.extname originalname = Js.component originalname
  /\ hasSep (Js.basenameNoExt originalname) = false
  /\ (hasSep format = false ->
      hasSep (getUniqueFilenameIn w (Js.basenameNoExt originalname) format) = false).
Proof.
  assert (Hc : hasSep (Js.component originalname) = false)
    by now apply hasSep_lastSegment.
  assert (Hb : hasSep (Js.basenameNoExt originalname) = false)
    by now apply hasSep_substring.
  split; [|split; [exact Hb|]].
  - unfold Js.basenameNoExt, Js.extname.
    set (c := Js.component originalname).
    destruct (Js.lastDot c 0 None) as [[|i]|] eqn:Hdot.
    + cbn [String.length]. rewrite Nat.sub_0_r, substring_all. apply append_nil_r.
    + destruct (String.eqb c "..").
      * cbn [String.length]. rewrite Nat.sub_0_r, substring_all. apply append_nil_r.
      * apply lastDot_bound in Hdot. destruct Hdot as [Hdot|Hdot]; [discriminate Hdot|].
        rewrite substring_length by lia.
        replace (String.length c - (String.length c - S i))%nat with (S i) by lia.
        apply substring_split. lia.
    + cbn [String.length]. rewrite Nat.sub_0_r, substring_all. apply append_nil_r.
  - intros Hf.
    destruct (getUniqueFilename_first_free w (Js.basenameNoExt originalname) format)
      as (k & -> & _).
    destruct k as [|k]; cbn [candidate]; rewrite !hasSep_app, ?Hb, ?Hf, ?hasSep_pretty_nat;
      reflexivity.
Qed.

(** A client's name that climbs out of the directory. *)
Lemma output_name_is_plain_witness :
  hasSep (getUniqueFilenameIn svgWorld (Js.basenameNoExt "../../etc/passwd.png") "webp")
  = false.
Proof.
  exact (proj2 (proj2 (output_name_is_plain "../../etc/passwd.png" "webp" svgWorld)) eq_refl).
Defined.

(* ===================================================================== *)
(** * Further properties of processImages *)
(* ===================================================================== *)

(** X15.  ImageMagick is left alone when the batch gives it nothing to
    do.  When the [useImageMagick] option is off, or when no file of the
    batch has one of the extensions of the secondary encoder, the run of
    processImages (its result, the directory and the calls made,
    [convert -version] probes included) is the same whatever ImageMagick
    would have answered: it is neither probed nor run. *)
Theorem no_specialty_no_imagemagick (env1 env2 : Env) (files : list UploadedFile)
    (o : Image.Options) (w : World) :
  sharp env1 = sharp env2 -> svgo env1 = svgo env2 ->
  Image.useImageMagick o = false
  \/ Forall (fun f => Image.shouldUseImageMagick (originalname f) = false) files ->
  Image.imageMagickFilesOf o files = []
  /\ Image.processImages env1 files o w = Image.processImages env2 files o w.
Proof.
  intros Hsharp Hsvgo Hnone.
  assert (Hnil : Image.imageMagickFilesOf o files = []).
  { unfold Image.imageMagickFilesOf. destruct Hnone as [->|Hall]; [reflexivity|].
    destruct (Image.useImageMagick o); [|reflexivity].
    induction Hall as [|f fs Hf _ IH]; [reflexivity|]. cbn [List.filter]. now rewrite Hf. }
  split; [exact Hnil|].
  destruct env1 as [s1 v1 c1 p1 f1], env2 as [s2 v2 c2 p2 f2].
  cbn [sharp svgo] in Hsharp, Hsvgo. subst s2 v2.
  unfold Image.processImages. rewrite Hnil.
  unfold bind. cbn [Image.processImageMagickFiles length Nat.ltb Nat.leb].
  reflexivity.
Qed.

(** A batch of one JPEG: an ImageMagick that is not installed changes
    nothing. *)
Lemma no_specialty_no_imagemagick_witness :
  Image.processImages obligingEnv [jpegFile] threeFormats jpegWorld
  = Image.processImages
      (mkEnv (sharp obligingEnv) (svgo obligingEnv) (fun _ => inl "convert: not found")
             (fun _ => false) (ffmpeg obligingEnv))
      [jpegFile] threeFormats jpegWorld.
Proof.
  exact (proj2 (no_specialty_no_imagemagick obligingEnv
                  (mkEnv (sharp obligingEnv) (svgo obligingEnv)
                         (fun _ => inl "convert: not found") (fun _ => false)
                         (ffmpeg obligingEnv))
                  [jpegFile] threeFormats jpegWorld eq_refl eq_refl
                  ltac:(right; repeat constructor))).
Defined.

Section Probes.

Lemma keeps_ret {A : Type} (a : A) : KeepsProbes (ret a).
Proof. intros w. reflexivity. Qed.

Lemma keeps_throw {A : Type} (e : JsError) : KeepsProbes (@throw A e).
Proof. intros w. reflexivity. Qed.

Lemma keeps_bind {A B : Type} (m : M A) (k : A -> M B) :
  KeepsProbes m -> (forall a, KeepsProbes (k a)) -> KeepsProbes (bind m k).
Proof.
  intros Hm Hk w. unfold bind. specialize (Hm w).
  destruct (m w) as [[a|e] w1]; simpl in *; [|assumption]. now rewrite Hk.
Qed.

Lemma keeps_tryCatch {A : Type} (m : M A) (h : JsError -> M A) :
  KeepsProbes m -> (forall e, KeepsProbes (h e)) -> KeepsProbes (tryCatch m h).
Proof.
  intros Hm Hh w. unfold tryCatch. specialize (Hm w).
  destruct (m w) as [[a|e] w1]; simpl in *; [assumption|]. now rewrite Hh.
Qed.

Lemma keeps_modify (f : World -> World) :
  (forall w, probes (f w) = probes w) -> KeepsProbes (modify f).
Proof. intros Hf w. apply Hf. Qed.

Lemma keeps_stat (p : string) : KeepsProbes (stat p).
Proof. intros w. unfold stat. now destruct (dir w !! p). Qed.

Lemma keeps_access (p : string) : KeepsProbes (access p).
Proof. intros w. unfold access. now destruct (exists_ w p). Qed.

Lemma keeps_unlink (p : string) : KeepsProbes (unlink p).
Proof.
  intros w. unfold unlink. destruct (pending w p); [|reflexivity].
  now destruct (dir w !! p).
Qed.

Lemma keeps_sleep (ms : Z) : KeepsProbes (sleep ms).
Proof. intros w. reflexivity. Qed.

Lemma keeps_writeFile (p : string) (bytes : Z) : KeepsProbes (writeFile p bytes).
Proof. intros w. reflexivity. Qed.

Lemma keeps_getUniqueFilename (b f : string) : KeepsProbes (getUniqueFilename b f).
Proof. intros w. reflexivity. Qed.

Lemma keeps_produce (answer : string + Z) (dest : string) : KeepsProbes (produce answer dest).
Proof. destruct answer; [apply keeps_throw | apply keeps_writeFile]. Qed.

Lemma keeps_forEach {A B : Type} (body : A -> M (list B)) (l : list A) :
  (forall a, KeepsProbes (body a)) -> KeepsProbes (forEach body l).
Proof.
  intros Hb. induction l as [|a l IH]; [apply keeps_ret|].
  cbn [forEach]. apply keeps_bind; [apply Hb|]. intros here.
  apply keeps_bind; [apply IH|]. intros rest. apply keeps_ret.
Qed.

End Probes.

Ltac keeps :=
  repeat first
    [ apply keeps_ret | apply keeps_throw | apply keeps_stat | apply keeps_access
    | apply keeps_unlink | apply keeps_sleep | apply keeps_writeFile
    | apply keeps_getUniqueFilename | apply keeps_produce
    | apply keeps_bind | apply keeps_tryCatch | apply keeps_forEach
    | progress intros
    | match goal with
      | |- KeepsProbes (if ?c then _ else _) => destruct c
      | |- KeepsProbes (match ?x with _ => _ end) => destruct x
      end ].

Lemma keeps_processorUnlinkFrom (p : string) (retries : nat) (delay : Z) (n : nat) :
  forall i, KeepsProbes (processorUnlinkFrom n p retries delay i).
Proof.
  induction n as [|n IH]; intros i; cbn [processorUnlinkFrom]; [apply keeps_ret|].
  apply keeps_bind.
  - unfold processorUnlinkAttempt. keeps.
  - intros [u|]; [apply keeps_ret | apply IH].
Qed.

Lemma keeps_magickOne (env : Env) (o : Image.Options) (file : UploadedFile) :
  KeepsProbes (Image.magickOne env o file).
Proof.
  unfold Image.magickOne, Image.magickFormat. keeps.
Qed.

Lemma keeps_perFile (P : UploadedFile -> M (list Image.FileResult)) (files : list UploadedFile) :
  (forall file, KeepsProbes (P file)) -> KeepsProbes (Image.perFile P files).
Proof.
  intros HP. unfold Image.perFile, Image.attempt. keeps. apply HP.
Qed.

Lemma perFile_Forall (P : UploadedFile -> M (list Image.FileResult))
    (Q : Image.FileResult -> Prop) (files : list UploadedFile) :
  (forall file w, Forall Q (Image.entriesOf file (P file w))) ->
  forall w rs w', Image.perFile P files w = (Ok rs, w') -> Forall Q rs.
Proof.
  intros HP. induction files as [|file files IH]; intros w rs w' H.
  - injection H as <- _. constructor.
  - rewrite perFile_cons in H.
    destruct (Image.perFile P files (snd (P file w))) as [[rs2|e] w2] eqn:E; [|discriminate].
    injection H as <- _. apply Forall_app. split; [apply HP | eapply IH; eassumption].
Qed.

(** What ImageMagick's pipeline pushes for a file. *)
Lemma magickOne_entries (env : Env) (o : Image.Options) (file : UploadedFile) (w : World) :
  Forall (fun r => Image.status r = "success" ->
                   exists sz pfs,
                     r = Image.Success (Image.name r) sz pfs (Some "ImageMagick")
                     /\ map Image.format pfs = Image.formats o)
         (Image.entriesOf file (Image.magickOne env o file w)).
Proof.
  unfold Image.entriesOf.
  destruct (Image.magickOne env o file w) as [[rs|e] w'] eqn:H; cbn [fst];
    [|repeat constructor; discriminate].
  unfold Image.magickOne in H. unfold bind at 1 in H. unfold stat at 1 in H.
  destruct (dir w !! path file) as [st|] eqn:Hd; [|discriminate H].
  unfold bind at 1 in H.
  destruct (forEach _ _ w) as [[pfs|e] w1] eqn:Efan; [|discriminate H].
  destruct (fanOut_spec _ _ _ (magickFormat_step env o file (Stats.size st)) _ _ _ Efan)
    as (_ & _ & _ & Hfmt & _).
  unfold bind at 1 in H.
  destruct (processorUnlink (path file) w1) as [[u|e] w2]; [|discriminate H].
  injection H as <- _. repeat constructor. intros _. eauto.
Qed.

(** X16.  When the batch holds files for the secondary encoder and
    ImageMagick answers both probes (processImages probes it, and
    processWithImageMagick probes it again), those files are processed by
    ImageMagick and by it alone: each gets one entry, in the order of the
    batch; an entry of status 'success' is marked
    [processor: 'ImageMagick'] and has one artifact per requested format,
    in the order requested; and the raster loop runs on the other raster
    files only. *)
Theorem imagemagick_takes_specialty_files (env : Env) (files : list UploadedFile)
    (o : Image.Options) (w : World) :
  let special := Image.imageMagickFilesOf o files in
  let ordinary := Image.rasterFilesOf o files in
  let afterSvg := snd (Image.processSvgFiles env o (Image.svgFilesOf files) w) in
  special <> [] ->
  probe env (probes afterSvg) = true -> probe env (S (probes afterSvg)) = true ->
  exists fromSvg fromMagick w2 fromRaster w3,
    Image.processSvgFiles env o (Image.svgFilesOf files) w = (Ok fromSvg, afterSvg)
    /\ Image.processImageMagickFiles env o special ordinary afterSvg
       = (Ok (fromMagick, ordinary), w2)
    /\ probes w2 = S (S (probes afterSvg))
    /\ Image.processRasterFiles env o ordinary w2 = (Ok fromRaster, w3)
    /\ Image.processImages env files o w = (Ok (fromSvg ++ fromMagick ++ fromRaster), w3)
    /\ map Image.name fromMagick = map originalname special
    /\ Forall (fun r => Image.status r = "success" ->
                        exists sz pfs,
                          r = Image.Success (Image.name r) sz pfs (Some "ImageMagick")
                          /\ map Image.format pfs = Image.formats o)
              fromMagick
    /\ map Image.name fromRaster = map originalname ordinary.
Proof.
  intros special ordinary afterSvg Hsome Hp1 Hp2.
  destruct (processSvgFiles_spec env o (Image.svgFilesOf files) w)
    as (fromSvg & w1 & Hsvg & _).
  assert (Hw1 : afterSvg = w1) by (unfold afterSvg; now rewrite Hsvg).
  set (probed1 := emit (EvProbe true) (countProbe afterSvg)).
  set (probed2 := emit (EvProbe true) (countProbe probed1)).
  destruct (perFile_total (Image.magickOne env o) special probed2) as (fromMagick & w2 & Hm).
  assert (Hblock : Image.processImageMagickFiles env o special ordinary afterSvg
                   = (Ok (fromMagick, ordinary), w2)).
  { unfold Image.processImageMagickFiles.
    assert ((0 <? length special)%nat = true) as ->
      by (destruct special; [contradiction | reflexivity]).
    unfold bind at 1. unfold Image.isImageMagickAvailable at 1. rewrite Hp1.
    fold probed1. unfold tryCatch. unfold bind at 1.
    unfold Image.processWithImageMagick. unfold bind at 1.
    unfold Image.isImageMagickAvailable at 1.
    change (probes probed1) with (S (probes afterSvg)). rewrite Hp2. fold probed2.
    cbn [negb]. now rewrite Hm. }
  assert (Hprobes : probes w2 = S (S (probes afterSvg))).
  { pose proof (keeps_perFile _ special (keeps_magickOne env o) probed2) as Hk.
    rewrite Hm in Hk. exact Hk. }
  destruct (perFile_total (Image.rasterOne env o) ordinary w2) as (fromRaster & w3 & Hr).
  exists fromSvg, fromMagick, w2, fromRaster, w3.
  split; [now rewrite Hw1|]. split; [exact Hblock|]. split; [exact Hprobes|].
  split; [exact Hr|]. split.
  { unfold Image.processImages, bind. fold special ordinary. rewrite Hsvg.
    rewrite <- Hw1. rewrite Hblock. cbn [fst snd].
    unfold Image.processRasterFiles in Hr. unfold Image.processRasterFiles. now rewrite Hr. }
  split; [eapply perFile_names; [apply magickOne_one | exact Hm]|].
  split; [eapply perFile_Forall; [apply magickOne_entries | exact Hm]|].
  eapply perFile_names; [apply rasterOne_one | exact Hr].
Qed.

(** A TIFF scan on a machine with ImageMagick. *)
Lemma imagemagick_takes_specialty_files_witness :
  exists w3,
    Image.processImages obligingEnv scanBatch (Image.defaults true) scanWorld
    = (Ok [Image.Success "scan.TIFF" 100 [Image.mkProcessed "webp" "scan.webp" 50 "50.00"]
             (Some "ImageMagick")], w3).
Proof.
  destruct (imagemagick_takes_specialty_files obligingEnv scanBatch (Image.defaults true)
              scanWorld ltac:(discriminate) eq_refl eq_refl)
    as (fromSvg & fromMagick & w2 & fromRaster & w3 & _ & _ & _ & _ & Hrun & _).
  pose proof Hrun as Hc. vm_compute in Hc. injection Hc as Hrs _.
  exists w3. rewrite Hrun. f_equal. f_equal. symmetry. exact Hrs.
Defined.

(* ===================================================================== *)
(** * Further properties of createArchive *)
(* ===================================================================== *)

(** X17.  What createArchive does to the uploads directory, whether the
    promise resolves or rejects: the archive file
    [archive-<timestamp>-<random>.zip] is created (empty, by the write
    stream) and nothing else changes; no requested file is modified or
    removed.  In particular a request that is rejected with 'No valid
    files to archive' leaves its empty archive file behind. *)
Theorem createArchive_directory
    (isPathTraversalSafe : string -> bool) (isWithinDirectory : string -> string -> bool)
    (UPLOAD_DIR : string) (join : string -> string -> string) (accessible : string -> bool)
    (random : string) (files : list string) (w : World) :
  let run :=
    createArchive isPathTraversalSafe isWithinDirectory UPLOAD_DIR join accessible random
      files w in
  let archive := "archive-" +:+ pretty (clock w) +:+ "-" +:+ random +:+ ".zip" in
  dir (snd run) = <[archive := Stats.mk 0 (clock w) false]> (dir w)
  /\ (forall q, q <> archive -> dir (snd run) !! q = dir w !! q)
  /\ (List.filter
        (archivable isPathTraversalSafe isWithinDirectory UPLOAD_DIR join accessible) files
      = [] ->
      fst run = Throw (plainError "No valid files to archive")
      /\ dir (snd run) !! archive = Some (Stats.mk 0 (clock w) false)).
Proof.
  intros run archive.
  assert (Hrun : exists w',
             run = (match List.filter (archivable isPathTraversalSafe isWithinDirectory
                                         UPLOAD_DIR join accessible) files with
                    | [] => Throw (plainError "No valid files to archive")
                    | _ :: _ => Ok (join UPLOAD_DIR archive)
                    end, w')
             /\ dir w' = <[archive := Stats.mk 0 (clock w) false]> (dir w)).
  { unfold run, createArchive, bind, get, mkdirUploads, writeFile, modify.
    match goal with
    | |- context [addAll _ _ _ _ _ files 0%nat ?w0] =>
        destruct (addAll_spec isPathTraversalSafe isWithinDirectory UPLOAD_DIR join
                    accessible files 0 w0) as (w1 & -> & _ & Hd)
    end.
    simpl in Hd. cbn [Nat.add].
    destruct (List.filter _ files) as [|k kept]; cbn [length Nat.eqb].
    - exists w1. split; [reflexivity | exact Hd].
    - eexists. split; [reflexivity|]. exact Hd. }
  destruct Hrun as (w' & -> & Hd). cbn [fst snd]. rewrite Hd.
  split; [reflexivity|]. split.
  - intros q Hq. now rewrite lookup_insert_ne.
  - intros ->. split; [reflexivity | apply lookup_insert_eq].
Qed.

(** The request of the scenario that names no archivable file. *)
Lemma createArchive_directory_witness :
  dir (snd (createArchive sampleIsPathTraversalSafe sampleIsWithinDirectory "/srv/uploads"
              sampleJoin sampleAccessible "k3x" ["../../etc/passwd"; "b.webp"]
              (worldOf [("a.webp", Stats.mk 10 0 false)] [] 5)))
  !! "archive-5-k3x.zip" = Some (Stats.mk 0 5 false).
Proof.
  exact (proj2 (proj2 (proj2
           (createArchive_directory sampleIsPathTraversalSafe sampleIsWithinDirectory
              "/srv/uploads" sampleJoin sampleAccessible "k3x"
              ["../../etc/passwd"; "b.webp"]
              (worldOf [("a.webp", Stats.mk 10 0 false)] [] 5))) eq_refl)).
Defined.

Lemma writes_unlink_nothing (evs : list Event) :
  forallb isWrite evs = true -> unlinksIn evs = [].
Proof.
  induction evs as [|ev evs IH]; [reflexivity|]. simpl. intros Hw.
  apply andb_true_iff in Hw. destruct Hw as [Hev Hw]. destruct ev; try discriminate Hev.
  simpl. auto.
Qed.

(** X18.  The raster pass over an SVG upload, [keep] being whether 'svg'
    is among the requested formats.  When it ends without throwing, the
    artifacts are those of the requested formats that are one of webp,
    avif, jpg, jpeg, png, in the order requested (any other format is
    passed over in silence), under names that are pairwise different and
    were free, each on disk with the size reported; the file gets one
    success entry, or no entry at all when no requested format is a raster
    format.  With [keep], the upload is left untouched for the
    optimization pass (no [fs.unlink] is made); without, it is deleted, or
    left in place when it stayed busy through the three attempts. *)
Theorem svg_raster_pass (env : Env) (o : Image.Options) (keep : bool) (file : UploadedFile)
    (w : World) (rs : list Image.FileResult) (w' : World) :
  Image.svgToRaster env o keep file w = (Ok rs, w') ->
  exists st pfs,
    dir w !! path file = Some st
    /\ map Image.format pfs
       = List.filter (Js.includes Image.RASTER_FORMATS) (Image.formats o)
    /\ rs = match pfs with
            | [] => []
            | _ :: _ => [Image.Success (originalname file) (Stats.size st) pfs None]
            end
    /\ NoDup (map Image.filename pfs)
    /\ Forall (fun pf => dir w !! Image.filename pf = None /\ onDisk w' pf) pfs
    /\ (if keep
        then dir w' !! path file = Some st
             /\ pending w' (path file) = pending w (path file)
             /\ exists evs, trace w' = trace w ++ evs /\ unlinksIn evs = []
        else dir w' !! path file = None
             \/ (dir w' !! path file = Some st
                 /\ forallb busyCode (take 3 (pending w (path file))) = true
                 /\ (3 <= length (pending w (path file)))%nat)).
Proof.
  intros H. unfold Image.svgToRaster in H. unfold bind at 1 in H. unfold stat at 1 in H.
  destruct (dir w !! path file) as [st|] eqn:Hd; [|discriminate H].
  unfold bind at 1 in H.
  destruct (forEach _ _ w) as [[pfs|e] w1] eqn:Efan; [|discriminate H].
  destruct (fanOut_spec _ _ _ (svgFormat_step env o file (Stats.size st)
                                 (Js.basenameNoExt (originalname file))) _ _ _ Efan)
    as (Hfaults & Hkeep & (evs & Ht & Hw) & Hfmt & Hnd & Hall).
  assert (Hentry : (if (0 <? length pfs)%nat
                    then [Image.Success (originalname file) (Stats.size st) pfs None]
                    else [])
                   = match pfs with
                     | [] => []
                     | _ :: _ => [Image.Success (originalname file) (Stats.size st) pfs None]
                     end) by now destruct pfs.
  assert (Hsame : pending w1 (path file) = pending w (path file))
    by (unfold pending; now rewrite Hfaults).
  unfold bind at 1 in H. destruct keep; cbn [negb] in H.
  - unfold ret at 1 in H.
    assert (Hout : rs = (if (0 <? length pfs)%nat
                         then [Image.Success (originalname file) (Stats.size st) pfs None]
                         else []) /\ w' = w1)
      by (destruct (0 <? length pfs)%nat; injection H as <- <-; auto).
    destruct Hout as [-> ->].
    exists st, pfs. split; [reflexivity|]. split; [assumption|]. split; [exact Hentry|].
    split; [assumption|]. split; [assumption|].
    split; [now apply Hkeep|]. split; [assumption|].
    exists evs. split; [assumption | now apply writes_unlink_nothing].
  - destruct (processorUnlink (path file) w1) as [[u|e] w2] eqn:Eun; [|discriminate H].
    assert (Hout : rs = (if (0 <? length pfs)%nat
                         then [Image.Success (originalname file) (Stats.size st) pfs None]
                         else []) /\ w' = w2)
      by (destruct (0 <? length pfs)%nat; injection H as <- <-; auto).
    destruct Hout as [-> ->].
    destruct (processorUnlinkFrom_spec (path file) 3 100 3 0%nat _ _ _ eq_refl Eun)
      as (Hothers & Hself).
    exists st, pfs. split; [reflexivity|]. split; [assumption|]. split; [exact Hentry|].
    split; [assumption|]. split.
    + eapply Forall_impl; [exact Hall|]. intros pf (Hfree & mt & Hdisk).
      split; [assumption|]. exists mt. rewrite Hothers; [assumption|]. congruence.
    + rewrite Hsame, (Hkeep _ _ Hd) in Hself.
      destruct Hself as [[_ Hgone]|(Hstay & Hlen & Hbusy)]; [now left | right; auto].
Qed.

(** WebP, BMP and SVG asked of an SVG: the raster pass writes the WebP
    only, and leaves the upload in place. *)
Lemma svg_raster_pass_witness :
  exists st pfs,
    dir svgWorld !! "files-1-2.svg" = Some st
    /\ map Image.format pfs = ["webp"]
    /\ dir (snd (Image.svgToRaster obligingEnv svgMixedFormats true
                   (mkFile "logo.svg" "files-1-2.svg") svgWorld)) !! "files-1-2.svg"
       = Some st.
Proof.
  destruct (svg_raster_pass obligingEnv svgMixedFormats true
              (mkFile "logo.svg" "files-1-2.svg") svgWorld
              (resultsOf (Image.svgToRaster obligingEnv svgMixedFormats true
                            (mkFile "logo.svg" "files-1-2.svg") svgWorld))
              (snd (Image.svgToRaster obligingEnv svgMixedFormats true
                      (mkFile "logo.svg" "files-1-2.svg") svgWorld)))
    as (st & pfs & Hst & Hfmt & _ & _ & _ & Hkeep & _); [vm_compute; reflexivity|].
  exists st, pfs. auto.
Defined.

(* ===================================================================== *)
(** * The bitrate hint *)
(* ===================================================================== *)

Section Hint.

Lemma digitVal_pretty_char (d : N) :
  (d < 10)%N -> Js.digitVal 10 (pretty_N_char d) = Some (Z.of_N d).
Proof.
  intros H.
  assert (d = 0 \/ d = 1 \/ d = 2 \/ d = 3 \/ d = 4 \/ d = 5 \/ d = 6 \/ d = 7 \/ d = 8
          \/ d = 9)%N as Hd by lia.
  repeat (destruct Hd as [->|Hd]; [reflexivity|]). now subst d.
Qed.

Lemma digitsFrom_pretty_go (x : N) :
  forall s acc, (0 < x)%N -> default 0 acc = 0 ->
    Js.digitsFrom 10 (pretty_N_go x s) acc = Js.digitsFrom 10 s (Some (Z.of_N x)).
Proof.
  induction (N.lt_wf_0 x) as [x _ IH]. intros s acc Hpos Hacc.
  rewrite pretty_N_go_step by assumption.
  assert (Hd : (x mod 10 < 10)%N) by (apply N.mod_lt; lia).
  destruct (N.eq_0_gt_0_cases (x / 10)) as [Hz|Hq].
  - rewrite Hz, pretty_N_go_0. cbn [Js.digitsFrom].
    rewrite digitVal_pretty_char by assumption. rewrite Hacc. do 2 f_equal.
    pose proof (N.div_mod x 10 ltac:(discriminate)) as Hdm. rewrite Hz in Hdm. lia.
  - rewrite IH; [|apply N.div_lt; lia|assumption|assumption]. cbn [Js.digitsFrom].
    rewrite digitVal_pretty_char by assumption. cbn [default]. unfold id. do 2 f_equal.
    pose proof (N.div_mod x 10 ltac:(discriminate)) as Hdm. lia.
Qed.

Lemma pretty_go_app (x : N) :
  forall s t, pretty_N_go x s +:+ t = pretty_N_go x (s +:+ t).
Proof.
  induction (N.lt_wf_0 x) as [x _ IH]. intros s t.
  assert (x = 0 \/ 0 < x)%N as [->|Hpos] by lia; [reflexivity|].
  rewrite (pretty_N_go_step x s), (pretty_N_go_step x (s +:+ t)) by assumption.
  rewrite IH by (apply N.div_lt; lia). reflexivity.
Qed.

Lemma pretty_go_head (x : N) :
  (0 < x)%N ->
  forall s, exists d r, (0 < d < 10)%N /\ pretty_N_go x s = String (pretty_N_char d) r.
Proof.
  induction (N.lt_wf_0 x) as [x _ IH]. intros Hpos s.
  rewrite pretty_N_go_step by assumption.
  destruct (N.eq_0_gt_0_cases (x / 10)) as [Hz|Hq].
  - rewrite Hz, pretty_N_go_0. exists (x mod 10)%N, s. split; [|reflexivity].
    pose proof (N.div_mod x 10 ltac:(discriminate)) as Hdm. rewrite Hz in Hdm.
    pose proof (N.mod_lt x 10 ltac:(discriminate)). lia.
  - apply IH; [apply N.div_lt; lia | assumption].
Qed.

Lemma parseInt_headed (d : N) (r : string) :
  (0 < d < 10)%N ->
  Js.parseInt (String (pretty_N_char d) r)
  = match Js.digitsFrom 10 (String (pretty_N_char d) r) None with
    | Some n => Some n
    | None => None
    end.
Proof.
  intros H.
  assert (d = 1 \/ d = 2 \/ d = 3 \/ d = 4 \/ d = 5 \/ d = 6 \/ d = 7 \/ d = 8 \/ d = 9)%N
    as Hd by lia.
  repeat (destruct Hd as [->|Hd]; [reflexivity|]). now subst d.
Qed.

(** [parseInt] of a decimal numeral followed by a unit. *)
Lemma parseInt_hint (n : N) (c : ascii) (rest : string) :
  Js.digitVal 10 c = None -> c <> "x"%char -> c <> "X"%char ->
  Js.parseInt (pretty n +:+ String c rest) = Some (Z.of_N n).
Proof.
  intros Hdigit Hx HX. unfold pretty, pretty_N.
  destruct (decide (n = 0%N)) as [->|Hn].
  - change ("0" +:+ String c rest) with (String "0" (String c rest)).
    destruct c as [b0 b1 b2 b3 b4 b5 b6 b7].
    destruct b0, b1, b2, b3, b4, b5, b6, b7;
      first [ discriminate Hdigit
            | exfalso; apply Hx; reflexivity
            | exfalso; apply HX; reflexivity
            | reflexivity ].
  - assert (Hpos : (0 < n)%N) by lia.
    rewrite pretty_go_app. change ("" +:+ String c rest) with (String c rest).
    destruct (pretty_go_head n Hpos (String c rest)) as (d & r & Hd & E).
    rewrite E, (parseInt_headed d r Hd), <- E.
    rewrite digitsFrom_pretty_go by auto. cbn [Js.digitsFrom]. now rewrite Hdigit.
Qed.

End Hint.

(** X19.  The bitrate hint as the client writes it, a decimal number
    followed by a unit (['2M'], ['500k']): [parseInt] reads the number
    back and drops the unit, so the CRF depends on the number alone, 32
    for 0, 28 for 1, 23 for 2, 20 for 3 and 4, and 18 from 5 on, whatever
    the unit is (['500k'] gets the CRF of the highest bitrates). *)
Theorem bitrate_hint_reads_back (n : N) (c : ascii) (rest : string) :
  Js.digitVal 10 c = None -> c <> "x"%char -> c <> "X"%char ->
  ((n < 2 ^ 53)%N -> Js.parseInt (pretty n +:+ String c rest) = Some (Z.of_N n))
  /\ Video.crfOf (pretty n +:+ String c rest)
     = (if (5 <=? n)%N then 18
        else if (3 <=? n)%N then 20
        else if (2 <=? n)%N then 23
        else if (1 <=? n)%N then 28
        else 32).
Proof.
  intros Hdigit Hx HX. split; [intros _; now apply parseInt_hint|].
  unfold Video.crfOf. rewrite parseInt_hint by assumption.
  unfold Video.crfOfNum, Js.geNum.
  repeat match goal with
         | |- context [(?a <=? ?b)%N] => destruct (N.leb_spec a b)
         | |- context [?a <=? ?b] => destruct (Z.leb_spec a b)
         end; (reflexivity || lia).
Qed.

Lemma bitrate_hint_reads_back_witness :
  Video.crfOf "500k" = 18 /\ Video.crfOf "2M" = 23.
Proof.
  split.
  - exact (proj2 (bitrate_hint_reads_back 500 "k" "" eq_refl ltac:(discriminate)
                    ltac:(discriminate))).
  - exact (proj2 (bitrate_hint_reads_back 2 "M" "" eq_refl ltac:(discriminate)
                    ltac:(discriminate))).
Defined.

(* ===================================================================== *)
(** * Letter case in the routing of a batch *)
(* ===================================================================== *)

Section LetterCase.

Lemma lowerChar_sep (c : ascii) : Ascii.eqb (Js.lowerChar c) "/" = Ascii.eqb c "/".
Proof. destruct c as [[] [] [] [] [] [] [] []]; reflexivity. Qed.

Lemma lowerChar_dot (c : ascii) : Ascii.eqb (Js.lowerChar c) "." = Ascii.eqb c ".".
Proof. destruct c as [[] [] [] [] [] [] [] []]; reflexivity. Qed.

Lemma lowerChar_idem (c : ascii) : Js.lowerChar (Js.lowerChar c) = Js.lowerChar c.
Proof. destruct c as [[] [] [] [] [] [] [] []]; reflexivity. Qed.

Lemma toLowerCase_idem (s : string) : Js.toLowerCase (Js.toLowerCase s) = Js.toLowerCase s.
Proof.
  induction s as [|c s IH]; [reflexivity|]. cbn [Js.toLowerCase].
  now rewrite lowerChar_idem, IH.
Qed.

Lemma toLowerCase_app (s t : string) :
  Js.toLowerCase (s +:+ t) = Js.toLowerCase s +:+ Js.toLowerCase t.
Proof.
  induction s as [|c s IH]; [reflexivity|].
  change (Js.toLowerCase (String c (s +:+ t))
          = String (Js.lowerChar c) (Js.toLowerCase s +:+ Js.toLowerCase t)).
  cbn [Js.toLowerCase]. now rewrite IH.
Qed.

Lemma toLowerCase_nil (s : string) : String.eqb (Js.toLowerCase s) "" = String.eqb s "".
Proof. now destruct s. Qed.

Lemma toLowerCase_length (s : string) : String.length (Js.toLowerCase s) = String.length s.
Proof. induction s as [|c s IH]; [reflexivity|]. cbn [Js.toLowerCase String.length]. now rewrite IH. Qed.

Lemma toLowerCase_substring (s : string) :
  forall n m, substring n m (Js.toLowerCase s) = Js.toLowerCase (substring n m s).
Proof.
  induction s as [|c s IH]; intros n m; [now destruct n, m|].
  destruct n as [|n]; [destruct m as [|m]|]; cbn [Js.toLowerCase substring]; auto.
  now rewrite IH.
Qed.

Lemma lastSegment_lower (s : string) :
  forall cur last,
    Js.lastSegment (Js.toLowerCase s) (Js.toLowerCase cur) (Js.toLowerCase last)
    = Js.toLowerCase (Js.lastSegment s cur last).
Proof.
  induction s as [|c s IH]; intros cur last; cbn [Js.toLowerCase Js.lastSegment].
  - rewrite toLowerCase_nil. now destruct (String.eqb cur "").
  - rewrite lowerChar_sep, toLowerCase_nil. destruct (Ascii.eqb c "/").
    + rewrite <- (IH "" (if String.eqb cur "" then last else cur)).
      now destruct (String.eqb cur "").
    + rewrite <- IH, toLowerCase_app. reflexivity.
Qed.

Lemma lastDot_lower (s : string) :
  forall i found, Js.lastDot (Js.toLowerCase s) i found = Js.lastDot s i found.
Proof.
  induction s as [|c s IH]; intros i found; [reflexivity|].
  cbn [Js.toLowerCase Js.lastDot]. now rewrite lowerChar_dot, IH.
Qed.

Lemma dotdot_lower (s : string) : String.eqb (Js.toLowerCase s) ".." = String.eqb s "..".
Proof.
  destruct s as [|a [|b s]]; try reflexivity.
  - cbn [Js.toLowerCase String.eqb]. rewrite lowerChar_dot. now destruct (Ascii.eqb a ".").
  - cbn [Js.toLowerCase String.eqb]. rewrite !lowerChar_dot.
    destruct (Ascii.eqb a "."), (Ascii.eqb b "."); try reflexivity. now destruct s.
Qed.

Lemma extname_lower (p : string) :
  Js.extname (Js.toLowerCase p) = Js.toLowerCase (Js.extname p).
Proof.
  unfold Js.extname, Js.component.
  pose proof (lastSegment_lower p "" "") as H. cbn [Js.toLowerCase] in H. rewrite H.
  rewrite lastDot_lower, dotdot_lower, toLowerCase_length.
  destruct (Js.lastDot _ 0 None) as [[|i]|]; try reflexivity.
  destruct (String.eqb _ ".."); [reflexivity|]. apply toLowerCase_substring.
Qed.

End LetterCase.

(** X20.  The routing of a batch looks at the extension of the client's
    name without regard to letter case: two names that differ in the case
    of their (ASCII) letters only are both SVG or both not, and are both
    for the secondary encoder or both not. *)
Theorem routing_ignores_case (name1 name2 path1 path2 : string) :
  Js.toLowerCase name1 = Js.toLowerCase name2 ->
  Image.isSvg (mkFile name1 path1) = Image.isSvg (mkFile name2 path2)
  /\ Image.shouldUseImageMagick name1 = Image.shouldUseImageMagick name2.
Proof.
  intros H.
  assert (Hext : Js.toLowerCase (Js.extname name1) = Js.toLowerCase (Js.extname name2)).
  { rewrite <- (toLowerCase_idem (Js.extname name1)), <- (toLowerCase_idem (Js.extname name2)).
    rewrite <- !extname_lower. now rewrite H. }
  unfold Image.isSvg, Image.shouldUseImageMagick. cbn [originalname]. now rewrite Hext.
Qed.

Lemma routing_ignores_case_witness :
  Image.shouldUseImageMagick "Scan.TIFF" = Image.shouldUseImageMagick "scan.tiff".
Proof.
  exact (proj2 (routing_ignores_case "Scan.TIFF" "scan.tiff" "files-1" "files-1" eq_refl)).
Defined.

(* ===================================================================== *)
(** * The outputs of a batch *)
(* ===================================================================== *)

Section BatchOutputs.

Variable env : Env.
Variable o : Image.Options.

(** One file of the raster loop, however its pipeline ends: the other
    entries of the directory stay, and the artifacts reported are under
    new, pairwise different names, and on disk. *)
Lemma rasterOne_step (file : UploadedFile) (w : World)
    (out : Outcome (list Image.FileResult)) (w1 : World) :
  Image.rasterOne env o file w = (out, w1) ->
  (forall q st, dir w !! q = Some st -> q <> path file -> dir w1 !! q = Some st)
  /\ NoDup (map Image.filename (artifactsOf (Image.entriesOf file (out, w1))))
  /\ Forall (fun pf => dir w !! Image.filename pf = None /\ onDisk w1 pf)
            (artifactsOf (Image.entriesOf file (out, w1))).
Proof.
  intros H. unfold Image.rasterOne in H. unfold bind at 1 in H. unfold stat at 1 in H.
  unfold Image.entriesOf. cbn [fst].
  destruct (dir w !! path file) as [st|] eqn:Hd.
  2:{ injection H as <- <-. split; [auto|]. split; constructor. }
  unfold bind at 1 in H.
  destruct (forEach _ _ w) as [[pfs|e] wf] eqn:Efan.
  2:{ injection H as <- <-.
      destruct (fanOut_spec _ _ _ (rasterFormat_step env o file (Stats.size st)
                                     (Js.basenameNoExt (originalname file))) _ _ _ Efan)
        as (_ & Hkeep & _).
      split; [auto|]. split; constructor. }
  destruct (fanOut_spec _ _ _ (rasterFormat_step env o file (Stats.size st)
                                 (Js.basenameNoExt (originalname file))) _ _ _ Efan)
    as (_ & Hkeep & _ & _ & Hnd & Hall).
  unfold bind at 1 in H.
  destruct (processorUnlink (path file) wf) as [u w2] eqn:Eun.
  destruct (processorUnlinkFrom_spec (path file) 3 100 3 0%nat _ _ _ eq_refl Eun)
    as (Hothers & _).
  assert (Hframe : forall q st', dir w !! q = Some st' -> q <> path file ->
                                 dir w2 !! q = Some st').
  { intros q st' Hq Hne. rewrite Hothers by assumption. now apply Hkeep. }
  destruct u as [u|e]; injection H as <- <-.
  - split; [exact Hframe|]. unfold artifactsOf. cbn [flat_map Image.artifacts].
    rewrite app_nil_r. split; [exact Hnd|].
    eapply Forall_impl; [exact Hall|]. intros pf (Hfree & mt & Hdisk).
    split; [assumption|]. exists mt. rewrite Hothers; [assumption|]. congruence.
  - split; [exact Hframe|]. split; constructor.
Qed.

Lemma artifactsOf_app (rs1 rs2 : list Image.FileResult) :
  artifactsOf (rs1 ++ rs2) = artifactsOf rs1 ++ artifactsOf rs2.
Proof. apply flat_map_app. Qed.

(** The raster loop over uploads that are all there, under paths that
    are pairwise different. *)
Lemma rasterLoop_outputs (files : list UploadedFile) :
  forall w rs w',
    NoDup (map path files) ->
    (forall f, In f files -> is_Some (dir w !! path f)) ->
    Image.perFile (Image.rasterOne env o) files w = (Ok rs, w') ->
    (forall q st, dir w !! q = Some st -> ~ In q (map path files) -> dir w' !! q = Some st)
    /\ NoDup (map Image.filename (artifactsOf rs))
    /\ Forall (onDisk w') (artifactsOf rs)
    /\ Forall (fun pf => dir w !! Image.filename pf = None
                         \/ In (Image.filename pf) (map path files))
              (artifactsOf rs).
Proof.
  induction files as [|f files IH]; intros w rs w' Hnd Hall H.
  - injection H as <- <-. split; [auto|]. split; [constructor|]. split; constructor.
  - rewrite perFile_cons in H.
    destruct (Image.rasterOne env o f w) as [out w1] eqn:Estep. cbn [snd] in H.
    destruct (Image.perFile (Image.rasterOne env o) files w1) as [[rs2|e] w2] eqn:Erest;
      [|discriminate H].
    injection H as <- <-.
    destruct (rasterOne_step f w out w1 Estep) as (Hframe1 & Hnd1 & Hall1).
    cbn [map] in Hnd. apply NoDup_cons in Hnd. destruct Hnd as [Hnotin Hnd].
    rewrite list_elem_of_In in Hnotin.
    assert (Hall2 : forall g, In g files -> is_Some (dir w1 !! path g)).
    { intros g Hg. destruct (Hall g (or_intror Hg)) as [st Hst].
      exists st. apply Hframe1; [assumption|].
      intros Heq. apply Hnotin. rewrite <- Heq. now apply in_map. }
    destruct (IH w1 rs2 w2 Hnd Hall2 Erest) as (Hframe2 & Hnd2 & Hdisk2 & Hfresh2).
    assert (Hapart : forall pf, In pf (artifactsOf (Image.entriesOf f (out, w1))) ->
                                ~ In (Image.filename pf) (map path files)).
    { intros pf Hpf Hin. apply List.Forall_forall with (x := pf) in Hall1; [|assumption].
      destruct Hall1 as [Hfree _]. apply in_map_iff in Hin.
      destruct Hin as (g & Hg & Hgin). destruct (Hall g (or_intror Hgin)) as [st Hst].
      rewrite Hg in Hst. congruence. }
    rewrite artifactsOf_app, map_app.
    split; [|split; [|split]].
    + intros q st Hq Hnot. apply Hframe2.
      * apply Hframe1; [assumption|]. intros ->. apply Hnot. now left.
      * intros Hin. apply Hnot. now right.
    + apply NoDup_app. split; [assumption|]. split; [|assumption].
      intros n Hn1 Hn2. apply list_elem_of_In in Hn1, Hn2. apply in_map_iff in Hn1. destruct Hn1 as (pf & <- & Hpf).
      apply in_map_iff in Hn2. destruct Hn2 as (pf2 & Heq & Hpf2).
      apply List.Forall_forall with (x := pf2) in Hfresh2; [|assumption].
      rewrite Heq in Hfresh2. destruct Hfresh2 as [Hnone|Hpath].
      * apply List.Forall_forall with (x := pf) in Hall1; [|assumption].
        destruct Hall1 as (_ & mt & Hdisk). congruence.
      * exact (Hapart pf Hpf Hpath).
    + apply Forall_app. split; [|assumption].
      apply List.Forall_forall. intros pf Hpf.
      pose proof Hall1 as Hall1'.
      apply List.Forall_forall with (x := pf) in Hall1'; [|assumption].
      destruct Hall1' as (_ & mt & Hdisk). exists mt.
      apply Hframe2; [assumption | now apply Hapart].
    + apply Forall_app. split.
      * eapply Forall_impl; [exact Hall1|]. intros pf (Hfree & _). now left.
      * eapply Forall_impl; [exact Hfresh2|]. intros pf [Hnone|Hpath]; [|right; now right].
        destruct (dir w !! Image.filename pf) as [st|] eqn:Hw; [|now left].
        right. destruct (decide (Image.filename pf = path f)) as [->|Hne];
          [now left|].
        rewrite (Hframe1 _ _ Hw Hne) in Hnone. discriminate Hnone.
Qed.

End BatchOutputs.

(** X21.  The outputs of the raster loop over a batch whose uploads are
    all there, under paths that are pairwise different (as multer stores
    them): the artifacts reported by the entries of the batch bear names
    that are pairwise different, across files as well as across formats,
    and every one of them is in the directory, with the size reported,
    when the loop ends.  No output of the batch is overwritten or deleted
    by the processing of another file, even when the clients gave two
    uploads the same name. *)
Theorem raster_batch_outputs_distinct (env : Env) (o : Image.Options)
    (files : list UploadedFile) (w : World) (rs : list Image.FileResult) (w' : World) :
  NoDup (map path files) ->
  (forall f, In f files -> is_Some (dir w !! path f)) ->
  Image.processRasterFiles env o files w = (Ok rs, w') ->
  NoDup (map Image.filename (artifactsOf rs))
  /\ Forall (onDisk w') (artifactsOf rs).
Proof.
  intros Hnd Hall H. unfold Image.processRasterFiles in H.
  destruct (rasterLoop_outputs env o files w rs w' Hnd Hall H) as (_ & H1 & H2 & _).
  auto.
Qed.

(** Two uploads called [photo.png]: [photo.webp] and [photo_1.webp]. *)
Lemma raster_batch_outputs_distinct_witness :
  NoDup (map Image.filename
           (artifactsOf (resultsOf (Image.processRasterFiles obligingEnv
                                      (Image.defaults true) twinBatch twinWorld))))
  /\ map Image.filename
       (artifactsOf (resultsOf (Image.processRasterFiles obligingEnv
                                  (Image.defaults true) twinBatch twinWorld)))
     = ["photo.webp"; "photo_1.webp"].
Proof.
  split; [|vm_compute; reflexivity].
  refine (proj1 (raster_batch_outputs_distinct obligingEnv (Image.defaults true) twinBatch
                   twinWorld _ (snd (Image.processRasterFiles obligingEnv
                                       (Image.defaults true) twinBatch twinWorld)) _ _ _)).
  - apply (bool_decide_unpack _). vm_compute. exact I.
  - intros f [<-|[<-|[]]]; vm_compute; eauto.
  - vm_compute. reflexivity.
Defined.

(* ===================================================================== *)
(** * What processImages leaves alone *)
(* ===================================================================== *)

Section Bystanders.

Variable paths : list string.

Lemma spares_ret {A : Type} (a : A) : Spares paths (ret a).
Proof. intros w q st H _. exact H. Qed.

Lemma spares_throw {A : Type} (e : JsError) : Spares paths (@throw A e).
Proof. intros w q st H _. exact H. Qed.

Lemma spares_bind {A B : Type} (m : M A) (k : A -> M B) :
  Spares paths m -> (forall a, Spares paths (k a)) -> Spares paths (bind m k).
Proof.
  intros Hm Hk w q st H Hq. unfold bind. specialize (Hm w q st H Hq).
  destruct (m w) as [[a|e] w1]; cbn [snd] in *; [|assumption]. now apply Hk.
Qed.

Lemma spares_bind_post {A B : Type} (m : M A) (k : A -> M B) (Q : A -> Prop) :
  Spares paths m -> (forall w a w', m w = (Ok a, w') -> Q a) ->
  (forall a, Q a -> Spares paths (k a)) -> Spares paths (bind m k).
Proof.
  intros Hm HQ Hk w q st H Hq. unfold bind. specialize (Hm w q st H Hq).
  destruct (m w) as [[a|e] w1] eqn:E; cbn [snd] in *; [|assumption].
  apply Hk; [eapply HQ; eassumption | assumption | assumption].
Qed.

Lemma spares_tryCatch {A : Type} (m : M A) (h : JsError -> M A) :
  Spares paths m -> (forall e, Spares paths (h e)) -> Spares paths (tryCatch m h).
Proof.
  intros Hm Hh w q st H Hq. unfold tryCatch. specialize (Hm w q st H Hq).
  destruct (m w) as [[a|e] w1]; cbn [snd] in *; [assumption|]. now apply Hh.
Qed.

Lemma spares_stat (p : string) : Spares paths (stat p).
Proof. intros w q st H _. unfold stat. now destruct (dir w !! p). Qed.

Lemma spares_access (p : string) : Spares paths (access p).
Proof. intros w q st H _. unfold access. now destruct (exists_ w p). Qed.

Lemma spares_sleep (ms : Z) : Spares paths (sleep ms).
Proof. intros w q st H _. exact H. Qed.

Lemma spares_unlink (p : string) : In p paths -> Spares paths (unlink p).
Proof.
  intros Hp w q st H Hq. unfold unlink. destruct (pending w p); [|exact H].
  destruct (dir w !! p); [|exact H]. cbn [snd emit setDir dir].
  rewrite lookup_delete_ne; [exact H|]. intros <-. contradiction.
Qed.

Lemma spares_probe (env : Env) : Spares paths (Image.isImageMagickAvailable env).
Proof. intros w q st H _. exact H. Qed.

Lemma spares_forEach {A B : Type} (body : A -> M (list B)) (l : list A) :
  (forall a, Spares paths (body a)) -> Spares paths (forEach body l).
Proof.
  intros Hb. induction l as [|a l IH]; [apply spares_ret|].
  cbn [forEach]. apply spares_bind; [apply Hb|]. intros here.
  apply spares_bind; [apply IH|]. intros rest. apply spares_ret.
Qed.

(** A file written under a name the allocator has just returned
    replaces nothing. *)
Lemma spares_allocate {A : Type} (b f : string) (answer : string -> string + Z)
    (k : string -> M A) :
  (forall n, Spares paths (k n)) ->
  Spares paths (bind (getUniqueFilename b f)
                     (fun n => bind (produce (answer n) n) (fun _ => k n))).
Proof.
  intros Hk w q st H Hq. unfold bind at 1. unfold getUniqueFilename.
  set (n := getUniqueFilenameIn w b f).
  assert (Hne : q <> n).
  { intros ->. unfold n in H. rewrite getUniqueFilename_fresh in H. discriminate H. }
  unfold bind. rewrite produce_step. destruct (answer n) as [msg|bytes]; [exact H|].
  unfold writeFile, modify. apply Hk; [|assumption].
  cbn [snd emit setDir dir]. now rewrite lookup_insert_ne.
Qed.

Lemma spares_processorUnlinkFrom (p : string) (retries : nat) (delay : Z) (n : nat) :
  In p paths -> forall i, Spares paths (processorUnlinkFrom n p retries delay i).
Proof.
  intros Hp. induction n as [|n IH]; intros i; cbn [processorUnlinkFrom]; [apply spares_ret|].
  apply spares_bind.
  - unfold processorUnlinkAttempt. apply spares_tryCatch.
    + apply spares_bind; [now apply spares_unlink | intros; apply spares_ret].
    + intros e. destruct (isBusy e); [|apply spares_throw].
      apply spares_bind; [|intros; apply spares_ret].
      destruct (i <? retries - 1)%nat; [apply spares_sleep | apply spares_ret].
  - intros [u|]; [apply spares_ret | apply IH].
Qed.

Variable env : Env.
Variable o : Image.Options.

Lemma spares_rasterOne (file : UploadedFile) :
  In (path file) paths -> Spares paths (Image.rasterOne env o file).
Proof.
  intros Hp. unfold Image.rasterOne.
  apply spares_bind; [apply spares_stat|]. intros st.
  apply spares_bind.
  { apply spares_forEach. intros format. unfold Image.rasterFormat.
    apply (spares_allocate _ _
             (fun n => sharp env (mkJob (path file) None (Image.resizeStep o)
                                    (Image.rasterEncoder format (Image.quality o))) n)).
    intros n. apply spares_bind; [apply spares_stat | intros; apply spares_ret]. }
  intros pfs. apply spares_bind; [|intros; apply spares_ret].
  now apply spares_processorUnlinkFrom.
Qed.

Lemma spares_magickOne (file : UploadedFile) :
  In (path file) paths -> Spares paths (Image.magickOne env o file).
Proof.
  intros Hp. unfold Image.magickOne.
  apply spares_bind; [apply spares_stat|]. intros st.
  apply spares_bind.
  { apply spares_forEach. intros format. unfold Image.magickFormat.
    apply (spares_allocate _ _
             (fun n => convert env (Image.convertCommand o (path file) n))).
    intros n. apply spares_bind; [apply spares_stat | intros; apply spares_ret]. }
  intros pfs. apply spares_bind; [|intros; apply spares_ret].
  now apply spares_processorUnlinkFrom.
Qed.

Lemma spares_svgToRaster (keep : bool) (file : UploadedFile) :
  In (path file) paths -> Spares paths (Image.svgToRaster env o keep file).
Proof.
  intros Hp. unfold Image.svgToRaster.
  apply spares_bind; [apply spares_stat|]. intros st.
  apply spares_bind.
  { apply spares_forEach. intros format. unfold Image.svgFormat.
    apply (spares_allocate _ _
             (fun n => sharp env (mkJob (path file) (Some 300) (Image.resizeStep o)
                                    (Image.svgEncoder format (Image.quality o))) n)).
    intros n. apply spares_bind; [apply spares_stat | intros; apply spares_ret]. }
  intros pfs. apply spares_bind.
  - destruct (negb keep); [now apply spares_processorUnlinkFrom | apply spares_ret].
  - intros _. destruct (0 <? length pfs)%nat; apply spares_ret.
Qed.

Lemma spares_optimizeOne (file : UploadedFile) :
  In (path file) paths -> Spares paths (Image.optimizeOne env o file).
Proof.
  intros Hp. unfold Image.optimizeOne.
  apply spares_bind; [apply spares_stat|]. intros st.
  apply spares_bind; [apply spares_access|]. intros _.
  apply spares_bind.
  { destruct (svgo env (path file) (Image.svgoConfig o)); [apply spares_throw | apply spares_ret]. }
  intros bytes.
  apply (spares_allocate _ _ (fun _ => inr bytes)).
  intros n. apply spares_bind; [apply spares_stat|]. intros out.
  apply spares_bind; [|intros; apply spares_ret].
  destruct (negb (String.eqb (path file) n));
    [now apply spares_processorUnlinkFrom | apply spares_ret].
Qed.

Lemma spares_perFile (P : UploadedFile -> M (list Image.FileResult))
    (files : list UploadedFile) :
  (forall file, In file files -> Spares paths (P file)) ->
  Spares paths (Image.perFile P files).
Proof.
  intros HP. unfold Image.perFile. induction files as [|file files IH]; [apply spares_ret|].
  cbn [forEach]. apply spares_bind.
  - unfold Image.attempt. apply spares_tryCatch; [apply HP; now left|].
    intros e. apply spares_ret.
  - intros here. apply spares_bind; [|intros; apply spares_ret].
    apply IH. intros f Hf. apply HP. now right.
Qed.

End Bystanders.

(** X22.  processImages leaves the rest of the uploads directory alone:
    an entry of the directory that is not the upload of a file of the
    batch is still there when processImages returns, with the same size
    and date.  Whatever the codecs answer and whatever fails, nothing is
    deleted but uploads of the batch, and no output is written over an
    existing file. *)
Theorem processImages_spares_bystanders (env : Env) (files : list UploadedFile)
    (o : Image.Options) (w : World) (q : string) (st : Stats.t) :
  dir w !! q = Some st -> ~ In q (map path files) ->
  dir (snd (Image.processImages env files o w)) !! q = Some st.
Proof.
  revert w q st. change (Spares (map path files) (Image.processImages env files o)).
  set (paths := map path files).
  assert (Hsub : forall keep f, In f (List.filter keep files) -> In (path f) paths).
  { intros keep f Hf. apply filter_In in Hf. apply in_map. tauto. }
  unfold Image.processImages. apply spares_bind.
  { unfold Image.processSvgFiles. destruct (0 <? length _)%nat; [|apply spares_ret].
    apply spares_bind.
    - destruct (Image.hasRasterFormats o); [|apply spares_ret].
      apply spares_perFile. intros f Hf. apply spares_svgToRaster. exact (Hsub _ f Hf).
    - intros converted. apply spares_bind; [|intros; apply spares_ret].
      destruct (Image.hasSvgFormat o); [|apply spares_ret].
      unfold Image.optimizeSVGs. apply spares_perFile. intros f Hf.
      apply spares_bind; [|intros; apply spares_ret].
      apply spares_optimizeOne. exact (Hsub _ f Hf). }
  intros fromSvg.
  assert (Hmagick : forall f, In f (Image.imageMagickFilesOf o files) -> In (path f) paths).
  { unfold Image.imageMagickFilesOf. destruct (Image.useImageMagick o); [|contradiction].
    apply Hsub. }
  assert (Hraster : forall f, In f (Image.rasterFilesOf o files) -> In (path f) paths)
    by apply Hsub.
  apply (spares_bind_post _ _ _
           (fun magick : list Image.FileResult * list UploadedFile =>
              forall f, In f (snd magick) -> In (path f) paths)).
  - unfold Image.processImageMagickFiles. destruct (0 <? length _)%nat; [|apply spares_ret].
    apply spares_bind; [apply spares_probe|]. intros isAvailable.
    destruct isAvailable; [|apply spares_ret].
    apply spares_tryCatch; [|intros; apply spares_ret].
    apply spares_bind; [|intros; apply spares_ret].
    unfold Image.processWithImageMagick.
    apply spares_bind; [apply spares_probe|]. intros available.
    destruct (negb available); [apply spares_throw|].
    apply spares_perFile. intros f Hf. apply spares_magickOne. now apply Hmagick.
  - intros w1 magick w2 Hrun f Hf.
    destruct (processImageMagickFiles_spec env o (Image.imageMagickFilesOf o files)
                (Image.rasterFilesOf o files) w1) as (rs & rf & w2' & Hspec & Hcase).
    rewrite Hspec in Hrun. injection Hrun as <- _. cbn [snd] in Hf.
    destruct Hcase as [[_ ->]|[_ ->]]; [now apply Hraster|].
    apply in_app_iff in Hf. destruct Hf as [Hf|Hf]; [now apply Hraster | now apply Hmagick].
  - intros magick Hin. apply spares_bind; [|intros; apply spares_ret].
    unfold Image.processRasterFiles. apply spares_perFile.
    intros f Hf. apply spares_rasterOne. now apply Hin.
Qed.

(** [cat.webp] was in the directory before [cat.jpg] is converted: it is
    still there, as it was. *)
Lemma processImages_spares_bystanders_witness :
  dir (snd (Image.processImages obligingEnv [jpegFile] threeFormats jpegWorld)) !! "cat.webp"
  = Some (Stats.mk 7 0 false).
Proof.
  apply (processImages_spares_bystanders obligingEnv [jpegFile] threeFormats jpegWorld
           "cat.webp" (Stats.mk 7 0 false)); [reflexivity|].
  simpl. intros [H|[]]. discriminate H.
Defined.

(* ===================================================================== *)
(** * The entries of a batch, file by file *)
(* ===================================================================== *)

Section Entries.

Variable env : Env.
Variable o : Image.Options.

Lemma oneEach_nil (P : UploadedFile -> M (list Image.FileResult)) (w : World)
    (part : list Image.FileResult) :
  OneEach P [] w part.
Proof. intros before file after H. now destruct before. Qed.

(** A per-file loop over a pipeline that pushes one entry gives every
    file its own entry, at its own position. *)
Lemma perFile_oneEach (P : UploadedFile -> M (list Image.FileResult))
    (fs : list UploadedFile) (w0 : World) (part : list Image.FileResult) (w1 : World) :
  Image.OnePerFile P ->
  Image.perFile P fs w0 = (Ok part, w1) ->
  OneEach P fs w0 part.
Proof.
  intros HP Hrun before file after ->.
  destruct (perFile_split P before file after w0) as (rs1 & wf & rs2 & w2 & Hb & Ha & Hall).
  rewrite Hall in Hrun. injection Hrun as <- _.
  pose proof (perFile_names P before HP _ _ _ Hb) as Hn.
  apply (f_equal (@length _)) in Hn. rewrite !length_map in Hn.
  pose proof (perFile_names P after HP _ _ _ Ha) as Hm.
  apply (f_equal (@length _)) in Hm. rewrite !length_map in Hm. clear Ha.
  unfold EntryOf, Image.entriesOf.
  destruct (P file wf) as [[own|e] wf'] eqn:E; cbn [fst].
  - destruct (HP _ _ _ _ E) as (r & -> & Hname & Hst).
    exists rs1, wf, r, rs2. rewrite E. repeat split; auto.
  - exists rs1, wf, (Image.Failure (originalname file) (message e)), rs2. rewrite E.
    repeat split; auto.
Qed.

(** The SVG block is the conversion loop over the SVG files, when a
    raster format is asked for, followed by the optimization loop over
    the same files, when 'svg' is asked for. *)
Lemma processSvgFiles_parts (svgFiles : list UploadedFile) (w : World) :
  let toRaster := if Image.hasRasterFormats o then svgFiles else [] in
  let toOptimize := if Image.hasSvgFormat o then svgFiles else [] in
  exists converted w1 optimized w2,
    Image.perFile (Image.svgToRaster env o (Image.hasSvgFormat o)) toRaster w
    = (Ok converted, w1)
    /\ Image.perFile (fun file => bind (Image.optimizeOne env o file) (fun r => ret [r]))
         toOptimize w1 = (Ok optimized, w2)
    /\ Image.processSvgFiles env o svgFiles w = (Ok (converted ++ optimized), w2).
Proof.
  intros toRaster toOptimize.
  destruct (perFile_total (Image.svgToRaster env o (Image.hasSvgFormat o)) toRaster w)
    as (converted & w1 & H1).
  destruct (perFile_total (fun file => bind (Image.optimizeOne env o file) (fun r => ret [r]))
              toOptimize w1) as (optimized & w2 & H2).
  exists converted, w1, optimized, w2. split; [assumption|]. split; [assumption|].
  unfold Image.processSvgFiles, Image.optimizeSVGs. subst toRaster toOptimize.
  destruct svgFiles as [|f0 rest].
  - destruct (Image.hasRasterFormats o), (Image.hasSvgFormat o);
      injection H1 as <- <-; injection H2 as <- <-; reflexivity.
  - change (0 <? length (f0 :: rest))%nat with true. cbv iota. unfold bind in H2 |- *.
    destruct (Image.hasRasterFormats o), (Image.hasSvgFormat o).
    + now rewrite H1, H2.
    + rewrite H1. injection H2 as <- <-. reflexivity.
    + injection H1 as <- <-. unfold ret at 1. cbv iota beta. now rewrite H2.
    + injection H1 as <- <-. injection H2 as <- <-. reflexivity.
Qed.

(** The block of the secondary encoder, case by case: either it pushes
    nothing and appends its files to the raster files, or ImageMagick
    answered both probes and the block is the loop of
    processWithImageMagick over its files. *)
Lemma processImageMagickFiles_cases (special ordinary : list UploadedFile) (w : World) :
  let probed := emit (EvProbe true) (countProbe (emit (EvProbe true) (countProbe w))) in
  exists fromMagick viaSharp w',
    Image.processImageMagickFiles env o special ordinary w = (Ok (fromMagick, viaSharp), w')
    /\ ((fromMagick = [] /\ viaSharp = ordinary ++ special)
        \/ (special <> [] /\ viaSharp = ordinary
            /\ Image.perFile (Image.magickOne env o) special probed = (Ok fromMagick, w'))).
Proof.
  intros probed. unfold Image.processImageMagickFiles.
  destruct special as [|f0 rest] eqn:Hfiles.
  { exists [], ordinary, w. rewrite app_nil_r. simpl. auto. }
  rewrite <- Hfiles. assert ((0 <? length special)%nat = true) as ->
    by (rewrite Hfiles; reflexivity).
  assert (Hsome : special <> []) by (rewrite Hfiles; discriminate).
  clear Hfiles. unfold bind at 1. unfold Image.isImageMagickAvailable at 1.
  destruct (probe env (probes w)) eqn:Hp1; [|eexists [], (ordinary ++ special), _; auto].
  unfold tryCatch, bind, Image.processWithImageMagick, bind, Image.isImageMagickAvailable.
  destruct (probe env (probes (emit (EvProbe true) (countProbe w)))) eqn:Hp2;
    cbn [negb]; [|eexists [], (ordinary ++ special), _; auto].
  destruct (perFile_total (Image.magickOne env o) special probed) as (rs & w' & Hrun).
  fold probed. rewrite Hrun. exists rs, ordinary, w'. auto.
Qed.

Lemma split_is_permutation (files : list UploadedFile) :
  Image.svgFilesOf files ++ Image.imageMagickFilesOf o files ++ Image.rasterFilesOf o files
  ≡ₚ files.
Proof.
  unfold Image.svgFilesOf, Image.imageMagickFilesOf, Image.rasterFilesOf.
  induction files as [|f files IH]; [now destruct (Image.useImageMagick o)|].
  cbn [List.filter]. pose proof (svg_not_magick f) as Hsvg.
  destruct (Image.useImageMagick o) eqn:Hu, (Image.isSvg f) eqn:Hs,
           (Image.shouldUseImageMagick (originalname f)) eqn:Hm;
    cbn [negb andb] in *;
    try (specialize (Hsvg eq_refl); discriminate Hsvg).
  all: cbn [app]; rewrite <- ?Permutation_middle; now constructor.
Qed.

(** ** The raster pipeline when sharp converts the file *)

Lemma rasterFormat_converts (file : UploadedFile) (size : Z) (base format : string)
    (w : World) (bytes : Z) :
  sharp env (mkJob (path file) None (Image.resizeStep o)
               (Image.rasterEncoder format (Image.quality o)))
    (getUniqueFilenameIn w base format) = inr bytes ->
  exists pf w', Image.rasterFormat env o file size base format w = (Ok [pf], w').
Proof.
  intros Hs. unfold Image.rasterFormat, bind, getUniqueFilename.
  rewrite produce_step, Hs.
  change (writeFile ?n ?b w) with (Ok tt, snd (writeFile n b w)).
  cbv beta iota. rewrite stat_written. eauto.
Qed.

Lemma rasterFormats_convert (file : UploadedFile) (size : Z) (base : string)
    (formats : list string) :
  (forall format out, In format formats ->
     exists bytes, sharp env (mkJob (path file) None (Image.resizeStep o)
                                (Image.rasterEncoder format (Image.quality o))) out
                   = inr bytes) ->
  forall w, exists pfs w',
    forEach (Image.rasterFormat env o file size base) formats w = (Ok pfs, w').
Proof.
  induction formats as [|f formats IH]; intros Hsharp w; [now exists [], w|].
  cbn [forEach]. unfold bind at 1.
  destruct (Hsharp f (getUniqueFilenameIn w base f) (or_introl eq_refl)) as (bytes & Hb).
  destruct (rasterFormat_converts file size base f w bytes Hb) as (pf & w1 & ->).
  unfold bind at 1.
  destruct (IH (fun format out Hin => Hsharp format out (or_intror Hin)) w1)
    as (pfs & w2 & ->).
  eauto.
Qed.

(** A file of the raster loop that is on disk, that nothing holds, and
    every format of which sharp converts: its pipeline does not throw; it
    reports the size of the upload and one artifact per requested format
    other than 'svg', all on disk, and removes the upload. *)
Lemma rasterOne_converts (file : UploadedFile) (w : World) (st : Stats.t) :
  dir w !! path file = Some st ->
  pending w (path file) = [] ->
  (forall format out,
     In format (List.filter (fun f => negb (String.eqb f "svg")) (Image.formats o)) ->
     exists bytes, sharp env (mkJob (path file) None (Image.resizeStep o)
                                (Image.rasterEncoder format (Image.quality o))) out
                   = inr bytes) ->
  exists pfs w',
    Image.rasterOne env o file w
    = (Ok [Image.Success (originalname file) (Stats.size st) pfs None], w')
    /\ map Image.format pfs
       = List.filter (fun f => negb (String.eqb f "svg")) (Image.formats o)
    /\ Forall (onDisk w') pfs
    /\ dir w' !! path file = None.
Proof.
  intros Hd Hfree Hsharp. unfold Image.rasterOne. unfold bind at 1.
  rewrite (stat_present _ _ _ Hd). unfold bind at 1.
  destruct (rasterFormats_convert file (Stats.size st) (Js.basenameNoExt (originalname file))
              _ Hsharp w) as (pfs & w1 & Hfan).
  rewrite Hfan.
  destruct (fanOut_spec _ _ _ (rasterFormat_step env o file (Stats.size st)
                                 (Js.basenameNoExt (originalname file))) _ _ _ Hfan)
    as (Hfaults & Hkeep & _ & Hfmt & _ & Hall).
  assert (Hfree1 : pending w1 (path file) = []) by (unfold pending; now rewrite Hfaults).
  unfold bind at 1. rewrite (processorUnlink_free _ _ _ Hfree1 (Hkeep _ _ Hd)).
  eexists pfs, _. split; [reflexivity|]. split; [assumption|]. split.
  - eapply Forall_impl; [exact Hall|]. intros pf (Hnew & mt & Hdisk).
    exists mt. unfold emit, setDir. cbn [dir].
    rewrite lookup_delete_ne; [assumption|]. intros Heq. rewrite <- Heq in Hnew. congruence.
  - unfold emit, setDir. cbn [dir]. apply lookup_delete_eq.
Qed.

End Entries.

(* ===================================================================== *)
(** * Properties of the batch orchestrator, file by file *)
(* ===================================================================== *)

(** C1, as the code has it.  processImages never throws.  The batch is
    split into its SVG files, the files of the secondary encoder and the
    other raster files, each file being in one of the three lists, and
    the list returned is, in this order: the entries of the conversion
    loop over the SVG files (when a raster format is asked for), those of
    the optimization loop over the same files (when 'svg' is asked for),
    those of the loop of the secondary encoder and those of the raster
    loop, the files of the secondary encoder being handled by one or the
    other of the last two.  Each loop gives every one of its files one
    entry, at the position of the file: the success entry of the file's
    own pipeline when that pipeline does not throw, an entry with status
    'error' and the message thrown when it does, whatever became of the
    other files.  Hence one entry for every file that is not an SVG and,
    for every SVG file, one entry for each of the two passes that the
    requested formats call for: exactly N entries when the batch holds no
    SVG file or when only one of the two passes is called for.  Every
    entry bears the name of a file of the batch. *)
Theorem processImages_results (env : Env) (files : list UploadedFile) (o : Image.Options)
    (w : World) :
  exists rs w',
    Image.processImages env files o w = (Ok rs, w')
    /\ length rs
       = (length files - length (Image.svgFilesOf files)
          + length (Image.svgFilesOf files)
            * (Nat.b2n (Image.hasRasterFormats o) + Nat.b2n (Image.hasSvgFormat o)))%nat
    /\ (Image.svgFilesOf files = [] -> length rs = length files)
    /\ Forall (fun r => exists f, In f files /\ Image.name r = originalname f) rs
    /\ (forall P before file after w0,
          In P (Image.pipelines env o) ->
          exists rs1 w1 rs2 w2,
            Image.perFile P before w0 = (Ok rs1, w1)
            /\ Image.perFile P (before ++ file :: after) w0
               = (Ok (rs1 ++ Image.entriesOf file (P file w1) ++ rs2), w2)
            /\ (forall e w1', P file w1 = (Throw e, w1') ->
                  Image.entriesOf file (P file w1)
                  = [Image.Failure (originalname file) (message e)])
            /\ (forall own w1', P file w1 = (Ok own, w1') ->
                  Image.entriesOf file (P file w1) = own
                  /\ Forall (fun r => Image.name r = originalname file
                                      /\ Image.status r = "success") own))
    /\ Image.svgFilesOf files ++ Image.imageMagickFilesOf o files ++ Image.rasterFilesOf o files
       ≡ₚ files
    /\ exists converted w1 optimized w2 fromMagick viaSharp w3 fromRaster,
         rs = converted ++ optimized ++ fromMagick ++ fromRaster
         /\ Image.perFile (Image.svgToRaster env o (Image.hasSvgFormat o))
              (if Image.hasRasterFormats o then Image.svgFilesOf files else []) w
            = (Ok converted, w1)
         /\ OneEach (Image.svgToRaster env o (Image.hasSvgFormat o))
              (if Image.hasRasterFormats o then Image.svgFilesOf files else []) w converted
         /\ Image.perFile (fun file => bind (Image.optimizeOne env o file) (fun r => ret [r]))
              (if Image.hasSvgFormat o then Image.svgFilesOf files else []) w1
            = (Ok optimized, w2)
         /\ OneEach (fun file => bind (Image.optimizeOne env o file) (fun r => ret [r]))
              (if Image.hasSvgFormat o then Image.svgFilesOf files else []) w1 optimized
         /\ Image.processImageMagickFiles env o (Image.imageMagickFilesOf o files)
              (Image.rasterFilesOf o files) w2
            = (Ok (fromMagick, viaSharp), w3)
         /\ ((fromMagick = []
              /\ viaSharp = Image.rasterFilesOf o files ++ Image.imageMagickFilesOf o files)
             \/ (viaSharp = Image.rasterFilesOf o files
                 /\ Image.perFile (Image.magickOne env o) (Image.imageMagickFilesOf o files)
                      (emit (EvProbe true) (countProbe (emit (EvProbe true) (countProbe w2))))
                    = (Ok fromMagick, w3)
                 /\ OneEach (Image.magickOne env o) (Image.imageMagickFilesOf o files)
                      (emit (EvProbe true) (countProbe (emit (EvProbe true) (countProbe w2))))
                      fromMagick))
         /\ Image.perFile (Image.rasterOne env o) viaSharp w3 = (Ok fromRaster, w')
         /\ OneEach (Image.rasterOne env o) viaSharp w3 fromRaster.
Proof.
  pose proof (processSvgFiles_parts env o (Image.svgFilesOf files) w) as Hparts.
  cbv zeta in Hparts.
  destruct Hparts as (converted & w1 & optimized & w2 & Hconv & Hopt & Hsvg).
  destruct (processSvgFiles_spec env o (Image.svgFilesOf files) w)
    as (rs1 & w1' & Hsvg' & Hl1 & Hn1).
  rewrite Hsvg in Hsvg'. injection Hsvg' as <- <-.
  pose proof (processImageMagickFiles_cases env o (Image.imageMagickFilesOf o files)
                (Image.rasterFilesOf o files) w2) as Hcases.
  cbv zeta in Hcases. destruct Hcases as (fromMagick & viaSharp & w3 & Hblock & Hcase).
  destruct (processImageMagickFiles_spec env o (Image.imageMagickFilesOf o files)
              (Image.rasterFilesOf o files) w2) as (rs2 & rf & w2' & Hblock' & Hcase').
  rewrite Hblock in Hblock'. injection Hblock' as <- <- <-.
  destruct (perFile_total (Image.rasterOne env o) viaSharp w3) as (rs3 & w4 & H3).
  pose proof (perFile_names _ _ (rasterOne_one env o) _ _ _ H3) as Hn3.
  pose proof (split_lengths o files) as Hsplit.
  assert (Hsvg_in : forall f, In f (Image.svgFilesOf files) -> In f files)
    by (intros f Hf; apply filter_In in Hf; tauto).
  assert (Hmagick_in : forall f, In f (Image.imageMagickFilesOf o files) -> In f files).
  { intros f Hf. unfold Image.imageMagickFilesOf in Hf.
    destruct (Image.useImageMagick o); [apply filter_In in Hf; tauto | contradiction]. }
  assert (Hraster_in : forall f, In f (Image.rasterFilesOf o files) -> In f files)
    by (intros f Hf; apply filter_In in Hf; tauto).
  assert (Hlen : (length fromMagick + length rs3
                  = length (Image.imageMagickFilesOf o files)
                    + length (Image.rasterFilesOf o files))%nat
                 /\ Forall (fun r => exists f, In f files /\ Image.name r = originalname f)
                      (fromMagick ++ rs3)).
  { clear Hcase Hblock. apply (f_equal (@length _)) in Hn3 as Hl3.
    rewrite !length_map in Hl3.
    destruct Hcase' as [[Hn2 Hrf]|[Hrs Hrf]].
    - rewrite Hrf in *. apply (f_equal (@length _)) in Hn2 as Hl2.
      rewrite !length_map in Hl2.
      split; [lia|]. apply Forall_app. split.
      + eapply Forall_among_weaken; [exact Hmagick_in | now apply names_among].
      + eapply Forall_among_weaken; [exact Hraster_in | now apply names_among].
    - rewrite Hrf, Hrs in *. rewrite length_app in Hl3. split; [simpl; lia|]. simpl.
      eapply Forall_among_weaken; [|apply names_among; exact Hn3].
      intros f Hf. apply in_app_iff in Hf. destruct Hf; auto. }
  destruct Hlen as (Hlen & Hnames).
  exists ((converted ++ optimized) ++ fromMagick ++ rs3), w4. split.
  { unfold Image.processImages, bind. rewrite Hsvg, Hblock. cbn [fst snd].
    unfold Image.processRasterFiles. now rewrite H3. }
  assert (Hcount : length ((converted ++ optimized) ++ fromMagick ++ rs3)
                   = (length files - length (Image.svgFilesOf files)
                      + length (Image.svgFilesOf files)
                        * (Nat.b2n (Image.hasRasterFormats o)
                           + Nat.b2n (Image.hasSvgFormat o)))%nat).
  { rewrite (length_app (converted ++ optimized)), (length_app fromMagick). lia. }
  split; [exact Hcount|]. split.
  { intros Hnone. rewrite Hcount, Hnone. simpl. lia. }
  split.
  { apply Forall_app. split; [|exact Hnames].
    eapply Forall_among_weaken; [exact Hsvg_in | exact Hn1]. }
  split.
  { intros P before file after w0 HP.
    destruct (perFile_split P before file after w0) as (r1 & v1 & r2 & v2 & Hb & _ & Hall).
    exists r1, v1, r2, v2. split; [assumption|]. split; [assumption|]. split.
    - intros e w1' He. unfold Image.entriesOf. now rewrite He.
    - intros own w1' Hown. split; [unfold Image.entriesOf; now rewrite Hown|].
      eapply pipelines_success; eassumption. }
  split; [apply split_is_permutation|].
  exists converted, w1, optimized, w2, fromMagick, viaSharp, w3, rs3.
  split; [symmetry; apply app_assoc|]. split; [exact Hconv|]. split.
  { clear Hcount Hl1. destruct (Image.hasRasterFormats o) eqn:Hr; [|apply oneEach_nil].
    exact (perFile_oneEach _ _ _ _ _ (svgToRaster_one env o Hr) Hconv). }
  split; [exact Hopt|]. split.
  { exact (perFile_oneEach _ _ _ _ _ (optimizeOne_one env o) Hopt). }
  split; [exact Hblock|]. split.
  { destruct Hcase as [Hfall|(_ & Hrf & Hmagick)]; [left; exact Hfall|right].
    split; [exact Hrf|]. split; [exact Hmagick|].
    exact (perFile_oneEach _ _ _ _ _ (magickOne_one env o) Hmagick). }
  split; [exact H3|].
  exact (perFile_oneEach _ _ _ _ _ (rasterOne_one env o) H3).
Qed.

(** A batch of three raster files, one of which fails: three entries. *)
Lemma processImages_results_witness :
  length (resultsOf (Image.processImages pickyEnv rasterBatch (Image.defaults true) rasterWorld))
  = 3%nat.
Proof.
  destruct (processImages_results pickyEnv rasterBatch (Image.defaults true) rasterWorld)
    as (rs & w' & Hrun & _ & Hnosvg & _).
  unfold resultsOf. rewrite Hrun. exact (Hnosvg eq_refl).
Defined.

(** C9, as the code has it.  When processImages has files for the
    secondary encoder (their extension is one of .tiff .tif .psd .eps
    .ai .pdf .heic .heif) and ImageMagick turns out not to be available,
    or the call of processWithImageMagick on them throws, nothing is
    reported for them by that block and the batch is not aborted: all of
    them are appended to the raster files, and the raster loop of the
    primary encoder gives every one of them one entry, that of its own
    run through the raster pipeline: the success entry of the pipeline
    when it does not throw, an entry with status 'error' and the message
    thrown when it does.  A file that is on disk, that nothing holds and
    every requested format of which sharp converts is processed: its
    entry is a success entry with the size of the upload and one artifact
    per requested format other than 'svg', each on disk, and its upload is
    removed. *)
Theorem specialty_files_fall_back (env : Env) (files : list UploadedFile) (o : Image.Options)
    (w : World) :
  let special := Image.imageMagickFilesOf o files in
  let ordinary := Image.rasterFilesOf o files in
  let afterSvg := snd (Image.processSvgFiles env o (Image.svgFilesOf files) w) in
  let probed := emit (EvProbe (probe env (probes afterSvg))) (countProbe afterSvg) in
  special <> [] ->
  (probe env (probes afterSvg) = false
   \/ exists e w2, Image.processWithImageMagick env special o probed = (Throw e, w2)) ->
  exists fromSvg w2 fromRaster w3,
    Image.processSvgFiles env o (Image.svgFilesOf files) w = (Ok fromSvg, afterSvg)
    /\ Image.processImageMagickFiles env o special ordinary afterSvg
       = (Ok ([], ordinary ++ special), w2)
    /\ dir w2 = dir afterSvg
    /\ Image.processRasterFiles env o (ordinary ++ special) w2 = (Ok fromRaster, w3)
    /\ Image.processImages env files o w = (Ok (fromSvg ++ fromRaster), w3)
    /\ map Image.name fromRaster = map originalname (ordinary ++ special)
    /\ Forall (fun f => Image.shouldUseImageMagick (originalname f) = true) special
    /\ OneEach (Image.rasterOne env o) (ordinary ++ special) w2 fromRaster
    /\ (forall file wf st r,
          dir wf !! path file = Some st ->
          pending wf (path file) = [] ->
          (forall format out,
             In format (List.filter (fun f => negb (String.eqb f "svg")) (Image.formats o)) ->
             exists bytes,
               sharp env (mkJob (path file) None (Image.resizeStep o)
                            (Image.rasterEncoder format (Image.quality o))) out
               = inr bytes) ->
          EntryOf (Image.rasterOne env o) file wf r ->
          exists pfs,
            r = Image.Success (originalname file) (Stats.size st) pfs None
            /\ map Image.format pfs
               = List.filter (fun f => negb (String.eqb f "svg")) (Image.formats o)
            /\ Forall (onDisk (snd (Image.rasterOne env o file wf))) pfs
            /\ dir (snd (Image.rasterOne env o file wf)) !! path file = None).
Proof.
  intros special ordinary afterSvg probed Hsome Hdown.
  destruct (processSvgFiles_spec env o (Image.svgFilesOf files) w) as (fromSvg & w1 & Hsvg & _).
  assert (Hw1 : afterSvg = w1) by (unfold afterSvg; now rewrite Hsvg).
  assert (Hblock : exists w2,
             Image.processImageMagickFiles env o special ordinary afterSvg
             = (Ok ([], ordinary ++ special), w2) /\ dir w2 = dir afterSvg).
  { unfold Image.processImageMagickFiles.
    assert ((0 <? length special)%nat = true) as ->
      by (destruct special; [contradiction | reflexivity]).
    unfold bind at 1. unfold Image.isImageMagickAvailable. fold probed.
    destruct (probe env (probes afterSvg)) eqn:Hprobe; [|exists probed; auto].
    destruct Hdown as [Hno|(e & w2 & Hthrow)]; [discriminate Hno|].
    unfold tryCatch, bind. rewrite Hthrow. exists w2. split; [reflexivity|].
    pose proof (processWithImageMagick_spec env o special probed) as Hm. cbv zeta in Hm.
    destruct (probe env (probes probed)).
    - destruct Hm as (rs & w' & Hm & _). rewrite Hm in Hthrow. discriminate Hthrow.
    - rewrite Hm in Hthrow. injection Hthrow as _ <-. reflexivity. }
  destruct Hblock as (w2 & Hblock & Hdir).
  destruct (perFile_total (Image.rasterOne env o) (ordinary ++ special) w2)
    as (fromRaster & w3 & Hraster).
  exists fromSvg, w2, fromRaster, w3.
  split; [now rewrite Hw1|]. split; [assumption|]. split; [assumption|].
  split; [assumption|]. split.
  { unfold Image.processImages, bind. rewrite Hsvg. fold special ordinary.
    rewrite <- Hw1, Hblock. cbn [fst snd]. unfold Image.processRasterFiles.
    now rewrite Hraster. }
  split; [eapply perFile_names; [apply rasterOne_one | eassumption]|].
  split.
  { unfold special, Image.imageMagickFilesOf.
    destruct (Image.useImageMagick o); [|constructor].
    apply Forall_forall. intros f Hf. apply list_elem_of_In, filter_In in Hf. tauto. }
  split; [exact (perFile_oneEach _ _ _ _ _ (rasterOne_one env o) Hraster)|].
  intros file wf st r Hd Hfree Hsharp Hentry.
  destruct (rasterOne_converts env o file wf st Hd Hfree Hsharp)
    as (pfs & wf' & Hrun & Hfmt & Hdisk & Hgone).
  unfold EntryOf in Hentry. rewrite Hrun in Hentry. destruct Hentry as (Heq & _).
  injection Heq as <-. exists pfs. rewrite Hrun. cbn [snd]. auto.
Qed.

(** A TIFF scan where ImageMagick is not installed is handed to sharp,
    which gives it its entry. *)
Lemma specialty_files_fall_back_witness :
  exists fromRaster w3,
    Image.processImages noMagickEnv scanBatch (Image.defaults true) scanWorld
    = (Ok ([] ++ fromRaster), w3)
    /\ map Image.name fromRaster = ["scan.TIFF"].
Proof.
  destruct (specialty_files_fall_back noMagickEnv scanBatch (Image.defaults true) scanWorld)
    as (fromSvg & w2 & fromRaster & w3 & Hsvg & _ & _ & _ & Hrun & Hnames & _).
  - discriminate.
  - left. reflexivity.
  - assert (fromSvg = []) as -> by (vm_compute in Hsvg; congruence).
    exists fromRaster, w3. split; [exact Hrun | exact Hnames].
Defined.
